(** * rollingWriter: a shallow embedding of writer.go

    The four writers of writer.go (Writer, LockedWriter, AsynchronousWriter,
    BufferWriter), their constructor, the rotation protocol [Reopen] with its
    background completion, the retention loop [AutoRemove] and
    [CompressFile] are embedded as state-passing functions over a model of
    the operating system (directory, inodes, open files, a schedule of
    injected failures) and of the Go runtime (buffer pool, goroutines parked
    on channels).

    Granularity. A call of Write or Close is one step. A goroutine advances
    in stages that end where its code blocks on a channel: the func literal
    of Reopen runs up to its send on w.fileCh, AutoRemove from one receive to
    the next, the worker of the asynchronous writer from its select to the
    next select or to its send on errChan. A stage is one [action] of the
    transition system [exec]; interleavings inside a stage are not
    represented. A call parked on the full queue is reported as [Parks] and
    not resumed.

    What writer.go uses without defining it (BufferSize, QueueSize,
    LogFilePath, NewManager, compress/gzip) is a parameter, the class
    [Env]. *)

From Stdlib Require Import ZArith Lia.
From Stdlib.Init Require Import Byte.
From stdpp Require Import base option list gmap strings.

Open Scope Z_scope.
Open Scope string_scope.
Open Scope list_scope.

(** ** Go values *)

(** A byte slice is modelled by its elements: its length is what [copy],
    [append] and re-slicing observe; capacity and the sharing of backing
    arrays are not observable in writer.go, where a buffer has one owner at a
    time. *)
Definition bytes : Set := list byte.

(** Go errors. [ErrInvalidArgument] and [ErrClosed] are the package's own
    values; the others are what package os reports. [EIO n] stands for any
    failure the operating system injects (disk full, permission, ...). *)
Inductive error : Set :=
| ErrInvalidArgument
| ErrClosed
| ErrNotExist
| ErrFileClosed
| ErrInvalid
| EIO (n : nat).

(** A Go [error] value: [None] is nil. *)
Definition goerr : Set := option error.

#[global] Instance error_eq_dec : EqDecision error.
Proof. solve_decision. Defined.

(** 64-bit two's complement wrap-around of Go's [int]. *)
Definition wrap64 (z : Z) : Z := (z + 2 ^ 63) mod 2 ^ 64 - 2 ^ 63.

(** ** The operating system *)

(** An [*os.File]: the inode it is open on, whether it was closed, and its
    read offset. All files are opened with the append flag, so writes ignore
    the offset and leave it at the end of the file. *)
Record File : Set := mkFile { f_ino : nat; f_closed : bool; f_pos : nat }.

(** One entry of the failure schedule: the next system call proceeds, or
    fails with [e]; a failing write has still written [n] bytes. *)
Inductive fault : Set :=
| Proceed
| Fail (e : error) (n : nat).

(** Goroutines started by [Reopen] (its func literal), by stage. *)
Inductive goroutine : Set :=
| G_completion (oldfile : nat) (file : string)
| G_send (oldfile : nat) (file : string)
| G_done.

(** The goroutine running [AutoRemove]. *)
Inductive ar_state : Set :=
| AR_absent
| AR_recv
| AR_got (file : string).

(** The goroutine running [AsynchronousWriter.writer]. *)
Inductive worker_state : Set :=
| W_absent
| W_select
| W_send (err : error) (b : bytes)
| W_exit.

Record World : Type := mkWorld {
  dir : gmap string nat;        (* directory entries: path to inode *)
  disk : list bytes;            (* contents of every inode *)
  handles : list File;          (* every *os.File opened so far *)
  faults : list fault;          (* failure schedule, one entry per system call *)
  logs : list (string * error); (* lines printed by log.Println *)
  pool : list bytes;            (* _asyncBufferPool: buffers put back, by contents *)
  spawned : list goroutine;     (* goroutines started by Reopen *)
  autoRemove : ar_state;
  worker : worker_state;
  err_waiters : nat;            (* receivers parked on errChan outside the package *)
  err_seen : list error         (* errors those receivers were handed *)
}.

Definition set_dir (d : gmap string nat) (w : World) : World :=
  mkWorld d (disk w) (handles w) (faults w) (logs w) (pool w) (spawned w)
          (autoRemove w) (worker w) (err_waiters w) (err_seen w).
Definition set_disk (d : list bytes) (w : World) : World :=
  mkWorld (dir w) d (handles w) (faults w) (logs w) (pool w) (spawned w)
          (autoRemove w) (worker w) (err_waiters w) (err_seen w).
Definition set_handles (h : list File) (w : World) : World :=
  mkWorld (dir w) (disk w) h (faults w) (logs w) (pool w) (spawned w)
          (autoRemove w) (worker w) (err_waiters w) (err_seen w).
Definition set_faults (f : list fault) (w : World) : World :=
  mkWorld (dir w) (disk w) (handles w) f (logs w) (pool w) (spawned w)
          (autoRemove w) (worker w) (err_waiters w) (err_seen w).
Definition set_logs (l : list (string * error)) (w : World) : World :=
  mkWorld (dir w) (disk w) (handles w) (faults w) l (pool w) (spawned w)
          (autoRemove w) (worker w) (err_waiters w) (err_seen w).
Definition set_pool (p : list bytes) (w : World) : World :=
  mkWorld (dir w) (disk w) (handles w) (faults w) (logs w) p (spawned w)
          (autoRemove w) (worker w) (err_waiters w) (err_seen w).
Definition set_spawned (g : list goroutine) (w : World) : World :=
  mkWorld (dir w) (disk w) (handles w) (faults w) (logs w) (pool w) g
          (autoRemove w) (worker w) (err_waiters w) (err_seen w).
Definition set_autoRemove (a : ar_state) (w : World) : World :=
  mkWorld (dir w) (disk w) (handles w) (faults w) (logs w) (pool w) (spawned w)
          a (worker w) (err_waiters w) (err_seen w).
Definition set_worker (k : worker_state) (w : World) : World :=
  mkWorld (dir w) (disk w) (handles w) (faults w) (logs w) (pool w) (spawned w)
          (autoRemove w) k (err_waiters w) (err_seen w).
Definition set_err (n : nat) (seen : list error) (w : World) : World :=
  mkWorld (dir w) (disk w) (handles w) (faults w) (logs w) (pool w) (spawned w)
          (autoRemove w) (worker w) n seen.

(** ** A state monad over the world *)

Definition M (A : Type) : Type := World -> A * World.

Definition ret {A} (a : A) : M A := fun w => (a, w).
Definition bind {A B} (m : M A) (k : A -> M B) : M B :=
  fun w => let (a, w') := m w in k a w'.
Definition get : M World := fun w => (w, w).
Definition modify (f : World -> World) : M unit := fun w => (tt, f w).

Declare Scope go_scope.
Delimit Scope go_scope with go.
Notation "'let!' x ':=' m 'in' k" := (bind m (fun x => k))
  (at level 10, x name, m at level 100, k at level 200) : go_scope.
Notation "'let!' ' pat ':=' m 'in' k" :=
  (bind m (fun x => match x with pat => k end))
  (at level 10, pat pattern, m at level 100, k at level 200) : go_scope.
Notation "'do!' m 'in' k" := (bind m (fun _ => k))
  (at level 10, m at level 100, k at level 200) : go_scope.
Open Scope go_scope.

(** The next entry of the failure schedule; an exhausted schedule lets every
    call proceed. *)
Definition next_fault : M fault := fun w =>
  match faults w with
  | [] => (Proceed, w)
  | f :: fs => (f, set_faults fs w)
  end.

(** log.Println(msg, err) *)
Definition log_Println (msg : string) (e : error) : M unit :=
  modify (fun w => set_logs (logs w ++ [(msg, e)]) w).

(** os.Rename: the entry [old] moves to [new], replacing what was there. *)
Definition os_Rename (old new : string) : M goerr :=
  let! f := next_fault in
  match f with
  | Fail e _ => ret (Some e)
  | Proceed =>
      let! w := get in
      match dir w !! old with
      | None => ret (Some ErrNotExist)
      | Some i => do! modify (set_dir (<[new := i]> (delete old (dir w)))) in ret None
      end
  end.

(** os.Remove *)
Definition os_Remove (name : string) : M goerr :=
  let! f := next_fault in
  match f with
  | Fail e _ => ret (Some e)
  | Proceed =>
      let! w := get in
      match dir w !! name with
      | None => ret (Some ErrNotExist)
      | Some _ => do! modify (set_dir (delete name (dir w))) in ret None
      end
  end.

(** os.MkdirAll: directories are not tracked, only the call's outcome. *)
Definition os_MkdirAll (name : string) : M goerr :=
  let! f := next_fault in
  match f with
  | Fail e _ => ret (Some e)
  | Proceed => ret None
  end.

(** Modelled from the spec: DefaultFileFlag and DefaultFileMode are declared
    outside writer.go; the spec gives create-if-absent, append mode, fixed
    permission, and the rotated file is read back through the same handle, so
    the file is opened for reading and writing.
    os.OpenFile(name, DefaultFileFlag, DefaultFileMode): the new handle's
    address, or the error. *)
Definition os_OpenFile (name : string) : M (nat + error) :=
  let! f := next_fault in
  match f with
  | Fail e _ => ret (inr e)
  | Proceed =>
      let! w := get in
      let h := length (handles w) in
      match dir w !! name with
      | Some i =>
          do! modify (set_handles (handles w ++ [mkFile i false 0])) in ret (inl h)
      | None =>
          let i := length (disk w) in
          do! modify (fun w => set_handles (handles w ++ [mkFile i false 0])
                                 (set_disk (disk w ++ [[]])
                                    (set_dir (<[name := i]> (dir w)) w))) in
          ret (inl h)
      end
  end.

(** The bytes of the inode a handle is open on. *)
Definition contents (w : World) (i : nat) : bytes := default [] (disk w !! i).

(** File.Write on an append-mode file. *)
Definition file_Write (h : nat) (b : bytes) : M (Z * goerr) :=
  let! f := next_fault in
  let! w := get in
  match handles w !! h with
  | Some (mkFile i false _) =>
      let put (n : nat) :=
        let c := contents w i ++ take n b in
        modify (fun w => set_handles (<[h := mkFile i false (length c)]> (handles w))
                           (set_disk (<[i := c]> (disk w)) w)) in
      match f with
      | Proceed => do! put (length b) in ret (Z.of_nat (length b), None)
      | Fail e n => do! put (n `min` length b)%nat in
                    ret (Z.of_nat (n `min` length b), Some e)
      end
  | _ => ret (0, Some ErrFileClosed)
  end.

(** File.Close: a second close reports the file as closed already. *)
Definition file_Close (h : nat) : M goerr :=
  let! f := next_fault in
  let! w := get in
  match handles w !! h with
  | Some (mkFile i false p) =>
      do! modify (set_handles (<[h := mkFile i true p]> (handles w))) in
      ret (match f with Proceed => None | Fail e _ => Some e end)
  | _ => ret (Some ErrFileClosed)
  end.

(** File.Seek(0, 0) *)
Definition file_Seek0 (h : nat) : M goerr :=
  let! f := next_fault in
  let! w := get in
  match handles w !! h, f with
  | Some (mkFile i false _), Proceed =>
      do! modify (set_handles (<[h := mkFile i false 0]> (handles w))) in ret None
  | Some (mkFile i false _), Fail e _ => ret (Some e)
  | _, _ => ret (Some ErrFileClosed)
  end.

(** Reading a handle to the end of its file, as io.Copy does with its
    source. *)
Definition file_ReadAll (h : nat) : M (bytes * goerr) :=
  let! f := next_fault in
  let! w := get in
  match handles w !! h, f with
  | Some (mkFile i false p), Proceed =>
      do! modify (set_handles (<[h := mkFile i false (length (contents w i))]> (handles w))) in
      ret (drop p (contents w i), None)
  | Some (mkFile i false _), Fail e _ => ret ([], Some e)
  | _, _ => ret ([], Some ErrFileClosed)
  end.

(** ** The package's environment *)

(** Modelled from the spec: type Config is declared outside writer.go; these
    are the fields writer.go reads (log directory, file name, write-mode
    selector, retained-file count, compress-on-rotate flag, buffer
    threshold). *)
Record Config : Set := mkConfig {
  LogPath : string;
  FileName : string;
  WriterMode : string;
  MaxRemain : Z;
  Compress : bool;
  BufferWriterThershould : Z
}.

(** What writer.go uses and does not define: the constants [BufferSize] and
    [QueueSize], [LogFilePath], the trigger engine's constructor
    [NewManager] (only whether it fails matters here), and compress/gzip,
    given by its encoder, its decoder and by how many bytes of the encoding
    of the input consumed so far a gzip.Writer has handed to the underlying
    file before it is closed. *)
Class Env : Type := mkEnv {
  BufferSize : nat;
  QueueSize : nat;
  LogFilePath : Config -> string;
  NewManager : Config -> goerr;
  gz_encode : bytes -> bytes;
  gz_decode : bytes -> option bytes;
  gz_early : bytes -> nat
}.

(** A channel-typed field without buffer (fileCh): nil, or made. The
    goroutines parked on such a channel are its whole state; they are kept
    in the world. *)
Inductive chanref : Set :=
| Nil
| Made.

(** type Writer struct. [fire] holds the destinations the trigger engine is
    offering on the channel, oldest first. *)
Record Writer : Set := mkWriter {
  file : nat;
  absPath : string;
  fire : list string;
  cf : Config;
  rollingfilelist : list string;
  fileCh : chanref
}.

Definition set_file (f : nat) (w : Writer) : Writer :=
  mkWriter f (absPath w) (fire w) (cf w) (rollingfilelist w) (fileCh w).
Definition set_fire (l : list string) (w : Writer) : Writer :=
  mkWriter (file w) (absPath w) l (cf w) (rollingfilelist w) (fileCh w).
Definition set_rollingfilelist (l : list string) (w : Writer) : Writer :=
  mkWriter (file w) (absPath w) (fire w) (cf w) l (fileCh w).

(** type LockedWriter struct *)
Record LockedWriter : Set := mkLockedWriter { lw_Writer : Writer }.

(** type AsynchronousWriter struct. [ctx] tells whether the channel was
    closed, [queue] is the channel's buffer, oldest chunk first; errChan has
    no buffer (see [worker] and [err_waiters]). *)
Record AsynchronousWriter : Set := mkAsynchronousWriter {
  aw_Writer : Writer;
  ctx : bool;
  queue : list bytes;
  closed : Z
}.

(** type BufferWriter struct *)
Record BufferWriter : Set := mkBufferWriter {
  bw_Writer : Writer;
  buf : bytes;
  swaping : Z
}.

(** The interface RollingWriter, by implementation. *)
Inductive RollingWriter : Set :=
| RW_Writer (w : Writer)
| RW_LockedWriter (w : LockedWriter)
| RW_AsynchronousWriter (w : AsynchronousWriter)
| RW_BufferWriter (w : BufferWriter).

Definition base (rw : RollingWriter) : Writer :=
  match rw with
  | RW_Writer w => w
  | RW_LockedWriter w => lw_Writer w
  | RW_AsynchronousWriter w => aw_Writer w
  | RW_BufferWriter w => bw_Writer w
  end.

(** How a call ends: it returns, it stays parked on a channel, or it
    panics. *)
Inductive outcome (A : Type) : Type :=
| Returns (a : A)
| Parks
| Panics.
Arguments Returns {A} a.
Arguments Parks {A}.
Arguments Panics {A}.

(** The go statement of [Reopen]. *)
Definition go (g : goroutine) : M unit :=
  modify (fun w => set_spawned (spawned w ++ [g]) w).

(** _asyncBufferPool.Get(): a buffer put back earlier, else what New
    makes, BufferSize zero bytes. *)
Definition pool_Get `{Env} : M bytes := fun w =>
  match pool w with
  | [] => (replicate BufferSize x00, w)
  | b :: p => (b, set_pool p w)
  end.

(** _asyncBufferPool.Put(b) *)
Definition pool_Put (b : bytes) : M unit :=
  modify (fun w => set_pool (b :: pool w) w).

(** ** compress/gzip *)

(** A gzip.Writer: the file it writes to, the input it has consumed, how
    many bytes of the encoding it has handed to the file, and its sticky
    error. *)
Record gzipWriter : Set := mkGzip {
  gz_dst : nat;
  gz_src : bytes;
  gz_sent : nat;
  gz_err : goerr
}.

Definition gzip_NewWriter (f : nat) : gzipWriter := mkGzip f [] 0 None.

(** Hands to the file what is missing of the first [upto] bytes of the
    encoding. *)
Definition gzip_flush `{Env} (z : gzipWriter) (upto : nat) : M gzipWriter :=
  match gz_err z with
  | Some _ => ret z
  | None =>
      match drop (gz_sent z) (take upto (gz_encode (gz_src z))) with
      | [] => ret z
      | out =>
          let! '(n, err) := file_Write (gz_dst z) out in
          ret (mkGzip (gz_dst z) (gz_src z) (gz_sent z + Z.to_nat n) err)
      end
  end.

(** gzip.Writer.Write *)
Definition gzip_Write `{Env} (z : gzipWriter) (p : bytes) : M (gzipWriter * goerr) :=
  match gz_err z with
  | Some e => ret (z, Some e)
  | None =>
      let z := mkGzip (gz_dst z) (gz_src z ++ p) (gz_sent z) None in
      let! z := gzip_flush z (gz_early (gz_src z)) in
      ret (z, gz_err z)
  end.

(** gzip.Writer.Close: the rest of the encoding, trailer included. *)
Definition gzip_Close `{Env} (z : gzipWriter) : M goerr :=
  let! z := gzip_flush z (length (gz_encode (gz_src z))) in
  ret (gz_err z).

(** io.Copy(gw, oldfile): the source is read to its end and written to the
    gzip.Writer; an empty source causes no Write. *)
Definition io_Copy `{Env} (gw : gzipWriter) (src : nat) : M (gzipWriter * goerr) :=
  let! '(data, rerr) := file_ReadAll src in
  match rerr with
  | Some e => ret (gw, Some e)
  | None =>
      match data with
      | [] => ret (gw, None)
      | _ => gzip_Write gw data
      end
  end.

(** ** writer.go *)

(** CompressFile. The two deferred calls, gw.Close() then cmpfile.Close(),
    run on every return after their defer statement; when OpenFile fails,
    cmpfile is nil and its deferred Close does nothing. *)
Definition CompressFile `{Env} (w : Writer) (oldfile : nat) (cmpname : string) : M goerr :=
  let! r := os_OpenFile cmpname in
  match r with
  | inr e => ret (Some e)
  | inl cmpfile =>
      let gw := gzip_NewWriter cmpfile in
      let deferred (gw : gzipWriter) (res : goerr) : M goerr :=
        do! gzip_Close gw in
        do! file_Close cmpfile in
        ret res in
      let! err := file_Seek0 oldfile in
      match err with
      | Some e => deferred gw (Some e)
      | None =>
          let! '(gw, err) := io_Copy gw oldfile in
          match err with
          | Some _ =>
              let! errR := os_Remove cmpname in
              match err with
              | Some _ => deferred gw errR
              | None => deferred gw err
              end
          | None =>
              let! err := os_Remove (cmpname +:+ ".tmp") in
              deferred gw err
          end
      end
  end.

(** Reopen, up to its go statement. *)
Definition Reopen (w : Writer) (file' : string) : M (goerr * Writer) :=
  let! err := os_Rename (absPath w) file' in
  match err with
  | Some e => ret (Some e, w)
  | None =>
      let! r := os_OpenFile (absPath w) in
      match r with
      | inr e => ret (Some e, w)
      | inl newfile =>
          let oldfile := file w in
          do! go (G_completion oldfile file') in
          ret (None, set_file newfile w)
      end
  end.

(** The func literal of Reopen, from its start to the send on w.fileCh. It
    ends early, running the deferred Close of the old file, when compression
    fails. *)
Definition completion `{Env} (w : Writer) (oldfile : nat) (file' : string) : M goroutine :=
  if Compress (cf w) then
    let! err := os_Rename file' (file' +:+ ".tmp") in
    match err with
    | Some e =>
        do! log_Println "error in compress rename tempfile" e in
        do! file_Close oldfile in
        ret G_done
    | None =>
        let! err := CompressFile w oldfile file' in
        match err with
        | Some e =>
            do! log_Println "error in compress log file" e in
            do! file_Close oldfile in
            ret G_done
        | None => ret (G_send oldfile file')
        end
    end
  else ret (G_send oldfile file').

(** The send w.fileCh <- file and the deferred Close after it. The send
    goes through when AutoRemove is parked on the receive of a made channel;
    on a nil channel it never does. *)
Definition completion_send (w : Writer) (oldfile : nat) (file' : string) : M goroutine :=
  let! world := get in
  match fileCh w, autoRemove world with
  | Made, AR_recv =>
      do! modify (set_autoRemove (AR_got file')) in
      do! file_Close oldfile in
      ret G_done
  | _, _ => ret (G_send oldfile file')
  end.

(** The inner loop of AutoRemove. *)
Fixpoint AutoRemove_loop (maxRemain : Z) (l : list string) : M (list string) :=
  match l with
  | [] => ret []
  | file' :: rest =>
      if (maxRemain >=? 0)%Z && (Z.of_nat (length l) >? maxRemain)%Z then
        let! err := os_Remove file' in
        do! match err with
            | Some e => log_Println "error in auto remove log file" e
            | None => ret tt
            end in
        AutoRemove_loop maxRemain rest
      else ret l
  end.

(** One round of AutoRemove's outer loop, from the value received on
    w.fileCh back to the receive. *)
Definition AutoRemove (w : Writer) : M Writer :=
  let! world := get in
  match autoRemove world with
  | AR_got file' =>
      let l := rollingfilelist w ++ [file'] in
      let! l := AutoRemove_loop (MaxRemain (cf w)) l in
      do! modify (set_autoRemove AR_recv) in
      ret (set_rollingfilelist l w)
  | _ => ret w
  end.

(** Writer.Write. The select takes a destination from w.fire when the
    trigger engine offers one. *)
Definition Writer_Write (w : Writer) (b : bytes) : M (Z * goerr * Writer) :=
  match fire w with
  | filename :: offers =>
      let! '(err, w) := Reopen (set_fire offers w) filename in
      match err with
      | Some e => ret (0, Some e, w)
      | None => let! r := file_Write (file w) b in ret (r, w)
      end
  | [] => let! r := file_Write (file w) b in ret (r, w)
  end.

(** LockedWriter.Write: as Writer.Write, the handle being read with an atomic
    load after the select. *)
Definition LockedWriter_Write (w : LockedWriter) (b : bytes)
  : M (Z * goerr * LockedWriter) :=
  match fire (lw_Writer w) with
  | filename :: offers =>
      let! '(err, w') := Reopen (set_fire offers (lw_Writer w)) filename in
      match err with
      | Some e => ret (0, Some e, mkLockedWriter w')
      | None =>
          let fp := file w' in
          let! r := file_Write fp b in ret (r, mkLockedWriter w')
      end
  | [] =>
      let fp := file (lw_Writer w) in
      let! r := file_Write fp b in ret (r, w)
  end.

Definition set_aw_Writer (b : Writer) (w : AsynchronousWriter) : AsynchronousWriter :=
  mkAsynchronousWriter b (ctx w) (queue w) (closed w).
Definition set_queue (q : list bytes) (w : AsynchronousWriter) : AsynchronousWriter :=
  mkAsynchronousWriter (aw_Writer w) (ctx w) q (closed w).

(** The loop of the rotation branch of AsynchronousWriter.Write: b is cut
    into chunks, each the size copy could fit into a pooled buffer. A send
    on the full queue parks the call; [room] counts the free slots. The
    boolean tells whether the loop ran to its end. *)
Fixpoint enqueue_chunks `{Env} (room : nat) (b : bytes) (q : list bytes)
  : M (list bytes * bool) :=
  match b with
  | [] => ret (q, true)
  | _ =>
      let! buf := pool_Get in
      let n := (length buf `min` length b)%nat in
      match room with
      | O => ret (q, false)
      | S room => enqueue_chunks room (drop n b) (q ++ [take n b])
      end
  end.

(** AsynchronousWriter.Write. A receive from errChan is ready when the worker
    is parked on its send; [pick] is the runtime's choice when both that
    receive and the one from w.fire are ready (true: errChan). *)
Definition AsynchronousWriter_Write `{Env} (pick : bool) (w : AsynchronousWriter)
    (b : bytes) : M (outcome (Z * goerr) * AsynchronousWriter) :=
  if (closed w =? 0)%Z then
    let! world := get in
    let from_errChan (err : error) (held : bytes) :=
      do! modify (set_worker W_select) in
      do! pool_Put held in
      ret (Returns (0, Some err), w) in
    let from_fire (filename : string) (offers : list string) :=
      let! '(err, base') := Reopen (set_fire offers (aw_Writer w)) filename in
      let w := set_aw_Writer base' w in
      match err with
      | Some e => ret (Returns (0, Some e), w)
      | None =>
          let l := length b in
          let! '(q, sent) := enqueue_chunks (QueueSize - length (queue w)) b (queue w) in
          ret (if sent : bool then Returns (Z.of_nat l, None) else Parks, set_queue q w)
      end in
    match worker world, fire (aw_Writer w) with
    | W_send err held, filename :: offers =>
        if pick then from_errChan err held else from_fire filename offers
    | W_send err held, [] => from_errChan err held
    | _, filename :: offers => from_fire filename offers
    | _, [] =>
        let! buf := pool_Get in
        let chunk := take (length b) (buf ++ b) in
        if decide (length (queue w) < QueueSize)%nat then
          ret (Returns (Z.of_nat (length b), None), set_queue (queue w ++ [chunk]) w)
        else ret (Parks, w)
    end
  else ret (Returns (0, Some ErrClosed), w).

(** Handing an error to a receiver parked on errChan outside the package. *)
Definition err_deliver (e : error) : M bool := fun world =>
  match err_waiters world with
  | O => (false, world)
  | S n => (true, set_err n (err_seen world ++ [e]) world)
  end.

(** One chunk of the worker's loop: write it, report a failure on errChan,
    put the buffer back. The send parks the worker until somebody receives. *)
Definition writer_chunk (w : AsynchronousWriter) (b : bytes) : M unit :=
  let! '(_, err) := file_Write (file (aw_Writer w)) b in
  match err with
  | Some e =>
      let! taken := err_deliver e in
      if taken : bool then pool_Put b else modify (set_worker (W_send e b))
  | None => pool_Put b
  end.

(** AsynchronousWriter.writer, one round of its loop. [pick] is the runtime's
    choice when both the queue and the closed ctx are ready (true: ctx). *)
Definition writer (pick : bool) (w : AsynchronousWriter) : M AsynchronousWriter :=
  let! world := get in
  match worker world with
  | W_select =>
      match queue w, ctx w with
      | [], false => ret w
      | [], true => do! modify (set_worker W_exit) in ret w
      | b :: q, true =>
          if pick then do! modify (set_worker W_exit) in ret w
          else do! writer_chunk w b in ret (set_queue q w)
      | b :: q, false => do! writer_chunk w b in ret (set_queue q w)
      end
  | W_send e b =>
      let! taken := err_deliver e in
      if taken : bool then
        do! modify (set_worker W_select) in do! pool_Put b in ret w
      else ret w
  | _ => ret w
  end.

(** A receive on errChan by its owner outside the package: it takes the
    error of a parked worker, or parks. *)
Definition errChan_receive : M unit :=
  let! world := get in
  match worker world with
  | W_send e b =>
      do! modify (fun world => set_err (err_waiters world) (err_seen world ++ [e])
                                 (set_worker W_select world)) in
      pool_Put b
  | _ => modify (fun world => set_err (S (err_waiters world)) (err_seen world) world)
  end.

(** The loop of onClose over the chunks still queued; it returns the chunks
    it leaves behind. *)
Fixpoint onClose_loop (f : nat) (q : list bytes) : M (list bytes) :=
  match q with
  | [] => ret []
  | b :: q =>
      let! '(_, err) := file_Write f b in
      match err with
      | Some e =>
          let! taken := err_deliver e in
          if taken : bool then do! pool_Put b in onClose_loop f q
          else do! pool_Put b in ret q
      | None => do! pool_Put b in onClose_loop f q
      end
  end.

(** AsynchronousWriter.onClose *)
Definition onClose (w : AsynchronousWriter) : M AsynchronousWriter :=
  let! q := onClose_loop (file (aw_Writer w)) (queue w) in
  ret (set_queue q w).

(** AsynchronousWriter.Close *)
Definition AsynchronousWriter_Close (w : AsynchronousWriter)
  : M (goerr * AsynchronousWriter) :=
  if (closed w =? 0)%Z then
    let w := mkAsynchronousWriter (aw_Writer w) true (queue w) 1 in
    let! w := onClose w in
    let! err := file_Close (file (aw_Writer w)) in
    ret (err, w)
  else ret (Some ErrClosed, w).

(** makeslice: make panics on a negative capacity and on one whose array
    would exceed the address space (2^48 bytes). *)
Definition makeslice_ok (elem_size cap : Z) : bool :=
  (0 <=? cap)%Z && (elem_size * cap <=? 2 ^ 48)%Z.

(** BufferWriter.Write *)
Definition BufferWriter_Write (w : BufferWriter) (b : bytes)
  : M (outcome (Z * goerr) * BufferWriter) :=
  let append_flush (base' : Writer) :=
    let buf' := buf w ++ b in
    let threshold := BufferWriterThershould (cf base') in
    if (Z.of_nat (length buf') >? threshold)%Z && (swaping w =? 0)%Z then
      if makeslice_ok 1 (wrap64 (threshold * 10)) then
        let nb : bytes := [] in
        let ob := buf' in
        do! file_Write (file base') ob in
        ret (Returns (Z.of_nat (length b), None), mkBufferWriter base' nb 0)
      else ret (Panics, mkBufferWriter base' buf' 1)
    else ret (Returns (Z.of_nat (length b), None), mkBufferWriter base' buf' (swaping w)) in
  match fire (bw_Writer w) with
  | filename :: offers =>
      let! '(err, base') := Reopen (set_fire offers (bw_Writer w)) filename in
      match err with
      | Some e => ret (Returns (0, Some e), mkBufferWriter base' (buf w) (swaping w))
      | None => append_flush base'
      end
  | [] => append_flush (bw_Writer w)
  end.

(** Writer.Close *)
Definition Writer_Close (w : Writer) : M goerr := file_Close (file w).

(** LockedWriter.Close *)
Definition LockedWriter_Close (w : LockedWriter) : M goerr :=
  let fp := file (lw_Writer w) in
  file_Close fp.

(** BufferWriter.Close *)
Definition BufferWriter_Close (w : BufferWriter) : M goerr :=
  do! file_Write (file (bw_Writer w)) (buf w) in
  file_Close (file (bw_Writer w)).

(** NewWriterFromConfig: the writer, or the error, unless a make panics.
    mng.Fire() starts with no destination on offer. The go statements start
    AutoRemove (modes none, lock, buffer) and the worker (mode async), which
    has reached its loop when the constructor returns. *)
Definition NewWriterFromConfig `{Env} (c : Config) : M (outcome (RollingWriter + error)) :=
  if decide (LogPath c = "" \/ FileName c = "") then ret (Returns (inr ErrInvalidArgument))
  else
    let! err := os_MkdirAll (LogPath c) in
    match err with
    | Some e => ret (Returns (inr e))
    | None =>
        let filepath := LogFilePath c in
        let! r := os_OpenFile filepath in
        match r with
        | inr e => ret (Returns (inr e))
        | inl file' =>
            if (MaxRemain c >? 0)%Z && negb (makeslice_ok 16 (wrap64 (MaxRemain c + 1)))
            then ret Panics
            else
              let filel : list string := [] in
              match NewManager c with
              | Some e => ret (Returns (inr e))
              | None =>
                  let mk (ch : chanref) := mkWriter file' filepath [] c filel ch in
                  if decide (WriterMode c = "none") then
                    do! modify (set_autoRemove AR_recv) in
                    ret (Returns (inl (RW_Writer (mk Nil))))
                  else if decide (WriterMode c = "lock") then
                    do! modify (set_autoRemove AR_recv) in
                    ret (Returns (inl (RW_LockedWriter (mkLockedWriter (mk Made)))))
                  else if decide (WriterMode c = "async") then
                    do! modify (set_worker W_select) in
                    ret (Returns (inl (RW_AsynchronousWriter
                                         (mkAsynchronousWriter (mk Nil) false [] 0))))
                  else if decide (WriterMode c = "buffer") then
                    if makeslice_ok 1 (wrap64 (BufferWriterThershould c * 10)) then
                      do! modify (set_autoRemove AR_recv) in
                      ret (Returns (inl (RW_BufferWriter (mkBufferWriter (mk Nil) [] 0))))
                    else ret Panics
                  else ret (Returns (inr ErrInvalidArgument))
              end
        end
    end.

(** ** The transition system *)

(** What can happen to a writer: calls of its two methods, the trigger
    engine offering a destination on w.fire, and the next stage of one of
    the goroutines. *)
Inductive action : Set :=
| A_Write (b : bytes) (pick : bool)
| A_Close
| A_fire (file : string)
| A_completion (i : nat)
| A_AutoRemove
| A_writer (pick : bool)
| A_errChan_receive.

(** What the caller of a method observes. *)
Inductive result : Set :=
| R_Write (n : Z) (err : goerr)
| R_Close (err : goerr)
| R_parked
| R_panic
| R_none.

Definition write_result (o : outcome (Z * goerr)) : result :=
  match o with
  | Returns (n, err) => R_Write n err
  | Parks => R_parked
  | Panics => R_panic
  end.

Definition set_base (b : Writer) (rw : RollingWriter) : RollingWriter :=
  match rw with
  | RW_Writer _ => RW_Writer b
  | RW_LockedWriter _ => RW_LockedWriter (mkLockedWriter b)
  | RW_AsynchronousWriter w => RW_AsynchronousWriter (set_aw_Writer b w)
  | RW_BufferWriter w => RW_BufferWriter (mkBufferWriter b (buf w) (swaping w))
  end.

(** rw.Write(b) through the interface. *)
Definition Write `{Env} (pick : bool) (rw : RollingWriter) (b : bytes)
  : M (result * RollingWriter) :=
  match rw with
  | RW_Writer w =>
      let! '(n, err, w) := Writer_Write w b in ret (R_Write n err, RW_Writer w)
  | RW_LockedWriter w =>
      let! '(n, err, w) := LockedWriter_Write w b in ret (R_Write n err, RW_LockedWriter w)
  | RW_AsynchronousWriter w =>
      let! '(o, w) := AsynchronousWriter_Write pick w b in
      ret (write_result o, RW_AsynchronousWriter w)
  | RW_BufferWriter w =>
      let! '(o, w) := BufferWriter_Write w b in
      ret (write_result o, RW_BufferWriter w)
  end.

(** rw.Close() through the interface. *)
Definition Close (rw : RollingWriter) : M (result * RollingWriter) :=
  match rw with
  | RW_Writer w => let! err := Writer_Close w in ret (R_Close err, rw)
  | RW_LockedWriter w => let! err := LockedWriter_Close w in ret (R_Close err, rw)
  | RW_AsynchronousWriter w =>
      let! '(err, w) := AsynchronousWriter_Close w in
      ret (R_Close err, RW_AsynchronousWriter w)
  | RW_BufferWriter w => let! err := BufferWriter_Close w in ret (R_Close err, rw)
  end.

(** The next stage of the i-th goroutine started by Reopen. *)
Definition run_completion `{Env} (i : nat) (rw : RollingWriter) : M unit :=
  let! world := get in
  let! g := match spawned world !! i with
            | Some (G_completion oldfile file') => completion (base rw) oldfile file'
            | Some (G_send oldfile file') => completion_send (base rw) oldfile file'
            | _ => ret G_done
            end in
  modify (fun world => set_spawned (<[i := g]> (spawned world)) world).

Definition exec `{Env} (a : action) (rw : RollingWriter) : M (result * RollingWriter) :=
  match a with
  | A_Write b pick => Write pick rw b
  | A_Close => Close rw
  | A_fire file' => ret (R_none, set_base (set_fire (fire (base rw) ++ [file']) (base rw)) rw)
  | A_completion i => do! run_completion i rw in ret (R_none, rw)
  | A_AutoRemove => let! b := AutoRemove (base rw) in ret (R_none, set_base b rw)
  | A_writer pick =>
      match rw with
      | RW_AsynchronousWriter w =>
          let! w := writer pick w in ret (R_none, RW_AsynchronousWriter w)
      | _ => ret (R_none, rw)
      end
  | A_errChan_receive =>
      match rw with
      | RW_AsynchronousWriter _ => do! errChan_receive in ret (R_none, rw)
      | _ => ret (R_none, rw)
      end
  end.

(** A run: the actions in order, with what each returned. *)
Fixpoint run `{Env} (l : list action) (rw : RollingWriter) : M (list result * RollingWriter) :=
  match l with
  | [] => ret ([], rw)
  | a :: l =>
      let! '(r, rw) := exec a rw in
      let! '(rs, rw) := run l rw in
      ret (r :: rs, rw)
  end.

(** ** Notions used to state the properties *)

(** An asynchronous writer on which Close has been called. *)
Definition is_closed (rw : RollingWriter) : Prop :=
  match rw with
  | RW_AsynchronousWriter w => closed w <> 0
  | _ => False
  end.

(** A handle that has been closed. *)
Definition closed_handle (world : World) (h : nat) : Prop :=
  exists i p, handles world !! h = Some (mkFile i true p).

(** What holds between two calls of a buffered writer that nobody else
    touches and that no trigger reaches. *)
Record buffered_inv (w : BufferWriter) (world : World) (i : nat) : Prop := {
  bi_fire : fire (bw_Writer w) = [];
  bi_swaping : swaping w = 0;
  bi_make : makeslice_ok 1 (wrap64 (BufferWriterThershould (cf (bw_Writer w)) * 10)) = true;
  bi_open : exists p, handles world !! file (bw_Writer w) = Some (mkFile i false p);
  bi_inode : (i < length (disk world))%nat;
  bi_faults : faults world = []
}.

(** A caller that only writes, and what it is answered. *)
Definition writes (pick : bool) (bs : list bytes) : list action :=
  map (fun b => A_Write b pick) bs.
Definition written (bs : list bytes) : list result :=
  map (fun b => R_Write (Z.of_nat (length b)) None) bs.

(** A rotation serviced to its end: the trigger engine offers [dest], a
    Write takes it and reopens, the goroutine of that Reopen runs up to its
    send, the send is taken, and AutoRemove handles the file. [idx] is the
    goroutine's position among those started by Reopen. *)
Definition rotation (idx : nat) (dest : string) (b : bytes) : list action :=
  [A_fire dest; A_Write b false; A_completion idx; A_completion idx; A_AutoRemove].

Fixpoint rotations (idx : nat) (dests : list string) (b : bytes) : list action :=
  match dests with
  | [] => []
  | d :: dests => rotation idx d b ++ rotations (S idx) dests b
  end.

(** What holds between two rotations of a writer whose retention channel
    was made, in a world without failures. *)
Record retention_inv (w : Writer) (world : World) : Prop := {
  ri_faults : faults world = [];
  ri_autoRemove : autoRemove world = AR_recv;
  ri_fire : fire w = [];
  ri_fileCh : fileCh w = Made;
  ri_maxRemain : (0 <= MaxRemain (cf w))%Z;
  ri_open : exists i p, handles world !! file w = Some (mkFile i false p) /\
                        (i < length (disk world))%nat;
  ri_path : is_Some (dir world !! absPath w);
  ri_nodup : NoDup (rollingfilelist w);
  ri_abs : absPath w ∉ rollingfilelist w;
  ri_listed : forall x, x ∈ rollingfilelist w -> is_Some (dir world !! x)
}.

(** What a system call on other files leaves alone. *)
Record frame (world world' : World) : Prop := {
  fr_faults : faults world' = faults world;
  fr_dir : dir world' = dir world;
  fr_logs : logs world' = logs world;
  fr_spawned : spawned world' = spawned world;
  fr_autoRemove : autoRemove world' = autoRemove world;
  fr_disk : length (disk world') = length (disk world);
  fr_handles : length (handles world') = length (handles world)
}.

(** Between [world] and [world']: no handle disappears, AutoRemove stays
    where it is and nothing is logged. *)
Record quiet (world world' : World) : Prop := {
  q_handles : (length (handles world) <= length (handles world'))%nat;
  q_autoRemove : autoRemove world' = autoRemove world;
  q_logs : logs world' = logs world
}.

(** AutoRemove is where it was. *)
Definition ar_kept (world world' : World) : Prop := autoRemove world' = autoRemove world.

Definition preserves {A} (R : World -> World -> Prop) (m : M A) : Prop :=
  forall world, R world (snd (m world)).

Create HintDb quiet.

(** A handle that is open on the inode [i]. *)
Definition open_on (world : World) (h i : nat) : Prop :=
  exists p, handles world !! h = Some (mkFile i false p).

(** Between [world] and [world']: no handle disappears, and the handle [h],
    if it was open on [i], still is. *)
Record keeps_open (h i : nat) (world world' : World) : Prop := {
  ko_handles : (length (handles world) <= length (handles world'))%nat;
  ko_open : open_on world h i -> open_on world' h i
}.

(** What the completion of a rotation logs when compression fails: [err1]
    is what the rename to ".tmp" returned, [err2] what CompressFile returned
    after it. *)
Definition compression_failure (compress : bool) (err1 err2 : goerr)
  : option (string * error) :=
  if compress then
    match err1, err2 with
    | Some e, _ => Some ("error in compress rename tempfile", e)
    | None, Some e => Some ("error in compress log file", e)
    | None, None => None
    end
  else None.

Create HintDb keeps_open.

(** ** Tactics *)

(** Case analysis on the innermost scrutinee of the goal, repeated. *)
Ltac destruct_inner :=
  match goal with
  | |- context [match ?x with _ => _ end] =>
      lazymatch x with
      | context [match _ with _ => _ end] => fail
      | _ => destruct x eqn:?
      end
  end.
Ltac run_all :=
  repeat (simpl in *; unfold bind, ret, get, modify in *; destruct_inner);
  simpl in *; simplify_eq.

(** A system call keeps [quiet]: by cases on its failure and on the state
    of the file. *)
Ltac quiet_prim :=
  intros world; unfold bind, get, modify, ret, next_fault;
  repeat (simpl; destruct_inner); simpl;
  split; simpl; rewrite ?length_insert, ?length_app; simpl; first [done | lia].

(** A system call keeps [keeps_open]: by cases on its failure and on the
    state of the file. *)
Ltac keeps_prim :=
  intros world; unfold bind, get, modify, ret, next_fault;
  repeat (simpl; destruct_inner); simpl;
  (split; simpl; [rewrite ?length_insert, ?length_app; simpl; first [done | lia]|]);
  unfold open_on; simpl; intros [q Hq];
  first
    [ by eexists
    | eexists; apply lookup_app_l_Some; eassumption
    | match goal with
      | |- context [<[?h' := _]> _ !! ?h] =>
          destruct (decide (h = h')) as [->|];
          [simplify_eq; eexists; apply list_lookup_insert_eq; by eapply lookup_lt_Some
          |rewrite list_lookup_insert_ne by done; by eexists]
      end ].

(** ** A concrete environment for the examples *)

(** A stand-in for compress/gzip: the two magic bytes of a gzip stream, then
    the data as they are. The writer hands the two magic bytes to the file
    when it is first written to. *)
Definition stored_encode (b : bytes) : bytes := x1f :: x8b :: b.
Definition stored_decode (b : bytes) : option bytes :=
  match b with
  | x1f :: x8b :: d => Some d
  | _ => None
  end.

(** Small buffers and a short queue, so that the examples stay readable. *)
Definition example_env : Env :=
  mkEnv 4 2 (fun c => LogPath c +:+ "/" +:+ FileName c +:+ ".log") (fun _ => None)
        stored_encode stored_decode (fun _ => 2%nat).

Definition empty_world : World := mkWorld ∅ [] [] [] [] [] [] AR_absent W_absent 0 [].

Definition example_config (mode : string) (maxRemain : Z) (compress : bool) : Config :=
  mkConfig "log" "a" mode maxRemain compress 8.

(** "hello-log" and a newline. *)
Definition hello : bytes := ["h"; "e"; "l"; "l"; "o"; "-"; "l"; "o"; "g"; x0a]%byte.

(** The writer made from a configuration in the empty world, then the
    actions [l]: what they returned, the writer and the world they end in. *)
Definition example_run (e : Env) (c : Config) (fs : list fault) (l : list action)
  : option (list result * RollingWriter * World) :=
  match @NewWriterFromConfig e c (set_faults fs empty_world) with
  | (Returns (inl rw), world) => Some (@run e l rw world)
  | _ => None
  end.

(** The rotated files among [dests] that are on disk. *)
Definition on_disk (world : World) (dests : list string) : list string :=
  filter (fun d => is_Some (dir world !! d)) dests.

(** The writer NewWriterFromConfig makes from [example_config] in the empty
    world, and that world once the constructor has returned: one empty file
    "log/a.log", open. *)
Definition example_writer (mode : string) (ch : chanref) (compress : bool) : Writer :=
  mkWriter 0 "log/a.log" [] (example_config mode 2 compress) [] ch.
Definition started_world (a : ar_state) (k : worker_state) : World :=
  mkWorld {["log/a.log" := 0%nat]} [[]] [mkFile 0 false 0] [] [] [] [] a k 0 [].

(** An asynchronous writer with the chunks [q] in its queue. *)
Definition example_async (q : list bytes) : AsynchronousWriter :=
  mkAsynchronousWriter (example_writer "async" Nil false) false q 0.

Definition four_dests : list string := ["r1"; "r2"; "r3"; "r4"].

(** The world in which the completion of a rotation to "r1" has renamed the
    rotated file to "r1.tmp" and calls CompressFile. *)
Definition compress_world (fs : list fault) : World :=
  mkWorld {["log/a.log" := 1%nat; "r1.tmp" := 0%nat]} [hello; []]
          [mkFile 0 false 10; mkFile 1 false 0] fs [] [] [G_completion 0 "r1"]
          AR_recv W_absent 0 [].

(** A world whose file "log/a.log" holds "hello-log" and a newline. *)
Definition hello_world : World :=
  mkWorld {["log/a.log" := 0%nat]} [hello] [mkFile 0 false 10] [] [] [] []
          AR_recv W_absent 0 [].

(** ** Notions used to state the further properties *)

(** The kind of writer a mode selects. *)
Definition mode_of (rw : RollingWriter) : string :=
  match rw with
  | RW_Writer _ => "none"
  | RW_LockedWriter _ => "lock"
  | RW_AsynchronousWriter _ => "async"
  | RW_BufferWriter _ => "buffer"
  end.

(** The fields a strategy adds to the embedded Writer, as the constructor
    sets them. *)
Definition fresh_strategy (rw : RollingWriter) : Prop :=
  match rw with
  | RW_AsynchronousWriter w => ctx w = false /\ queue w = [] /\ closed w = 0
  | RW_BufferWriter w => buf w = [] /\ swaping w = 0
  | _ => True
  end.

(** The writers whose Write goes to the file within the call. *)
Definition synchronous (rw : RollingWriter) : Prop :=
  match rw with
  | RW_Writer _ | RW_LockedWriter _ => True
  | _ => False
  end.

(** A handle that is not open: closed, or never handed out. *)
Definition not_open (world : World) (h : nat) : Prop :=
  forall i p, handles world !! h <> Some (mkFile i false p).

(** A buffered writer between two calls: no flush is under way and what is
    pending is within the threshold. *)
Definition pending_within (w : BufferWriter) : Prop :=
  swaping w = 0 /\
  (Z.of_nat (length (buf w)) <= Z.max 0 (BufferWriterThershould (cf (bw_Writer w))))%Z.

(** The select of rw.Write takes the trigger on offer: always for the
    writers without error channel; for the asynchronous writer when it is
    not closed and the receive from errChan is not ready or not chosen. *)
Definition takes_trigger (pick : bool) (rw : RollingWriter) (world : World) : Prop :=
  match rw with
  | RW_AsynchronousWriter w =>
      closed w = 0 /\ (pick = false \/ forall e held, worker world <> W_send e held)
  | _ => True
  end.

(** * Properties *)

(** ** A failed rename *)

Lemma next_fault_eq (world : World) :
  next_fault world =
    (default Proceed (head (faults world)), set_faults (tail (faults world)) world).
Proof.
  unfold next_fault. destruct world as [d k h f]; simpl.
  destruct f; reflexivity.
Qed.

(** C3. When the rename of the current file to the destination fails, Reopen
    returns that error and changes nothing: the writer it returns is the one
    it was given (same handle, no swap), and the world differs only by the
    entry of the failure schedule the call has consumed; the directory, the
    inodes, the open handles and the goroutines (no completion is started)
    are as before. *)
Theorem Reopen_rename_fails (w : Writer) (file' : string) (world : World) (e : error) :
  fst (os_Rename (absPath w) file' world) = Some e ->
  let world' := set_faults (tail (faults world)) world in
  Reopen w file' world = (Some e, w, world') /\
  dir world' = dir world /\ disk world' = disk world /\
  handles world' = handles world /\ spawned world' = spawned world.
Proof.
  intros Hren world'. split; [|by repeat split].
  revert Hren. unfold Reopen, os_Rename, bind, get, modify, ret.
  rewrite next_fault_eq. fold world'.
  destruct (default Proceed (head (faults world))) as [|e' n]; simpl.
  - destruct (dir world !! absPath w) eqn:Hd; simpl; [discriminate|].
    intros [= <-]. reflexivity.
  - intros [= <-]. reflexivity.
Qed.

(** ** The retention channel is set by the constructor only *)

Section RetentionChannel.
Context `{Env}.

Lemma Reopen_fields (w : Writer) (f : string) (world : World) :
  let w' := snd (fst (Reopen w f world)) in
  fileCh w' = fileCh w /\ cf w' = cf w /\ absPath w' = absPath w /\
  fire w' = fire w /\ rollingfilelist w' = rollingfilelist w.
Proof. unfold Reopen, go. run_all; repeat split. Qed.

Lemma Reopen_fileCh (w : Writer) (f : string) (offers : list string) (world : World) :
  fileCh (snd (fst (Reopen (set_fire offers w) f world))) = fileCh w.
Proof. apply (Reopen_fields (set_fire offers w)). Qed.

Lemma Write_fileCh (pick : bool) (rw : RollingWriter) (b : bytes) (world : World) :
  fileCh (base (snd (fst (Write pick rw b world)))) = fileCh (base rw).
Proof.
  destruct rw as [w|[w]|w|w]; simpl.
  - unfold Writer_Write.
    destruct (fire w) as [|d offers]; [run_all; reflexivity|].
    pose proof (Reopen_fileCh w d offers world) as HR. run_all; exact HR.
  - unfold LockedWriter_Write; simpl.
    destruct (fire w) as [|d offers]; [run_all; reflexivity|].
    pose proof (Reopen_fileCh w d offers world) as HR. run_all; exact HR.
  - unfold AsynchronousWriter_Write.
    destruct (closed w =? 0)%Z; [|reflexivity].
    destruct (fire (aw_Writer w)) as [|d offers].
    + unfold pool_Get. run_all; reflexivity.
    + pose proof (Reopen_fileCh (aw_Writer w) d offers world) as HR.
      unfold pool_Put. run_all; first [exact HR | reflexivity].
  - unfold BufferWriter_Write.
    destruct (fire (bw_Writer w)) as [|d offers]; [run_all; reflexivity|].
    pose proof (Reopen_fileCh (bw_Writer w) d offers world) as HR. run_all; exact HR.
Qed.

Lemma exec_fileCh (a : action) (rw : RollingWriter) (world : World) :
  fileCh (base (snd (fst (exec a rw world)))) = fileCh (base rw).
Proof.
  destruct a; simpl.
  - apply Write_fileCh.
  - destruct rw as [w|[w]|w|w]; simpl; unfold AsynchronousWriter_Close, onClose;
      run_all; reflexivity.
  - destruct rw as [w|[w]|w|w]; reflexivity.
  - run_all; reflexivity.
  - unfold AutoRemove. destruct rw as [w|[w]|w|w]; run_all; reflexivity.
  - destruct rw as [w|[w]|w|w]; try reflexivity.
    unfold writer, writer_chunk. run_all; reflexivity.
  - destruct rw as [w|[w]|w|w]; run_all; reflexivity.
Qed.

Lemma run_fileCh (l : list action) (rw : RollingWriter) (world : World) :
  fileCh (base (snd (fst (run l rw world)))) = fileCh (base rw).
Proof.
  revert rw world. induction l as [|a l IH]; intros rw world; [reflexivity|].
  simpl. unfold bind.
  pose proof (exec_fileCh a rw world) as Ha.
  destruct (exec a rw world) as [[r rw1] world1]. simpl in Ha.
  pose proof (IH rw1 world1) as Hl.
  destruct (run l rw1 world1) as [[rs rw2] world2]. simpl in *. congruence.
Qed.
(** C10. A writer returned by NewWriterFromConfig has a nil fileCh in modes
    "none", "async" and "buffer" and a made one exactly in mode "lock", and
    no run of the writer changes the field. *)
Theorem fileCh_nil_unless_lock (c : Config) (world world' : World) (rw : RollingWriter) :
  NewWriterFromConfig c world = (Returns (inl rw), world') ->
  (WriterMode c = "none" \/ WriterMode c = "async" \/ WriterMode c = "buffer" ->
   fileCh (base rw) = Nil) /\
  (fileCh (base rw) = Made <-> WriterMode c = "lock") /\
  (forall l : list action, fileCh (base (snd (fst (run l rw world')))) = fileCh (base rw)).
Proof.
  intros Hnew. split; [|split]; [| |intros l; apply run_fileCh].
  - revert Hnew. unfold NewWriterFromConfig. intros Hnew [Hm|[Hm|Hm]]; rewrite Hm in Hnew;
      revert Hnew; run_all; intros; simplify_eq; reflexivity.
  - revert Hnew. unfold NewWriterFromConfig. run_all; intros; simplify_eq; simpl;
      split; congruence.
Qed.
End RetentionChannel.

(** ** A closed asynchronous writer stays closed *)

Section ClosedSink.
Context `{Env}.

Lemma closed_exec (a : action) (rw : RollingWriter) (world : World) :
  is_closed rw -> is_closed (snd (fst (exec a rw world))).
Proof.
  destruct rw as [w|[w]|w|w]; simpl; try tauto. intros Hc.
  apply Z.eqb_neq in Hc as Hc'.
  destruct a; simpl; unfold AsynchronousWriter_Write, AsynchronousWriter_Close,
    AutoRemove, writer, writer_chunk; rewrite ?Hc'; run_all; try exact Hc.
Qed.

Lemma closed_run (l : list action) (rw : RollingWriter) (world : World) :
  is_closed rw -> is_closed (snd (fst (run l rw world))).
Proof.
  revert rw world. induction l as [|a l IH]; intros rw world Hc; [exact Hc|].
  simpl. unfold bind.
  pose proof (closed_exec a rw world Hc) as Ha.
  destruct (exec a rw world) as [[r rw1] world1]. simpl in Ha.
  pose proof (IH rw1 world1 Ha) as Hl.
  destruct (run l rw1 world1) as [[rs rw2] world2]. exact Hl.
Qed.

(** C6. Once Close was called on an asynchronous writer, then after any
    further run every Write returns (0, ErrClosed) and every Close returns
    ErrClosed, both leaving the writer, its queue and the world as they
    are. *)
Theorem closed_sink (w w1 : AsynchronousWriter) (world world1 : World) (err : goerr) :
  AsynchronousWriter_Close w world = (err, w1, world1) ->
  forall (l : list action) (rs : list result) (rw2 : RollingWriter) (world2 : World),
    run l (RW_AsynchronousWriter w1) world1 = (rs, rw2, world2) ->
    (forall b pick,
        exec (A_Write b pick) rw2 world2 = (R_Write 0 (Some ErrClosed), rw2, world2)) /\
    exec A_Close rw2 world2 = (R_Close (Some ErrClosed), rw2, world2).
Proof.
  intros Hclose l rs rw2 world2 Hrun.
  assert (Hc1 : is_closed (RW_AsynchronousWriter w1)).
  { revert Hclose. unfold AsynchronousWriter_Close, onClose. simpl.
    destruct (closed w =? 0)%Z eqn:Hc.
    - run_all. intros [= <- <- <-]. simpl. discriminate.
    - intros [= <- <- <-]. by apply Z.eqb_neq. }
  pose proof (closed_run l _ world1 Hc1) as Hc2. rewrite Hrun in Hc2. simpl in Hc2.
  destruct rw2 as [?|?|w2|?]; simpl in Hc2; try tauto.
  apply Z.eqb_neq in Hc2.
  split; [intros b pick|]; simpl; unfold AsynchronousWriter_Write, AsynchronousWriter_Close;
    rewrite Hc2; reflexivity.
Qed.
End ClosedSink.

(** ** The fast path of the asynchronous writer, and a failed copy *)

Section FastPath.
Context `{Env}.

Lemma fast_path_chunk (pick : bool) (w : AsynchronousWriter) (b : bytes) (world : World) :
  closed w = 0 -> fire (aw_Writer w) = [] ->
  (forall e held, worker world <> W_send e held) ->
  (length (queue w) < QueueSize)%nat ->
  AsynchronousWriter_Write pick w b world =
    (Returns (Z.of_nat (length b), None),
     set_queue (queue w ++ [take (length b) (fst (pool_Get world) ++ b)]) w,
     snd (pool_Get world)).
Proof.
  intros Hc Hf Hw Hq. unfold AsynchronousWriter_Write. rewrite Hc, Hf. simpl.
  unfold bind, get, ret.
  destruct (worker world) eqn:Hwk; try (by exfalso; eapply Hw);
    destruct (pool_Get world) as [pb world']; simpl;
    destruct (decide _); try lia; reflexivity.
Qed.

(** C4, where the code departs from the claim. On the fast path of
    AsynchronousWriter.Write, with room in the queue and no buffer in the
    pool, a Write of b no longer than BufferSize returns (len(b), nil), but
    the chunk it enqueues is len(b) zero bytes: the start of the pooled
    buffer, not the bytes of b. *)
Theorem fast_path_fresh_pool (pick : bool) (w : AsynchronousWriter) (b : bytes)
    (world : World) :
  closed w = 0 -> fire (aw_Writer w) = [] ->
  (forall e held, worker world <> W_send e held) ->
  (length (queue w) < QueueSize)%nat ->
  pool world = [] -> (length b <= BufferSize)%nat ->
  AsynchronousWriter_Write pick w b world =
    (Returns (Z.of_nat (length b), None),
     set_queue (queue w ++ [replicate (length b) x00]) w, world).
Proof.
  intros Hc Hf Hw Hq Hp Hb. rewrite fast_path_chunk by assumption.
  unfold pool_Get. rewrite Hp. simpl.
  rewrite take_app_le by (by rewrite length_replicate).
  rewrite take_replicate. by rewrite Nat.min_l.
Qed.

(** C7, where the code departs from the claim. When the copy into the gzip
    writer fails, CompressFile returns what os.Remove of the compressed file
    returned, whatever the error of the copy was: nil when the removal
    succeeds. *)
Theorem CompressFile_copy_fails (w : Writer) (oldfile cmpfile : nat) (cmpname : string)
    (world world1 world2 world3 : World) (gw : gzipWriter) (e : error) :
  os_OpenFile cmpname world = (inl cmpfile, world1) ->
  file_Seek0 oldfile world1 = (None, world2) ->
  io_Copy (gzip_NewWriter cmpfile) oldfile world2 = (gw, Some e, world3) ->
  fst (CompressFile w oldfile cmpname world) = fst (os_Remove cmpname world3).
Proof.
  intros Hopen Hseek Hcopy. unfold CompressFile, bind. rewrite Hopen, Hseek, Hcopy.
  destruct (os_Remove cmpname world3) as [errR world4]. simpl.
  destruct (gzip_Close gw world4) as [? world5].
  destruct (file_Close cmpfile world5). reflexivity.
Qed.
End FastPath.

(** ** System calls that are let through *)

Lemma next_fault_proceed (world : World) :
  default Proceed (head (faults world)) = Proceed ->
  next_fault world = (Proceed, set_faults (tail (faults world)) world).
Proof. intros Hp. by rewrite next_fault_eq, Hp. Qed.

Lemma file_Write_proceed (h i p : nat) (b : bytes) (world : World) :
  default Proceed (head (faults world)) = Proceed ->
  handles world !! h = Some (mkFile i false p) ->
  file_Write h b world =
    (Z.of_nat (length b), None,
     set_handles (<[h := mkFile i false (length (contents world i ++ b))]> (handles world))
       (set_disk (<[i := contents world i ++ b]> (disk world))
          (set_faults (tail (faults world)) world))).
Proof.
  intros Hp Hh. unfold file_Write, bind, get, modify, ret.
  rewrite next_fault_proceed by done. simpl. rewrite Hh.
  by rewrite firstn_all.
Qed.

Lemma onClose_loop_proceed (f i : nat) (q : list bytes) :
  forall (world : World) (p : nat),
    handles world !! f = Some (mkFile i false p) ->
    (i < length (disk world))%nat ->
    Forall (eq Proceed) (take (length q) (faults world)) ->
    exists (world1 : World) (p1 : nat),
      onClose_loop f q world = ([], world1) /\
      contents world1 i = contents world i ++ concat q /\
      handles world1 !! f = Some (mkFile i false p1).
Proof.
  induction q as [|b q IH]; intros world p Hh Hi Hf.
  - exists world, p. simpl. by rewrite app_nil_r.
  - simpl. unfold bind.
    assert (Hp : default Proceed (head (faults world)) = Proceed).
    { destruct (faults world) as [|x fs]; [done|]. simpl in *. by inversion Hf. }
    rewrite (file_Write_proceed f i p) by done. simpl.
    set (world' := set_handles _ _).
    destruct (IH (set_pool (b :: pool world') world') (length (contents world i ++ b)))
      as (world1 & p1 & Hloop & Hc & Hh1).
    + simpl. apply list_lookup_insert_eq. by eapply lookup_lt_Some.
    + simpl. by rewrite length_insert.
    + simpl. destruct (faults world) as [|x fs]; simpl in *; [by rewrite take_nil|].
      by inversion Hf.
    + exists world1, p1. unfold pool_Put, modify. simpl. split; [exact Hloop|].
      split; [|done]. rewrite Hc. unfold contents at 1. simpl.
      rewrite list_lookup_insert_eq by done. simpl. by rewrite <- app_assoc.
Qed.



(** ** Worlds without injected failures *)

Lemma nf_next_fault (world : World) :
  faults world = [] -> next_fault world = (Proceed, world).
Proof. unfold next_fault. by intros ->. Qed.

Lemma nf_file_Write (h i p : nat) (b : bytes) (world : World) :
  faults world = [] ->
  handles world !! h = Some (mkFile i false p) ->
  file_Write h b world =
    (Z.of_nat (length b), None,
     set_handles (<[h := mkFile i false (length (contents world i ++ b))]> (handles world))
       (set_disk (<[i := contents world i ++ b]> (disk world)) world)).
Proof.
  intros Hf Hh. unfold file_Write, bind, get, modify, ret.
  rewrite nf_next_fault by done. rewrite Hh. simpl. by rewrite firstn_all.
Qed.

Lemma nf_file_Close (h i p : nat) (world : World) :
  faults world = [] ->
  handles world !! h = Some (mkFile i false p) ->
  file_Close h world = (None, set_handles (<[h := mkFile i true p]> (handles world)) world).
Proof.
  intros Hf Hh. unfold file_Close, bind, get, modify, ret.
  rewrite nf_next_fault by done. by rewrite Hh.
Qed.

Section Buffered.
Context `{Env}.

Lemma BufferWriter_Write_inv (w : BufferWriter) (world : World) (i : nat) (b : bytes) :
  buffered_inv w world i ->
  exists (w' : BufferWriter) (world' : World),
    BufferWriter_Write w b world = (Returns (Z.of_nat (length b), None), w', world') /\
    buffered_inv w' world' i /\
    bw_Writer w' = bw_Writer w /\ dir world' = dir world /\
    contents world' i ++ buf w' = contents world i ++ buf w ++ b.
Proof.
  intros [Hfire Hsw Hmk [p Hopen] Hi Hf].
  unfold BufferWriter_Write. rewrite Hfire, Hsw, Hmk. simpl.
  destruct (Z.of_nat (length (buf w ++ b)) >? _)%Z; simpl.
  - unfold bind, ret. rewrite (nf_file_Write _ i p) by done. simpl.
    eexists _, _. split; [reflexivity|]. split; [|split; [reflexivity|split; [reflexivity|]]].
    + split; simpl; try done.
      * eexists. apply list_lookup_insert_eq. by eapply lookup_lt_Some.
      * by rewrite length_insert.
    + simpl. unfold contents at 1. simpl. rewrite list_lookup_insert_eq by done.
      simpl. by rewrite app_nil_r, app_assoc.
  - eexists _, _. split; [reflexivity|]. split; [|split; [reflexivity|split; [reflexivity|]]].
    + split; simpl; try done. by exists p.
    + simpl. by rewrite app_assoc.
Qed.

Lemma run_cons (a : action) (l : list action) (rw : RollingWriter) (world : World) :
  run (a :: l) rw world =
    let '(r, rw1, world1) := exec a rw world in
    let '(rs, rw2, world2) := run l rw1 world1 in
    (r :: rs, rw2, world2).
Proof.
  simpl. unfold bind, ret. destruct (exec a rw world) as [[r rw1] world1].
  destruct (run l rw1 world1) as [[rs rw2] world2]. reflexivity.
Qed.

Lemma BufferWriter_run_inv (pick : bool) (bs : list bytes) :
  forall (w : BufferWriter) (world : World) (i : nat),
    buffered_inv w world i ->
    exists (w' : BufferWriter) (world' : World),
      run (writes pick bs ++ [A_Close]) (RW_BufferWriter w) world =
        (written bs ++ [R_Close None], RW_BufferWriter w', world') /\
      contents world' i = contents world i ++ buf w ++ concat bs /\
      dir world' = dir world /\
      exists p, handles world' !! file (bw_Writer w) = Some (mkFile i true p).
Proof.
  induction bs as [|b bs IH]; intros w world i Hinv.
  - destruct Hinv as [Hfire Hsw Hmk [p Hopen] Hi Hf].
    simpl. unfold bind, ret, BufferWriter_Close, bind.
    rewrite (nf_file_Write _ i p) by done.
    erewrite nf_file_Close; [|done|simpl; apply list_lookup_insert_eq; by eapply lookup_lt_Some].
    simpl. eexists _, _. split; [reflexivity|]. split.
    + unfold contents at 1. simpl. rewrite list_lookup_insert_eq by done.
      simpl. by rewrite app_nil_r.
    + split; [reflexivity|]. eexists. simpl. apply list_lookup_insert_eq.
      rewrite length_insert. by eapply lookup_lt_Some.
  - destruct (BufferWriter_Write_inv w world i b Hinv)
      as (w1 & world1 & Hw & Hinv1 & Hb & Hd & Hc).
    destruct (IH w1 world1 i Hinv1) as (w2 & world2 & Hrun & Hc2 & Hd2 & Hcl).
    change (writes pick (b :: bs) ++ [A_Close])
      with (A_Write b pick :: (writes pick bs ++ [A_Close])).
    rewrite run_cons.
    assert (He : exec (A_Write b pick) (RW_BufferWriter w) world =
                 (R_Write (Z.of_nat (length b)) None, RW_BufferWriter w1, world1)).
    { simpl. unfold bind, ret. by rewrite Hw. }
    rewrite He, Hrun.
    eexists _, _. split; [reflexivity|]. split.
    + rewrite Hc2. rewrite app_assoc, Hc. by rewrite <- !app_assoc.
    + split; [congruence|]. by rewrite <- Hb.
Qed.

(** C9. A buffered writer made by NewWriterFromConfig in a world without
    failures, written to by one caller with no rotation trigger and then
    closed: every Write returns (len(b), nil), Close returns nil, and the
    file holds what it held when it was opened followed by the concatenation
    of the writes in call order; a file that did not exist before holds
    exactly that concatenation. *)
Theorem buffered_final_contents (c : Config) (world world1 : World) (rw : RollingWriter)
    (pick : bool) (bs : list bytes) :
  faults world = [] ->
  (forall path i, dir world !! path = Some i -> (i < length (disk world))%nat) ->
  WriterMode c = "buffer" ->
  NewWriterFromConfig c world = (Returns (inl rw), world1) ->
  exists (i : nat) (rw2 : RollingWriter) (world2 : World),
    dir world1 !! LogFilePath c = Some i /\
    run (writes pick bs ++ [A_Close]) rw world1 = (written bs ++ [R_Close None], rw2, world2) /\
    dir world2 !! LogFilePath c = Some i /\
    contents world2 i = contents world1 i ++ concat bs /\
    (dir world !! LogFilePath c = None -> contents world2 i = concat bs).
Proof.
  intros Hf Hwf Hmode Hnew.
  assert (Hinv : exists w i, rw = RW_BufferWriter w /\ buf w = [] /\
            buffered_inv w world1 i /\ dir world1 !! LogFilePath c = Some i /\
            (dir world !! LogFilePath c = None -> contents world1 i = [])).
  { revert Hnew. unfold NewWriterFromConfig, os_MkdirAll, os_OpenFile. rewrite Hmode.
    destruct (decide _); [intros; simplify_eq|].
    unfold bind, get, modify, ret. repeat (rewrite nf_next_fault by done; simpl).
    destruct (dir world !! LogFilePath c) as [i|] eqn:Hd; simpl;
      (destruct (_ && _); [intros; simplify_eq|]);
      (destruct (NewManager c); [intros; simplify_eq|]); simpl;
      destruct (makeslice_ok 1 _) eqn:Hmk; intros; simplify_eq.
    - eexists _, i. split; [reflexivity|]. split; [reflexivity|]. split; [|by split].
      split; simpl; try done.
      + eexists. by apply list_lookup_middle.
      + by eapply Hwf.
    - eexists _, (length (disk world)). split; [reflexivity|]. split; [reflexivity|].
      split; [|split].
      + split; simpl; try done.
        * eexists. by apply list_lookup_middle.
        * rewrite length_app. simpl. lia.
      + simpl. apply lookup_insert_eq.
      + intros _. unfold contents. simpl. by rewrite list_lookup_middle. }
  destruct Hinv as (w & i & -> & Hbuf & Hinv & Hdir & Hnew').
  destruct (BufferWriter_run_inv pick bs w world1 i Hinv)
    as (w2 & world2 & Hrun & Hc & Hd & _).
  exists i, (RW_BufferWriter w2), world2. rewrite Hbuf in Hc. simpl in Hc.
  repeat split; try done.
  - by rewrite Hd.
  - intros Hnone. by rewrite Hc, (Hnew' Hnone).
Qed.
End Buffered.

Lemma string_length_append (s t : string) :
  String.length (s +:+ t) = (String.length s + String.length t)%nat.
Proof. induction s as [|a s IH]; simpl; [done|]. by rewrite IH. Qed.

Lemma tmp_name_fresh (s : string) : s <> s +:+ ".tmp".
Proof.
  intros Heq. apply (f_equal String.length) in Heq.
  rewrite string_length_append in Heq. simpl in Heq. lia.
Qed.

Lemma nf_os_Rename (old new : string) (i : nat) (world : World) :
  faults world = [] -> dir world !! old = Some i ->
  os_Rename old new world = (None, set_dir (<[new := i]> (delete old (dir world))) world).
Proof.
  intros Hf Hd. unfold os_Rename, bind, get, modify, ret.
  rewrite nf_next_fault by done. by rewrite Hd.
Qed.

Lemma nf_os_Remove (name : string) (i : nat) (world : World) :
  faults world = [] -> dir world !! name = Some i ->
  os_Remove name world = (None, set_dir (delete name (dir world)) world).
Proof.
  intros Hf Hd. unfold os_Remove, bind, get, modify, ret.
  rewrite nf_next_fault by done. by rewrite Hd.
Qed.

Lemma nf_os_OpenFile_new (name : string) (world : World) :
  faults world = [] -> dir world !! name = None ->
  os_OpenFile name world =
    (inl (length (handles world)),
     set_handles (handles world ++ [mkFile (length (disk world)) false 0])
       (set_disk (disk world ++ [[]])
          (set_dir (<[name := length (disk world)]> (dir world)) world))).
Proof.
  intros Hf Hd. unfold os_OpenFile, bind, get, modify, ret.
  rewrite nf_next_fault by done. by rewrite Hd.
Qed.

Lemma nf_os_OpenFile_old (name : string) (i : nat) (world : World) :
  faults world = [] -> dir world !! name = Some i ->
  os_OpenFile name world =
    (inl (length (handles world)),
     set_handles (handles world ++ [mkFile i false 0]) world).
Proof.
  intros Hf Hd. unfold os_OpenFile, bind, get, modify, ret.
  rewrite nf_next_fault by done. by rewrite Hd.
Qed.

Lemma nf_file_Seek0 (h i p : nat) (world : World) :
  faults world = [] -> handles world !! h = Some (mkFile i false p) ->
  file_Seek0 h world = (None, set_handles (<[h := mkFile i false 0]> (handles world)) world).
Proof.
  intros Hf Hh. unfold file_Seek0, bind, get, modify, ret.
  rewrite nf_next_fault by done. by rewrite Hh.
Qed.

Lemma nf_file_ReadAll (h i p : nat) (world : World) :
  faults world = [] -> handles world !! h = Some (mkFile i false p) ->
  file_ReadAll h world =
    (drop p (contents world i), None,
     set_handles (<[h := mkFile i false (length (contents world i))]> (handles world)) world).
Proof.
  intros Hf Hh. unfold file_ReadAll, bind, get, modify, ret.
  rewrite nf_next_fault by done. by rewrite Hh.
Qed.

Lemma take_length_take {A} (n : nat) (l : list A) :
  take (length (take n l)) l = take n l.
Proof.
  rewrite length_take. destruct (Nat.le_ge_cases n (length l)).
  - by rewrite Nat.min_l.
  - rewrite Nat.min_r by done. by rewrite !take_ge.
Qed.

Section Compression.
Context `{Env}.

Lemma nf_gzip_flush (z : gzipWriter) (upto k p : nat) (world : World) :
  faults world = [] -> gz_err z = None ->
  handles world !! gz_dst z = Some (mkFile k false p) ->
  (k < length (disk world))%nat ->
  let out := drop (gz_sent z) (take upto (gz_encode (gz_src z))) in
  exists (world' : World) (p' : nat),
    gzip_flush z upto world =
      (mkGzip (gz_dst z) (gz_src z) (gz_sent z + length out) None, world') /\
    frame world world' /\
    handles world' !! gz_dst z = Some (mkFile k false p') /\
    (forall h, h <> gz_dst z -> handles world' !! h = handles world !! h) /\
    contents world' k = contents world k ++ out /\
    (forall i, i <> k -> contents world' i = contents world i).
Proof.
  intros Hf He Hh Hk out. unfold gzip_flush. rewrite He. fold out.
  destruct out as [|x out'] eqn:Hout.
  - exists world, p. repeat split; try done.
    + destruct z; simpl in *; subst. by rewrite Nat.add_0_r.
    + by rewrite app_nil_r.
  - unfold bind, ret. rewrite (nf_file_Write _ k p) by done. simpl.
    eexists _, _. split; [rewrite Nat2Z.id; reflexivity|].
    repeat split; simpl; try done.
    + by rewrite length_insert.
    + by rewrite length_insert.
    + apply list_lookup_insert_eq. by eapply lookup_lt_Some.
    + intros h Hne. by apply list_lookup_insert_ne.
    + unfold contents at 1. simpl. by rewrite list_lookup_insert_eq.
    + intros i Hne. unfold contents. simpl. by rewrite list_lookup_insert_ne.
Qed.

Lemma frame_refl (world : World) : frame world world.
Proof. by split. Qed.

Lemma frame_trans (w1 w2 w3 : World) : frame w1 w2 -> frame w2 w3 -> frame w1 w3.
Proof. intros [] []. split; congruence. Qed.

Lemma nf_io_Copy (cmpfile oldfile i k pk : nat) (world : World) :
  faults world = [] ->
  handles world !! oldfile = Some (mkFile i false 0) ->
  handles world !! cmpfile = Some (mkFile k false pk) ->
  oldfile <> cmpfile -> i <> k -> (k < length (disk world))%nat ->
  contents world k = [] ->
  exists (world' : World) (s p' : nat),
    io_Copy (gzip_NewWriter cmpfile) oldfile world =
      (mkGzip cmpfile (contents world i) s None, None, world') /\
    frame world world' /\
    contents world' k = take s (gz_encode (contents world i)) /\
    handles world' !! cmpfile = Some (mkFile k false p') /\
    (exists q, handles world' !! oldfile = Some (mkFile i false q)) /\
    (forall h, h <> oldfile -> h <> cmpfile -> handles world' !! h = handles world !! h).
Proof.
  intros Hf Ho Hc Hne Hik Hk Hempty. unfold io_Copy, bind, ret.
  rewrite (nf_file_ReadAll _ i 0) by done. simpl. rewrite drop_0.
  set (world1 := set_handles _ world).
  assert (Hc1 : handles world1 !! cmpfile = Some (mkFile k false pk)).
  { simpl. by rewrite list_lookup_insert_ne. }
  assert (Hfr1 : frame world world1).
  { split; simpl; try done. by rewrite length_insert. }
  assert (Hoth1 : forall h, h <> oldfile -> handles world1 !! h = handles world !! h).
  { intros h Hh. simpl. by rewrite list_lookup_insert_ne. }
  assert (Ho1 : exists q, handles world1 !! oldfile = Some (mkFile i false q)).
  { eexists. simpl. apply list_lookup_insert_eq. by eapply lookup_lt_Some. }
  destruct (contents world i) as [|x data] eqn:Hdata.
  - exists world1, 0%nat, pk. repeat split; try done; try apply Hfr1.
    intros h Hh _. by apply Hoth1.
  - unfold gzip_Write, gzip_NewWriter, bind, ret. simpl.
    destruct (nf_gzip_flush (mkGzip cmpfile (x :: data) 0 None) (gz_early (x :: data))
                k pk world1) as (world2 & p' & Hfl & Hfr2 & Hc2 & Hoth2 & Hk2 & _);
      try done.
    simpl in Hfl. rewrite Hfl. simpl.
    eexists world2, _, p'. split; [reflexivity|].
    split; [by eapply frame_trans|].
    split; [|split; [done|split;
      [by rewrite Hoth2 by done|intros h Hh1 Hh2; rewrite Hoth2 by done; by apply Hoth1]]].
    rewrite Hk2. simpl. change (contents world1 k) with (contents world k).
    rewrite Hempty. simpl. rewrite drop_0. symmetry. apply take_length_take.
Qed.

Lemma nf_CompressFile (w : Writer) (oldfile : nat) (cmpname : string)
    (i p j : nat) (world : World) :
  faults world = [] ->
  dir world !! cmpname = None ->
  dir world !! (cmpname +:+ ".tmp") = Some j ->
  handles world !! oldfile = Some (mkFile i false p) ->
  (i < length (disk world))%nat ->
  exists world' : World,
    CompressFile w oldfile cmpname world = (None, world') /\
    faults world' = [] /\ logs world' = logs world /\
    spawned world' = spawned world /\ autoRemove world' = autoRemove world /\
    dir world' = delete (cmpname +:+ ".tmp") (<[cmpname := length (disk world)]> (dir world)) /\
    contents world' (length (disk world)) = gz_encode (contents world i) /\
    length (disk world') = S (length (disk world)) /\
    (exists p', handles world' !! oldfile = Some (mkFile i false p')) /\
    (forall h, h <> oldfile -> (h < length (handles world))%nat ->
               handles world' !! h = handles world !! h).
Proof.
  intros Hf Hcmp Htmp Hold Hi. unfold CompressFile, bind, ret.
  rewrite nf_os_OpenFile_new by done.
  set (k := length (disk world)). set (cmpfile := length (handles world)).
  set (world1 := set_handles _ _).
  assert (Hlt : (oldfile < cmpfile)%nat) by (by eapply lookup_lt_Some).
  assert (Hold1 : handles world1 !! oldfile = Some (mkFile i false p)).
  { simpl. by rewrite lookup_app_l. }
  rewrite (nf_file_Seek0 _ i p) by done.
  set (world2 := set_handles _ world1).
  assert (Hi1 : contents world2 i = contents world i).
  { unfold contents. simpl. by rewrite lookup_app_l. }
  destruct (nf_io_Copy cmpfile oldfile i k 0 world2)
    as (world3 & s' & p3 & Hcopy & Hfr3 & Hk3 & Hc3 & [q3 Ho3] & Hoth3); try done.
  { simpl. apply list_lookup_insert_eq. rewrite length_app. simpl. lia. }
  { simpl. rewrite list_lookup_insert_ne by lia. by apply list_lookup_middle. }
  { lia. }
  { unfold k. lia. }
  { simpl. rewrite length_app. simpl. unfold k. lia. }
  { unfold contents. simpl. by rewrite list_lookup_middle. }
  rewrite Hcopy. destruct Hfr3 as [Hf3 Hd3 Hl3 Hs3 Ha3 Hdk3 Hh3].
  rewrite (nf_os_Remove _ j).
  2:{ by rewrite Hf3. }
  2:{ rewrite Hd3. simpl. rewrite lookup_insert_ne; [done|apply tmp_name_fresh]. }
  set (world4 := set_dir _ world3).
  destruct (nf_gzip_flush (mkGzip cmpfile (contents world2 i) s' None)
              (length (gz_encode (contents world2 i))) k p3 world4)
    as (world5 & p5 & Hfl & Hfr5 & Hc5 & Hoth5 & Hk5 & _); try done.
  { simpl. by rewrite Hf3. }
  { simpl. rewrite Hdk3. simpl. rewrite length_app. simpl. unfold k. lia. }
  unfold gzip_Close, bind, ret. simpl in Hfl. simpl. rewrite Hfl. simpl.
  destruct Hfr5 as [Hf5 Hd5 Hl5 Hs5 Ha5 Hdk5 Hh5].
  rewrite (nf_file_Close _ k p5); [|by rewrite Hf5; simpl; rewrite Hf3|done].
  assert (Henc : contents world5 k = gz_encode (contents world i)).
  { rewrite Hk5. simpl. change (contents world4 k) with (contents world3 k).
    rewrite Hk3. rewrite firstn_all. rewrite take_drop. by rewrite Hi1. }
  eexists. split; [reflexivity|]. simpl.
  rewrite Hf5, Hl5, Hs5, Ha5, Hd5. simpl. rewrite Hf3, Hl3, Hs3, Ha3, Hd3. simpl.
  repeat split; try done.
  - rewrite Hdk5. simpl. rewrite Hdk3. simpl. rewrite length_app. simpl. lia.
  - exists q3. rewrite list_lookup_insert_ne by lia. rewrite Hoth5 by (simpl; lia). exact Ho3.
  - intros h Hne Hlt'. rewrite list_lookup_insert_ne by (fold cmpfile in Hlt'; lia).
    rewrite Hoth5 by (simpl; fold cmpfile in Hlt'; lia). simpl.
    rewrite Hoth3 by (try done; fold cmpfile in Hlt'; lia). simpl.
    rewrite list_lookup_insert_ne by done. by rewrite lookup_app_l.
Qed.

(** C8. With compression enabled and no failing system call, after Reopen
    and the completion it starts, the file at the destination decodes to the
    bytes the rotated-out file held when Reopen was called and the ".tmp"
    file is gone; nothing was logged and the completion has reached its
    send. *)
Theorem compression_roundtrip (w : Writer) (file' : string) (world : World) (i p j : nat) :
  (forall x, gz_decode (gz_encode x) = Some x) ->
  Compress (cf w) = true ->
  faults world = [] ->
  dir world !! absPath w = Some j ->
  handles world !! file w = Some (mkFile i false p) ->
  (i < length (disk world))%nat ->
  exists (w1 : Writer) (world1 world2 : World) (k : nat),
    Reopen w file' world = (None, w1, world1) /\
    completion w1 (file w) file' world1 = (G_send (file w) file', world2) /\
    logs world2 = logs world /\
    dir world2 !! file' = Some k /\
    gz_decode (contents world2 k) = Some (contents world i) /\
    dir world2 !! (file' +:+ ".tmp") = None.
Proof.
  intros Hrt Hcmp Hf Hd Hh Hi.
  assert (Hre : exists w1 world1,
    Reopen w file' world = (None, w1, world1) /\ cf w1 = cf w /\
    faults world1 = [] /\ logs world1 = logs world /\
    dir world1 !! file' = Some j /\
    handles world1 !! file w = Some (mkFile i false p) /\
    (i < length (disk world1))%nat /\ contents world1 i = contents world i).
  { unfold Reopen, go, bind, ret, modify. rewrite (nf_os_Rename _ _ j) by done.
    destruct (decide (file' = absPath w)) as [->|Hne].
    - rewrite (nf_os_OpenFile_old _ j); [|done|simpl; by rewrite lookup_insert_eq].
      eexists _, _. split; [reflexivity|]. simpl. repeat split; try done.
      + by rewrite lookup_insert_eq.
      + by rewrite lookup_app_l by (by eapply lookup_lt_Some).
    - rewrite nf_os_OpenFile_new;
        [|done|simpl; rewrite lookup_insert_ne by done; by rewrite lookup_delete_eq].
      eexists _, _. split; [reflexivity|]. simpl. repeat split; try done.
      + rewrite lookup_insert_ne by done. by rewrite lookup_insert_eq.
      + by rewrite lookup_app_l by (by eapply lookup_lt_Some).
      + rewrite length_app. lia.
      + unfold contents. simpl. by rewrite lookup_app_l. }
  destruct Hre as (w1 & world1 & HR & Hcf & Hf1 & Hl1 & Hd1 & Hh1 & Hi1 & Hc1).
  exists w1, world1. unfold completion. rewrite Hcf, Hcmp. unfold bind, ret.
  rewrite (nf_os_Rename _ _ j) by done.
  set (world1' := set_dir _ world1).
  destruct (nf_CompressFile w1 (file w) file' i p j world1')
    as (world2 & HC & Hf2 & Hl2 & _ & _ & Hd2 & Hk2 & _); try done.
  { simpl. rewrite lookup_insert_ne by (symmetry; apply tmp_name_fresh).
    by rewrite lookup_delete_eq. }
  { simpl. by rewrite lookup_insert_eq. }
  rewrite HC. exists world2, (length (disk world1')).
  repeat split; try done.
  - by rewrite Hl2.
  - rewrite Hd2. rewrite lookup_delete_ne by (symmetry; apply tmp_name_fresh).
    by rewrite lookup_insert_eq.
  - rewrite Hk2. rewrite Hrt. by rewrite <- Hc1.
  - rewrite Hd2. by rewrite lookup_delete_eq.
Qed.
End Compression.

(** ** Retention *)

Lemma elem_of_take_l {A} (x : A) (n : nat) (l : list A) : x ∈ take n l -> x ∈ l.
Proof. intros Hx. rewrite <- (take_drop n l). apply elem_of_app. by left. Qed.

Lemma elem_of_drop_l {A} (x : A) (n : nat) (l : list A) : x ∈ drop n l -> x ∈ l.
Proof. intros Hx. rewrite <- (take_drop n l). apply elem_of_app. by right. Qed.

Lemma NoDup_drop {A} (n : nat) (l : list A) : NoDup l -> NoDup (drop n l).
Proof. intros Hl. rewrite <- (take_drop n l) in Hl. by apply NoDup_app in Hl as (_ & _ & ?). Qed.

(** Membership in the evicted prefix, decided both ways. *)
Ltac decide_members :=
  repeat case_decide;
  first [done | rewrite ?elem_of_cons, ?elem_of_nil in *; intuition congruence].

Lemma AutoRemove_loop_evicts (k : Z) (l : list string) :
  forall world : World,
    (0 <= k)%Z -> faults world = [] -> NoDup l ->
    (forall x, x ∈ l -> is_Some (dir world !! x)) ->
    exists world' : World,
      AutoRemove_loop k l world = (drop (length l - Z.to_nat k) l, world') /\
      faults world' = [] /\ logs world' = logs world /\ disk world' = disk world /\
      handles world' = handles world /\ spawned world' = spawned world /\
      autoRemove world' = autoRemove world /\
      (forall x, dir world' !! x =
                 if decide (x ∈ take (length l - Z.to_nat k) l) then None
                 else dir world !! x).
Proof.
  induction l as [|d l IH]; intros world Hk Hf Hnd Hin.
  - exists world. simpl. repeat (split; [done|]).
    intros x. decide_members.
  - simpl AutoRemove_loop. simpl length.
    destruct ((k >=? 0)%Z && (Z.of_nat (S (length l)) >? k)%Z) eqn:Hcond.
    + apply andb_prop in Hcond as [_ Hgt]. apply Z.gtb_lt in Hgt.
      simpl length in *.
      destruct (Hin d) as [j Hj]; [by left|].
      unfold bind, ret. rewrite (nf_os_Remove _ j) by done.
      apply NoDup_cons in Hnd as [Hd Hnd].
      destruct (IH (set_dir (delete d (dir world)) world))
        as (world' & Hloop & Hf' & Hl' & Hdk' & Hh' & Hs' & Ha' & Hdir); try done.
      { intros x Hx. simpl. rewrite lookup_delete_ne by (intros ->; done).
        apply Hin. by right. }
      simpl. rewrite Hloop.
      replace (S (length l) - Z.to_nat k)%nat with (S (length l - Z.to_nat k)) by lia.
      simpl. exists world'. repeat (split; [done|]).
      intros x. rewrite Hdir. simpl.
      destruct (decide (x = d)) as [->|Hne].
      * rewrite lookup_delete_eq. decide_members.
      * rewrite lookup_delete_ne by done. decide_members.
    + exists world.
      assert (Hle : (S (length l) <= Z.to_nat k)%nat).
      { rewrite Z.geb_leb, Z.gtb_ltb in Hcond.
        apply andb_false_iff in Hcond as [Hc%Z.leb_gt|Hc%Z.ltb_ge]; lia. }
      replace (S (length l) - Z.to_nat k)%nat with 0%nat by lia.
      simpl. repeat (split; [done|]).
      intros x. decide_members.
Qed.

Lemma nf_Reopen (w : Writer) (d : string) (j : nat) (world : World) :
  faults world = [] -> dir world !! absPath w = Some j -> d <> absPath w ->
  Reopen w d world =
    (None, set_file (length (handles world)) w,
     set_spawned (spawned world ++ [G_completion (file w) d])
       (set_handles (handles world ++ [mkFile (length (disk world)) false 0])
          (set_disk (disk world ++ [[]])
             (set_dir (<[absPath w := length (disk world)]>
                         (<[d := j]> (delete (absPath w) (dir world)))) world)))).
Proof.
  intros Hf Hd Hne. unfold Reopen, go, bind, ret, modify.
  rewrite (nf_os_Rename _ _ j) by done.
  rewrite nf_os_OpenFile_new;
    [|done|simpl; rewrite lookup_insert_ne by done; by rewrite lookup_delete_eq].
  reflexivity.
Qed.

Lemma filter_all {A} (P : A -> Prop) `{!forall x, Decision (P x)} (l : list A) :
  (forall x, x ∈ l -> P x) -> filter P l = l.
Proof.
  induction l as [|a l IH]; intros Hall; [done|].
  rewrite filter_cons_True by (apply Hall; by left).
  f_equal. apply IH. intros x Hx. apply Hall. by right.
Qed.

Lemma filter_drop {A} (P : A -> Prop) `{!forall x, Decision (P x)} (l : list A) :
  forall n, NoDup l -> (forall x, x ∈ l -> P x <-> x ∈ drop n l) -> filter P l = drop n l.
Proof.
  induction l as [|a l IH]; intros n Hnd HP; [by rewrite drop_nil|].
  destruct n as [|n].
  - apply filter_all. intros x Hx. by apply HP.
  - apply NoDup_cons in Hnd as [Ha Hnd]. simpl.
    rewrite filter_cons_False.
    + apply IH; [done|]. intros x Hx. apply (HP x). by right.
    + intros HPa. apply (HP a) in HPa; [|by left]. simpl in HPa.
      by apply elem_of_drop_l in HPa.
Qed.

Section Retention.
Context `{Env}.

(** The completion of a rotation in a world without failures: it reaches
    its send, and of the directory it changes the entry of the rotated
    file and, when compressing, of the temporary file. *)
Lemma nf_completion (w : Writer) (oldfile : nat) (d : string) (i p j : nat) (world : World) :
  faults world = [] -> dir world !! d = Some j ->
  handles world !! oldfile = Some (mkFile i false p) ->
  (i < length (disk world))%nat ->
  exists world' : World,
    completion w oldfile d world = (G_send oldfile d, world') /\
    faults world' = [] /\ logs world' = logs world /\
    spawned world' = spawned world /\ autoRemove world' = autoRemove world /\
    (length (disk world) <= length (disk world'))%nat /\
    (exists p', handles world' !! oldfile = Some (mkFile i false p')) /\
    (forall h, h <> oldfile -> (h < length (handles world))%nat ->
               handles world' !! h = handles world !! h) /\
    is_Some (dir world' !! d) /\
    (forall x, x <> d -> (Compress (cf w) = true -> x <> d +:+ ".tmp") ->
               dir world' !! x = dir world !! x).
Proof.
  intros Hf Hd Hh Hi. unfold completion. destruct (Compress (cf w)).
  - unfold bind, ret. rewrite (nf_os_Rename _ _ j) by done.
    set (world1 := set_dir _ world).
    destruct (nf_CompressFile w oldfile d i p j world1)
      as (world2 & HC & Hf2 & Hl2 & Hs2 & Ha2 & Hd2 & _ & Hdk2 & Ho2 & Hoth2); try done.
    { simpl. rewrite lookup_insert_ne by (symmetry; apply tmp_name_fresh).
      by rewrite lookup_delete_eq. }
    { simpl. by rewrite lookup_insert_eq. }
    rewrite HC. exists world2. repeat (split; [done|]).
    split; [rewrite Hdk2; simpl; lia|]. split; [done|]. split; [done|]. split.
    + rewrite Hd2. rewrite lookup_delete_ne by (symmetry; apply tmp_name_fresh).
      by rewrite lookup_insert_eq.
    + intros x Hx1 Hx2. specialize (Hx2 eq_refl). rewrite Hd2. simpl.
      rewrite lookup_delete_ne, lookup_insert_ne, lookup_insert_ne, lookup_delete_ne; done.
  - exists world. repeat (split; [done|]). split; [by exists p|]. by repeat split.
Qed.

Lemma rotation_step (w : Writer) (world : World) (d : string) (b : bytes) :
  retention_inv w world ->
  d <> absPath w -> d ∉ rollingfilelist w ->
  (Compress (cf w) = true ->
   d +:+ ".tmp" <> absPath w /\ d +:+ ".tmp" ∉ rollingfilelist w) ->
  let l := rollingfilelist w ++ [d] in
  let n := (length l - Z.to_nat (MaxRemain (cf w)))%nat in
  exists (w' : Writer) (world' : World),
    run (rotation (length (spawned world)) d b) (RW_LockedWriter (mkLockedWriter w)) world =
      ([R_none; R_Write (Z.of_nat (length b)) None; R_none; R_none; R_none],
       RW_LockedWriter (mkLockedWriter w'), world') /\
    retention_inv w' world' /\ cf w' = cf w /\ absPath w' = absPath w /\
    rollingfilelist w' = drop n l /\
    logs world' = logs world /\
    length (spawned world') = S (length (spawned world)) /\
    (forall x, x ∈ l -> is_Some (dir world' !! x) <-> x ∈ drop n l) /\
    (forall x, x ∉ l -> x <> absPath w ->
               (Compress (cf w) = true -> x <> d +:+ ".tmp") ->
               dir world' !! x = dir world !! x).
Proof.
  intros [Hf Har Hfire Hch Hk (i & p & Hopen & Hi) [j Hpath] Hnd Habs Hlisted] Hd Hnew Htmp l n.
  set (idx := length (spawned world)).
  set (hn := length (handles world)). set (n1 := length (disk world)).
  assert (Hold : (file w < hn)%nat) by (by eapply lookup_lt_Some).
  (* the trigger engine offers d *)
  set (rw1 := RW_LockedWriter (mkLockedWriter (set_fire [d] w))).
  assert (E1 : exec (A_fire d) (RW_LockedWriter (mkLockedWriter w)) world = (R_none, rw1, world)).
  { simpl. unfold ret. by rewrite Hfire. }
  (* Write: the trigger is taken, Reopen swaps the handle *)
  set (w3 := set_file hn (set_fire [] (set_fire [d] w))).
  set (worldW :=
    set_handles (<[hn := mkFile n1 false (length ([] ++ b))]>
                   (handles world ++ [mkFile n1 false 0]))
      (set_disk (<[n1 := [] ++ b]> (disk world ++ [[]]))
        (set_spawned (spawned world ++ [G_completion (file w) d])
          (set_handles (handles world ++ [mkFile n1 false 0])
            (set_disk (disk world ++ [[]])
              (set_dir (<[absPath w := n1]> (<[d := j]> (delete (absPath w) (dir world))))
                 world)))))).
  assert (E2 : exec (A_Write b false) rw1 world =
               (R_Write (Z.of_nat (length b)) None, RW_LockedWriter (mkLockedWriter w3), worldW)).
  { simpl. unfold LockedWriter_Write, bind, ret. simpl.
    rewrite (nf_Reopen _ d j) by done. simpl.
    rewrite (nf_file_Write hn n1 0); [|done|simpl; by apply list_lookup_middle].
    simpl. unfold contents. simpl. rewrite list_lookup_middle by done. reflexivity. }
  (* the goroutine: compression, up to its send *)
  destruct (nf_completion w3 (file w) d i p j worldW)
    as (worldC & HC & HfC & HlC & HsC & HaC & HdkC & [pC HoC] & HothC & HdC & HdirC); try done.
  { simpl. rewrite lookup_insert_ne by done. by rewrite lookup_insert_eq. }
  { simpl. rewrite list_lookup_insert_ne by lia. by rewrite lookup_app_l. }
  { simpl. rewrite length_insert, length_app. simpl. lia. }
  set (worldC' := set_spawned (<[idx := G_send (file w) d]> (spawned worldC)) worldC).
  assert (E3 : exec (A_completion idx) (RW_LockedWriter (mkLockedWriter w3)) worldW =
               (R_none, RW_LockedWriter (mkLockedWriter w3), worldC')).
  { simpl. unfold run_completion, bind, get, ret, modify.
    replace (spawned worldW !! idx) with (Some (G_completion (file w) d))
      by (symmetry; simpl; by apply list_lookup_middle).
    simpl. by rewrite HC. }
  (* its send, taken by AutoRemove, and the deferred Close *)
  set (worldS := set_spawned (<[idx := G_done]> (spawned worldC'))
                   (set_handles (<[file w := mkFile i true pC]> (handles worldC))
                      (set_autoRemove (AR_got d) worldC'))).
  assert (E4 : exec (A_completion idx) (RW_LockedWriter (mkLockedWriter w3)) worldC' =
               (R_none, RW_LockedWriter (mkLockedWriter w3), worldS)).
  { simpl. unfold run_completion, bind, get, ret, modify. simpl.
    rewrite list_lookup_insert_eq by (rewrite HsC; simpl; rewrite length_app; simpl; lia).
    unfold completion_send, bind, get, ret, modify. simpl.
    rewrite Hch, HaC. simpl. rewrite Har.
    rewrite (nf_file_Close _ i pC); [|by simpl|by simpl]. reflexivity. }
  (* AutoRemove *)
  assert (HdirS : forall x, x <> absPath w -> x <> d ->
                    (Compress (cf w) = true -> x <> d +:+ ".tmp") ->
                    dir worldS !! x = dir world !! x).
  { intros x Hx1 Hx2 Hx3. simpl. rewrite HdirC by done. simpl.
    rewrite !lookup_insert_ne by done. by rewrite lookup_delete_ne. }
  assert (Hl : NoDup l).
  { apply NoDup_app. split; [done|]. split; [|apply NoDup_singleton].
    intros x Hx Hx'. apply list_elem_of_singleton in Hx' as ->. done. }
  assert (Hon : forall x, x ∈ l -> is_Some (dir worldS !! x)).
  { intros x Hx. apply elem_of_app in Hx as [Hx|Hx].
    - rewrite HdirS; [by apply Hlisted| | |].
      + by intros ->.
      + by intros ->.
      + intros Hc ->. by apply (Htmp Hc).
    - apply list_elem_of_singleton in Hx as ->. done. }
  destruct (AutoRemove_loop_evicts (MaxRemain (cf w)) l worldS)
    as (worldA & Hloop & HfA & HlA & HdkA & HhA & HsA & HaA & HdirA); try done.
  fold n in Hloop, HdirA.
  set (w5 := set_rollingfilelist (drop n l) w3).
  assert (E5 : exec A_AutoRemove (RW_LockedWriter (mkLockedWriter w3)) worldS =
               (R_none, RW_LockedWriter (mkLockedWriter w5), set_autoRemove AR_recv worldA)).
  { simpl. unfold AutoRemove, bind, get, ret, modify. simpl.
    fold l. by rewrite Hloop. }
  assert (Hsplit : forall x, x ∈ l -> x ∈ drop n l <-> x ∉ take n l).
  { intros x Hx. rewrite <- (take_drop n l) in Hl, Hx.
    apply NoDup_app in Hl as (_ & Hdisj & _). apply elem_of_app in Hx as [Hx|Hx].
    - split; [intros Hx'; by apply Hdisj in Hx'|done].
    - split; [intros _ Hx'; by apply Hdisj in Hx'|done]. }
  assert (Habs' : absPath w ∉ l).
  { intros [Hx|Hx%list_elem_of_singleton]%elem_of_app; done. }
  exists w5, (set_autoRemove AR_recv worldA). split.
  { unfold rotation.
    rewrite run_cons, E1. cbv beta iota. rewrite run_cons, E2. cbv beta iota.
    rewrite run_cons, E3. cbv beta iota. rewrite run_cons, E4. cbv beta iota.
    rewrite run_cons, E5. reflexivity. }
  split.
  { split; simpl; try done.
    - exists n1, (length ([] ++ b)). split.
      + rewrite HhA. simpl. rewrite list_lookup_insert_ne by lia.
        rewrite HothC; [|lia|simpl; rewrite length_insert, length_app; simpl; lia].
        simpl. apply list_lookup_insert_eq. rewrite length_app. simpl. lia.
      + rewrite HdkA. simpl. revert HdkC. simpl. rewrite length_insert, length_app. simpl. lia.
    - rewrite HdirA. case_decide as Hx; [by apply elem_of_take_l in Hx|].
      simpl. rewrite HdirC; [|done|intros Hc Heq; destruct (Htmp Hc) as [Hn _]; by apply Hn].
      simpl. by rewrite lookup_insert_eq.
    - by apply NoDup_drop.
    - intros Hx. by apply elem_of_drop_l in Hx.
    - intros x Hx. rewrite HdirA. case_decide as Hx'.
      + apply Hsplit in Hx; [done|by eapply elem_of_drop_l].
      + apply Hon. by eapply elem_of_drop_l. }
  repeat (split; [done|]).
  split; [simpl; rewrite HlA; simpl; by rewrite HlC|].
  split; [simpl; rewrite HsA; simpl; rewrite !length_insert, HsC; simpl;
          rewrite length_app; simpl; lia|].
  split.
  - intros x Hx. simpl. rewrite HdirA. rewrite (Hsplit x Hx). case_decide as Hx'.
    + split; [by intros [? ?]|done].
    + split; [done|intros _; by apply Hon].
  - intros x Hx Hxa Hxt. simpl. rewrite HdirA. case_decide as Hx'.
    + by apply elem_of_take_l in Hx'.
    + apply HdirS; try done. intros ->. apply Hx. apply elem_of_app. right. by left.
Qed.

Lemma run_app (l1 l2 : list action) :
  forall (rw : RollingWriter) (world : World),
    run (l1 ++ l2) rw world =
      let '(rs1, rw1, world1) := run l1 rw world in
      let '(rs2, rw2, world2) := run l2 rw1 world1 in
      (rs1 ++ rs2, rw2, world2).
Proof.
  induction l1 as [|a l1 IH]; intros rw world.
  - simpl. unfold ret. by destruct (run l2 rw world) as [[? ?] ?].
  - change ((a :: l1) ++ l2) with (a :: (l1 ++ l2)). rewrite !run_cons.
    destruct (exec a rw world) as [[r rw1] world1]. rewrite IH.
    destruct (run l1 rw1 world1) as [[rs1 rw2] world2].
    by destruct (run l2 rw2 world2) as [[rs2 rw3] world3].
Qed.

Lemma rotations_retention (b : bytes) (dests : list string) :
  forall (done : list string) (w : Writer) (world : World),
    retention_inv w world ->
    let k := Z.to_nat (MaxRemain (cf w)) in
    NoDup (done ++ dests) -> absPath w ∉ done ++ dests ->
    (Compress (cf w) = true ->
     forall d, d ∈ dests -> d +:+ ".tmp" <> absPath w /\ d +:+ ".tmp" ∉ done ++ dests) ->
    rollingfilelist w = drop (length done - k) done ->
    (forall x, x ∈ done -> is_Some (dir world !! x) <-> x ∈ rollingfilelist w) ->
    exists (rs : list result) (w' : Writer) (world' : World),
      run (rotations (length (spawned world)) dests b)
          (RW_LockedWriter (mkLockedWriter w)) world =
        (rs, RW_LockedWriter (mkLockedWriter w'), world') /\
      rollingfilelist w' = drop (length (done ++ dests) - k) (done ++ dests) /\
      logs world' = logs world /\
      (forall x, x ∈ done ++ dests -> is_Some (dir world' !! x) <-> x ∈ rollingfilelist w').
Proof.
  induction dests as [|d dests IH]; intros done w world Hinv k Hnd Habs Htmp HL Hdisk.
  - exists [], w, world. rewrite app_nil_r. by repeat (split; [done|]).
  - assert (Hsub : forall x, x ∈ rollingfilelist w -> x ∈ done).
    { intros x. rewrite HL. apply elem_of_drop_l. }
    assert (Hd : d ∉ done).
    { apply NoDup_app in Hnd as (_ & Hdisj & _). intros Hx. apply (Hdisj d Hx). by left. }
    destruct (rotation_step w world d b Hinv)
      as (w1 & world1 & Hrun1 & Hinv1 & Hcf & Hpath & HL1 & Hlog1 & Hsp1 & Hin1 & Hout1).
    { intros ->. apply Habs. apply elem_of_app. right. by left. }
    { intros Hx. by apply Hd, Hsub. }
    { intros Hc. destruct (Htmp Hc d) as [Ht1 Ht2]; [by left|]. split; [done|].
      intros Hx. apply Ht2. apply elem_of_app. left. by apply Hsub. }
    assert (HL1' : rollingfilelist w1 = drop (length (done ++ [d]) - k) (done ++ [d])).
    { rewrite HL1, HL. rewrite <- drop_app_le by lia. rewrite drop_drop.
      f_equal. rewrite length_app, length_drop, length_app. simpl. fold k. lia. }
    destruct (IH (done ++ [d]) w1 world1 Hinv1)
      as (rs & w2 & world2 & Hrun2 & HL2 & Hlog2 & Hin2).
    + by rewrite <- app_assoc.
    + rewrite Hpath. by rewrite <- app_assoc.
    + rewrite Hcf, Hpath. intros Hc x Hx. rewrite <- app_assoc. apply (Htmp Hc). by right.
    + by rewrite Hcf.
    + intros x Hx. destruct (decide (x ∈ rollingfilelist w ++ [d])) as [Hxl|Hxl].
      * rewrite HL1. by apply Hin1.
      * assert (Hxd : x ∈ done).
        { apply elem_of_app in Hx as [?|Hx%list_elem_of_singleton]; [done|].
          subst. exfalso. apply Hxl. apply elem_of_app. right. by left. }
        rewrite Hout1; [| done | |].
        -- rewrite (Hdisk x Hxd). split.
           ++ intros Hx'. exfalso. apply Hxl. apply elem_of_app. by left.
           ++ rewrite HL1. intros Hx'%elem_of_drop_l. done.
        -- intros ->. apply Habs. apply elem_of_app. by left.
        -- intros Hc ->. destruct (Htmp Hc d) as [_ Ht2]; [by left|].
           apply Ht2. apply elem_of_app. by left.
    + eexists _, w2, world2. split.
      { change (rotations (length (spawned world)) (d :: dests) b)
          with (rotation (length (spawned world)) d b ++
                rotations (S (length (spawned world))) dests b).
        rewrite run_app, Hrun1. rewrite <- Hsp1, Hrun2. reflexivity. }
      rewrite Hcf in HL2. rewrite <- app_assoc in HL2, Hin2. simpl in HL2, Hin2.
      split; [done|]. split; [congruence|done].
Qed.

Lemma NewWriterFromConfig_lock (c : Config) (world world1 : World) (rw : RollingWriter) :
  faults world = [] ->
  (forall path i, dir world !! path = Some i -> (i < length (disk world))%nat) ->
  WriterMode c = "lock" -> (0 <= MaxRemain c)%Z ->
  NewWriterFromConfig c world = (Returns (inl rw), world1) ->
  exists w : Writer,
    rw = RW_LockedWriter (mkLockedWriter w) /\ retention_inv w world1 /\
    cf w = c /\ absPath w = LogFilePath c /\ rollingfilelist w = [].
Proof.
  intros Hf Hwf Hmode Hk. unfold NewWriterFromConfig, os_MkdirAll, os_OpenFile.
  rewrite Hmode.
  destruct (decide _); [intros; simplify_eq|].
  unfold bind, get, modify, ret. repeat (rewrite nf_next_fault by done; simpl).
  destruct (dir world !! LogFilePath c) as [i|] eqn:Hd; simpl;
    (destruct (_ && _); [intros; simplify_eq|]);
    (destruct (NewManager c); [intros; simplify_eq|]); simpl;
    intros; simplify_eq; eexists; (split; [reflexivity|]); (split; [|done]);
    split; simpl; try done; try apply NoDup_nil_2; try apply not_elem_of_nil.
  - eexists i, 0%nat. split; [by apply list_lookup_middle|by eapply Hwf].
  - intros x Hx. by apply not_elem_of_nil in Hx.
  - eexists _, 0%nat. split; [by apply list_lookup_middle|]. rewrite length_app. simpl. lia.
  - by rewrite lookup_insert_eq.
  - intros x Hx. by apply not_elem_of_nil in Hx.
Qed.

(** C1, as amended. For a writer made in mode "lock" with MaxRemain = k >= 0
    in a world without failures: after N rotations to distinct destinations,
    each serviced to its end before the next, the retention list holds the
    last min(N, k) destinations, and these are exactly the rotated files
    left on disk. *)
Theorem retention_keeps_MaxRemain (c : Config) (world world1 : World) (rw : RollingWriter)
    (dests : list string) (b : bytes) :
  faults world = [] ->
  (forall path i, dir world !! path = Some i -> (i < length (disk world))%nat) ->
  WriterMode c = "lock" -> (0 <= MaxRemain c)%Z ->
  NewWriterFromConfig c world = (Returns (inl rw), world1) ->
  NoDup dests -> LogFilePath c ∉ dests ->
  (Compress c = true ->
   forall d, d ∈ dests -> d +:+ ".tmp" <> LogFilePath c /\ d +:+ ".tmp" ∉ dests) ->
  let k := Z.to_nat (MaxRemain c) in
  let n := length dests in
  exists (rs : list result) (rw' : RollingWriter) (world' : World),
    run (rotations (length (spawned world1)) dests b) rw world1 = (rs, rw', world') /\
    rollingfilelist (base rw') = drop (n - k) dests /\
    on_disk world' dests = drop (n - k) dests /\
    length (on_disk world' dests) = (n `min` k)%nat.
Proof.
  intros Hf Hwf Hmode Hk Hnew Hnd Habs Htmp k n.
  destruct (NewWriterFromConfig_lock c world world1 rw Hf Hwf Hmode Hk Hnew)
    as (w & -> & Hinv & Hcf & Hpath & HL).
  destruct (rotations_retention b dests [] w world1 Hinv)
    as (rs & w' & world' & Hrun & HL' & _ & Hin); simpl.
  - done.
  - by rewrite Hpath.
  - rewrite Hcf, Hpath. done.
  - by rewrite HL.
  - intros x Hx. by apply not_elem_of_nil in Hx.
  - simpl in HL', Hin. rewrite Hcf in HL'. fold k n in HL'.
    assert (Hfilter : on_disk world' dests = drop (n - k) dests).
    { unfold on_disk. apply filter_drop; [done|]. intros x Hx. rewrite <- HL'. by apply Hin. }
    exists rs, (RW_LockedWriter (mkLockedWriter w')), world'.
    split; [done|]. split; [done|]. split; [done|].
    rewrite Hfilter, length_drop. fold n. lia.
Qed.
End Retention.

(** ** What no step of a rotation's completion undoes *)

Lemma quiet_refl (world : World) : quiet world world.
Proof. by split. Qed.

Lemma quiet_trans (w1 w2 w3 : World) : quiet w1 w2 -> quiet w2 w3 -> quiet w1 w3.
Proof. intros [] []. split; [lia|congruence|congruence]. Qed.

Lemma preserves_ret {A} (a : A) : preserves quiet (ret a).
Proof. intros world. apply quiet_refl. Qed.

Lemma preserves_bind {A B} (m : M A) (k : A -> M B) :
  preserves quiet m -> (forall a, preserves quiet (k a)) -> preserves quiet (bind m k).
Proof.
  intros Hm Hk world. unfold bind. specialize (Hm world).
  destruct (m world) as [a world1]. specialize (Hk a world1).
  destruct (k a world1) as [b' world2]. simpl in *. by eapply quiet_trans.
Qed.

Lemma quiet_os_Rename (old new : string) : preserves quiet (os_Rename old new).
Proof. unfold os_Rename. quiet_prim. Qed.
Lemma quiet_os_Remove (name : string) : preserves quiet (os_Remove name).
Proof. unfold os_Remove. quiet_prim. Qed.
Lemma quiet_os_OpenFile (name : string) : preserves quiet (os_OpenFile name).
Proof. unfold os_OpenFile. quiet_prim. Qed.
Lemma quiet_file_Write (h : nat) (b : bytes) : preserves quiet (file_Write h b).
Proof. unfold file_Write. quiet_prim. Qed.
Lemma quiet_file_Close (h : nat) : preserves quiet (file_Close h).
Proof. unfold file_Close. quiet_prim. Qed.
Lemma quiet_file_Seek0 (h : nat) : preserves quiet (file_Seek0 h).
Proof. unfold file_Seek0. quiet_prim. Qed.
Lemma quiet_file_ReadAll (h : nat) : preserves quiet (file_ReadAll h).
Proof. unfold file_ReadAll. quiet_prim. Qed.

#[global] Hint Resolve quiet_os_Rename quiet_os_Remove quiet_os_OpenFile quiet_file_Write
  quiet_file_Close quiet_file_Seek0 quiet_file_ReadAll : quiet.

(** Composite calls: through the binds, by cases on the values returned. *)
Ltac quiet_steps :=
  repeat first
    [ apply preserves_ret
    | solve [auto with quiet]
    | apply preserves_bind; [|intros ?]
    | match goal with
      | |- preserves _ (match ?x with _ => _ end) => destruct x
      | |- preserves _ (let (_, _) := ?x in _) => destruct x
      end ].

Lemma keeps_open_refl (h i : nat) (world : World) : keeps_open h i world world.
Proof. by split. Qed.

Lemma keeps_open_trans (h i : nat) (w1 w2 w3 : World) :
  keeps_open h i w1 w2 -> keeps_open h i w2 w3 -> keeps_open h i w1 w3.
Proof. intros [] []. split; [lia|auto]. Qed.

Lemma keeps_open_ret {A} (h i : nat) (a : A) : preserves (keeps_open h i) (ret a).
Proof. intros world. apply keeps_open_refl. Qed.

Lemma keeps_open_bind {A B} (h i : nat) (m : M A) (k : A -> M B) :
  preserves (keeps_open h i) m -> (forall a, preserves (keeps_open h i) (k a)) ->
  preserves (keeps_open h i) (bind m k).
Proof.
  intros Hm Hk world. unfold bind. specialize (Hm world).
  destruct (m world) as [a world1]. specialize (Hk a world1).
  destruct (k a world1) as [b' world2]. simpl in *. by eapply keeps_open_trans.
Qed.

Lemma keeps_open_os_Rename (h i : nat) (old new : string) :
  preserves (keeps_open h i) (os_Rename old new).
Proof. unfold os_Rename. keeps_prim. Qed.
Lemma keeps_open_os_Remove (h i : nat) (name : string) :
  preserves (keeps_open h i) (os_Remove name).
Proof. unfold os_Remove. keeps_prim. Qed.
Lemma keeps_open_os_OpenFile (h i : nat) (name : string) :
  preserves (keeps_open h i) (os_OpenFile name).
Proof. unfold os_OpenFile. keeps_prim. Qed.
Lemma keeps_open_file_Write (h i h' : nat) (b : bytes) :
  preserves (keeps_open h i) (file_Write h' b).
Proof. unfold file_Write. keeps_prim. Qed.
Lemma keeps_open_file_Seek0 (h i h' : nat) : preserves (keeps_open h i) (file_Seek0 h').
Proof. unfold file_Seek0. keeps_prim. Qed.
Lemma keeps_open_file_ReadAll (h i h' : nat) : preserves (keeps_open h i) (file_ReadAll h').
Proof. unfold file_ReadAll. keeps_prim. Qed.
Lemma keeps_open_file_Close (h i h' : nat) :
  h' <> h -> preserves (keeps_open h i) (file_Close h').
Proof. intros Hne. unfold file_Close. keeps_prim. Qed.

#[global] Hint Resolve keeps_open_os_Rename keeps_open_os_Remove keeps_open_os_OpenFile
  keeps_open_file_Write keeps_open_file_Seek0 keeps_open_file_ReadAll : keeps_open.

Ltac keeps_open_steps :=
  repeat first
    [ apply keeps_open_ret
    | solve [auto with keeps_open]
    | apply keeps_open_bind; [|intros ?]
    | match goal with
      | |- preserves _ (match ?x with _ => _ end) => destruct x
      | |- preserves _ (let (_, _) := ?x in _) => destruct x
      end ].

Section Completion.
Context `{Env}.

Lemma quiet_gzip_flush (z : gzipWriter) (upto : nat) : preserves quiet (gzip_flush z upto).
Proof. unfold gzip_flush. quiet_steps. Qed.

Lemma quiet_gzip_Close (z : gzipWriter) : preserves quiet (gzip_Close z).
Proof. unfold gzip_Close. pose proof quiet_gzip_flush. quiet_steps. Qed.

Lemma quiet_io_Copy (z : gzipWriter) (src : nat) : preserves quiet (io_Copy z src).
Proof. unfold io_Copy, gzip_Write. pose proof quiet_gzip_flush. quiet_steps. Qed.

Lemma quiet_CompressFile (w : Writer) (oldfile : nat) (cmpname : string) :
  preserves quiet (CompressFile w oldfile cmpname).
Proof.
  unfold CompressFile. pose proof quiet_gzip_Close. pose proof quiet_io_Copy. quiet_steps.
Qed.

Lemma file_Close_closes (h : nat) (world : World) :
  (h < length (handles world))%nat ->
  closed_handle (snd (file_Close h world)) h.
Proof.
  intros Hh. destruct (lookup_lt_is_Some_2 _ _ Hh) as [[i c p] Hl].
  unfold file_Close, bind, get, modify, ret, next_fault, closed_handle.
  destruct (faults world); simpl; rewrite Hl; destruct c; simpl; eauto;
    eexists _, _; by apply list_lookup_insert_eq.
Qed.

(** The deferred Close of the old file at the end of the func literal. *)
Lemma deferred_Close (h : nat) (world : World) (g : goroutine) :
  (h < length (handles world))%nat ->
  exists world' : World,
    (do! file_Close h in ret g) world = (g, world') /\
    closed_handle world' h /\ autoRemove world' = autoRemove world /\
    logs world' = logs world.
Proof.
  intros Hh. unfold bind, ret.
  pose proof (file_Close_closes h world Hh) as Hc.
  pose proof (quiet_file_Close h world) as [_ Ha Hl].
  destruct (file_Close h world) as [e world']. simpl in *. by exists world'.
Qed.

Lemma keeps_open_gzip_flush (h i : nat) (z : gzipWriter) (upto : nat) :
  preserves (keeps_open h i) (gzip_flush z upto).
Proof. unfold gzip_flush. keeps_open_steps. Qed.

Lemma keeps_open_gzip_Close (h i : nat) (z : gzipWriter) :
  preserves (keeps_open h i) (gzip_Close z).
Proof. unfold gzip_Close. pose proof (keeps_open_gzip_flush h i). keeps_open_steps. Qed.

Lemma keeps_open_io_Copy (h i : nat) (z : gzipWriter) (src : nat) :
  preserves (keeps_open h i) (io_Copy z src).
Proof.
  unfold io_Copy, gzip_Write. pose proof (keeps_open_gzip_flush h i). keeps_open_steps.
Qed.

Lemma CompressFile_keeps_open (w : Writer) (oldfile i : nat) (cmpname : string)
    (world : World) :
  open_on world oldfile i -> open_on (snd (CompressFile w oldfile cmpname world)) oldfile i.
Proof.
  intros Ho. unfold CompressFile. unfold bind at 1.
  pose proof (keeps_open_os_OpenFile oldfile i cmpname world) as Hk.
  assert (Hnew : match fst (os_OpenFile cmpname world) with
                 | inl cmpfile => cmpfile <> oldfile
                 | inr _ => True
                 end).
  { destruct Ho as [p Hp]. apply lookup_lt_Some in Hp. revert Hp.
    unfold os_OpenFile, bind, get, modify, ret, next_fault.
    run_all; intros; simpl; first [done | lia]. }
  destruct (os_OpenFile cmpname world) as [[cmpfile|e] world0]; simpl in Hk, Hnew.
  - assert (Hrest : forall m : M goerr, preserves (keeps_open oldfile i) m ->
                      open_on (snd (m world0)) oldfile i).
    { intros m Hm. apply (Hm world0), Hk, Ho. }
    apply Hrest.
    pose proof (keeps_open_gzip_Close oldfile i).
    pose proof (keeps_open_io_Copy oldfile i).
    pose proof (keeps_open_file_Close oldfile i cmpfile Hnew).
    keeps_open_steps.
  - unfold ret. simpl. by apply Hk.
Qed.

(** C2, as amended. After a successful Reopen on a writer whose fileCh was
    made, AutoRemove waiting on its receive: the goroutine started last is
    the completion of this rotation, and it always closes the old handle.
    When compression is off, or the rename to ".tmp" and CompressFile both
    returned nil, it logs nothing and reaches its send with the old handle
    still open and AutoRemove still waiting; the send hands the destination
    to AutoRemove and the handle is closed after it. When the rename to
    ".tmp" returned an error, or else CompressFile did, it logs that error in
    one line, sends nothing, AutoRemove still waiting, and closes the
    handle. *)
Theorem completion_closes_and_notifies (w w1 : Writer) (file' : string)
    (world world1 : World) :
  fileCh w = Made -> autoRemove world = AR_recv ->
  is_Some (handles world !! file w) ->
  Reopen w file' world = (None, w1, world1) ->
  last (spawned world1) = Some (G_completion (file w) file') /\
  let '(err1, worldA) := os_Rename file' (file' +:+ ".tmp") world1 in
  let '(err2, worldB) := CompressFile w1 (file w) file' worldA in
  let '(g, world2) := completion w1 (file w) file' world1 in
  match compression_failure (Compress (cf w)) err1 err2 with
  | Some line =>
      g = G_done /\ logs world2 = logs world1 ++ [line] /\
      autoRemove world2 = AR_recv /\ closed_handle world2 (file w)
  | None =>
      g = G_send (file w) file' /\ logs world2 = logs world1 /\
      autoRemove world2 = AR_recv /\
      (forall i, open_on world (file w) i -> open_on world2 (file w) i) /\
      let '(g', world3) := completion_send w1 (file w) file' world2 in
      g' = G_done /\
      world3 = snd (file_Close (file w) (set_autoRemove (AR_got file') world2)) /\
      autoRemove world3 = AR_got file' /\ closed_handle world3 (file w)
  end.
Proof.
  intros Hch Har Hh HR.
  assert (Hpre : (file w < length (handles world1))%nat /\ autoRemove world1 = AR_recv /\
                 cf w1 = cf w /\ fileCh w1 = Made /\
                 last (spawned world1) = Some (G_completion (file w) file') /\
                 (forall i, open_on world (file w) i -> open_on world1 (file w) i)).
  { revert HR. unfold Reopen, go, bind, ret, modify.
    pose proof (quiet_os_Rename (absPath w) file' world) as [Hq1 Hq2 _].
    pose proof (fun i => keeps_open_os_Rename (file w) i (absPath w) file' world) as Hk1.
    destruct (os_Rename (absPath w) file' world) as [[e|] worldA]; [discriminate|].
    pose proof (quiet_os_OpenFile (absPath w) worldA) as [Hq3 Hq4 _].
    pose proof (fun i => keeps_open_os_OpenFile (file w) i (absPath w) worldA) as Hk2.
    destruct (os_OpenFile (absPath w) worldA) as [[newfile|e] worldB]; [|discriminate].
    intros [= <- <-]. simpl in *. apply lookup_lt_is_Some_1 in Hh.
    split; [lia|]. split; [congruence|]. repeat (split; [done|]).
    split; [by rewrite last_snoc|].
    intros i Ho. apply (Hk2 i). by apply (Hk1 i). }
  destruct Hpre as (Hlt & Har1 & Hcf & Hch1 & Hlast & Hopen1). split; [done|].
  (* the send on the made channel, AutoRemove waiting, then the deferred Close *)
  assert (Hsend : forall worldB, quiet world1 worldB ->
    let '(g', world3) := completion_send w1 (file w) file' worldB in
    g' = G_done /\
    world3 = snd (file_Close (file w) (set_autoRemove (AR_got file') worldB)) /\
    autoRemove world3 = AR_got file' /\ closed_handle world3 (file w)).
  { intros worldB [Hq1 Hq2 Hq3]. unfold completion_send. unfold bind at 1. unfold get.
    rewrite Hch1, Hq2, Har1. unfold bind at 1. unfold modify.
    destruct (deferred_Close (file w) (set_autoRemove (AR_got file') worldB) G_done)
      as (world3 & Heq & Hc & Ha & _); [simpl; lia|].
    rewrite Heq. revert Heq. unfold bind, ret.
    destruct (file_Close (file w) (set_autoRemove (AR_got file') worldB)) as [e wd].
    intros [= ->]. by simpl in Ha. }
  (* a failed compression: one line is logged, then the deferred Close *)
  assert (Hfail : forall worldB msg e, quiet world1 worldB ->
    let '(g, world2) :=
      (do! log_Println msg e in do! file_Close (file w) in ret G_done) worldB in
    g = G_done /\ logs world2 = logs world1 ++ [(msg, e)] /\
    autoRemove world2 = AR_recv /\ closed_handle world2 (file w)).
  { intros worldB msg e [Hq1 Hq2 Hq3]. unfold bind at 1. unfold log_Println, modify.
    destruct (deferred_Close (file w) (set_logs (logs worldB ++ [(msg, e)]) worldB) G_done)
      as (world2 & -> & Hc & Ha & Hl); [simpl; lia|].
    simpl in Ha, Hl. rewrite Hl, Hq3, Ha, Hq2. done. }
  unfold completion, compression_failure. rewrite Hcf.
  pose proof (quiet_os_Rename file' (file' +:+ ".tmp") world1) as Hq.
  pose proof (fun i => keeps_open_os_Rename (file w) i file' (file' +:+ ".tmp") world1) as Hk.
  destruct (Compress (cf w)).
  - unfold bind at 1.
    destruct (os_Rename file' (file' +:+ ".tmp") world1) as [err1 worldA]; simpl in Hq, Hk.
    pose proof (quiet_CompressFile w1 (file w) file' worldA) as Hq'.
    pose proof (fun i => CompressFile_keeps_open w1 (file w) i file' worldA) as Hk'.
    destruct err1 as [e|].
    + destruct (CompressFile w1 (file w) file' worldA) as [err2 worldB].
      specialize (Hfail worldA "error in compress rename tempfile" e Hq).
      destruct ((do! log_Println "error in compress rename tempfile" e in
                 do! file_Close (file w) in ret G_done) worldA) as [g world2].
      exact Hfail.
    + unfold bind at 1.
      destruct (CompressFile w1 (file w) file' worldA) as [err2 worldB]; simpl in Hq', Hk'.
      destruct err2 as [e|].
      * specialize (Hfail worldB "error in compress log file" e (quiet_trans _ _ _ Hq Hq')).
        destruct ((do! log_Println "error in compress log file" e in
                   do! file_Close (file w) in ret G_done) worldB) as [g world2].
        exact Hfail.
      * pose proof (quiet_trans _ _ _ Hq Hq') as Hq2. unfold ret.
        split; [done|]. split; [by destruct Hq2|].
        split; [destruct Hq2 as [_ Ha _]; congruence|].
        split; [intros i Ho; apply Hk', (Hk i), Hopen1, Ho|].
        by apply Hsend.
  - destruct (os_Rename file' (file' +:+ ".tmp") world1) as [err1 worldA].
    destruct (CompressFile w1 (file w) file' worldA) as [err2 worldB].
    unfold ret. split; [done|]. split; [done|]. split; [done|].
    split; [exact Hopen1|]. apply Hsend, quiet_refl.
Qed.
End Completion.

(** ** A nil retention channel: AutoRemove never hears of a rotation *)

Lemma ar_kept_bind {A B} (m : M A) (k : A -> M B) :
  preserves ar_kept m -> (forall a, preserves ar_kept (k a)) -> preserves ar_kept (bind m k).
Proof.
  intros Hm Hk world. unfold bind. specialize (Hm world).
  destruct (m world) as [a world1]. specialize (Hk a world1).
  destruct (k a world1) as [b' world2]. unfold ar_kept in *. simpl in *. congruence.
Qed.

Lemma ar_kept_quiet {A} (m : M A) : preserves quiet m -> preserves ar_kept m.
Proof. intros Hm world. by destruct (Hm world). Qed.

Ltac ar_kept_steps :=
  repeat first
    [ by intros ?
    | solve [apply ar_kept_quiet; auto with quiet]
    | solve [auto with quiet]
    | apply ar_kept_bind; [|intros ?]
    | match goal with
      | |- preserves _ (match ?x with _ => _ end) => destruct x
      | |- preserves _ (let (_, _) := ?x in _) => destruct x
      | |- preserves _ (if ?x then _ else _) => destruct x
      end ].

Lemma ar_kept_Reopen (w : Writer) (f : string) : preserves ar_kept (Reopen w f).
Proof. unfold Reopen, go, modify. ar_kept_steps. Qed.

Lemma ar_kept_onClose_loop (f : nat) (q : list bytes) : preserves ar_kept (onClose_loop f q).
Proof.
  induction q as [|b q IH]; simpl; [by intros ?|].
  unfold err_deliver, pool_Put, modify. ar_kept_steps;
    try (intros world; unfold ar_kept; by destruct (err_waiters world)).
Qed.

Section NilChannel.
Context `{Env}.

Lemma ar_kept_enqueue_chunks (room : nat) :
  forall (b : bytes) (q : list bytes), preserves ar_kept (enqueue_chunks room b q).
Proof.
  induction room as [|room IH]; intros b q; destruct b as [|x b]; simpl;
    unfold pool_Get; ar_kept_steps;
    try (intros world; unfold ar_kept; by destruct (pool world)).
Qed.

Lemma ar_kept_Write (pick : bool) (rw : RollingWriter) (b : bytes) :
  preserves ar_kept (Write pick rw b).
Proof.
  pose proof ar_kept_Reopen. pose proof ar_kept_enqueue_chunks.
  destruct rw as [w|[w]|w|w]; simpl;
    unfold Writer_Write, LockedWriter_Write, AsynchronousWriter_Write, BufferWriter_Write,
      pool_Get, pool_Put, get, modify; ar_kept_steps;
    try (intros world; unfold ar_kept; by destruct (pool world)).
Qed.

Lemma ar_kept_exec (a : action) (rw : RollingWriter) (world : World) :
  fileCh (base rw) = Nil -> (forall f, autoRemove world <> AR_got f) ->
  autoRemove (snd (exec a rw world)) = autoRemove world.
Proof.
  intros Hch Har. destruct a; simpl.
  - apply ar_kept_Write.
  - pose proof ar_kept_onClose_loop.
    assert (Hc : preserves ar_kept (Close rw)); [|apply Hc].
    destruct rw as [w|[w]|w|w]; simpl;
      unfold Writer_Close, LockedWriter_Close, AsynchronousWriter_Close, BufferWriter_Close,
        onClose; ar_kept_steps.
  - reflexivity.
  - unfold bind, run_completion, get, ret, modify. unfold bind.
    destruct (spawned world !! i) as [[oldfile file'|oldfile file'|]|]; simpl; try done.
    + assert (Hc : preserves ar_kept (completion (base rw) oldfile file')).
      { pose proof quiet_CompressFile. unfold completion, log_Println, modify. ar_kept_steps. }
      specialize (Hc world). by destruct (completion (base rw) oldfile file' world).
    + unfold completion_send, bind, get, ret. by rewrite Hch.
  - unfold AutoRemove, bind, get, ret.
    destruct (autoRemove world) as [| |f0] eqn:Ha; simpl; try done. by destruct (Har f0).
  - destruct rw as [w|[w]|w|w]; try done.
    assert (Hc : preserves ar_kept (writer pick w)).
    { unfold writer, writer_chunk, err_deliver, pool_Put, get, modify. ar_kept_steps;
        try (intros world'; unfold ar_kept; by destruct (err_waiters world')). }
    specialize (Hc world). simpl. unfold bind, ret. by destruct (writer pick w world).
  - destruct rw as [w|[w]|w|w]; try done.
    simpl. unfold bind, ret, errChan_receive, bind, get, modify, pool_Put, modify.
    by destruct (worker world).
Qed.

Lemma rollingfilelist_exec (a : action) (rw : RollingWriter) (world : World) :
  (forall f, autoRemove world <> AR_got f) ->
  rollingfilelist (base (snd (fst (exec a rw world)))) = rollingfilelist (base rw).
Proof.
  intros Har.
  assert (HR : forall w d offers world,
             rollingfilelist (snd (fst (Reopen (set_fire offers w) d world))) = rollingfilelist w).
  { intros. apply (Reopen_fields (set_fire offers w)). }
  destruct a; simpl.
  - destruct rw as [w|[w]|w|w]; simpl.
    + unfold Writer_Write.
      destruct (fire w) as [|d offers]; [run_all; reflexivity|].
      specialize (HR w d offers world). run_all; exact HR.
    + unfold LockedWriter_Write; simpl.
      destruct (fire w) as [|d offers]; [run_all; reflexivity|].
      specialize (HR w d offers world). run_all; exact HR.
    + unfold AsynchronousWriter_Write.
      destruct (closed w =? 0)%Z; [|reflexivity].
      destruct (fire (aw_Writer w)) as [|d offers].
      * unfold pool_Get. run_all; reflexivity.
      * specialize (HR (aw_Writer w) d offers world).
        unfold pool_Put. run_all; first [exact HR | reflexivity].
    + unfold BufferWriter_Write.
      destruct (fire (bw_Writer w)) as [|d offers]; [run_all; reflexivity|].
      specialize (HR (bw_Writer w) d offers world). run_all; exact HR.
  - destruct rw as [w|[w]|w|w]; simpl; unfold AsynchronousWriter_Close, onClose;
      run_all; reflexivity.
  - destruct rw as [w|[w]|w|w]; reflexivity.
  - run_all; reflexivity.
  - unfold AutoRemove, bind, get, ret.
    destruct (autoRemove world) as [| |f0] eqn:Ha;
      try (destruct rw as [w|[w]|w|w]; reflexivity).
    by destruct (Har f0).
  - destruct rw as [w|[w]|w|w]; try reflexivity.
    unfold writer, writer_chunk. run_all; reflexivity.
  - destruct rw as [w|[w]|w|w]; run_all; reflexivity.
Qed.

(** With a nil fileCh, whatever happens, AutoRemove receives nothing and its
    list stays as it is: no rotated file is ever evicted. *)
Lemma nil_channel_never_notified (l : list action) :
  forall (rw : RollingWriter) (world : World),
    fileCh (base rw) = Nil -> (forall f, autoRemove world <> AR_got f) ->
    autoRemove (snd (run l rw world)) = autoRemove world /\
    rollingfilelist (base (snd (fst (run l rw world)))) = rollingfilelist (base rw).
Proof.
  induction l as [|a l IH]; intros rw world Hch Har; [done|].
  rewrite run_cons.
  pose proof (ar_kept_exec a rw world Hch Har) as Ha.
  pose proof (rollingfilelist_exec a rw world Har) as Hl.
  pose proof (exec_fileCh a rw world) as Hc.
  destruct (exec a rw world) as [[r rw1] world1]. simpl in Ha, Hl, Hc.
  destruct (IH rw1 world1) as [Ha' Hl'].
  - congruence.
  - intros f. rewrite Ha. apply Har.
  - destruct (run l rw1 world1) as [[rs rw2] world2]. simpl in *. split; congruence.
Qed.

(** So a writer made in a mode other than "lock" never evicts a rotated
    file: its list stays empty. *)
Lemma no_retention_unless_lock (c : Config) (world world' : World) (rw : RollingWriter)
    (l : list action) :
  NewWriterFromConfig c world = (Returns (inl rw), world') ->
  WriterMode c <> "lock" -> (forall f, autoRemove world <> AR_got f) ->
  rollingfilelist (base (snd (fst (run l rw world')))) = [] /\
  forall f, autoRemove (snd (run l rw world')) <> AR_got f.
Proof.
  intros Hnew Hmode Har.
  assert (Hpre : fileCh (base rw) = Nil /\ rollingfilelist (base rw) = [] /\
                 forall f, autoRemove world' <> AR_got f).
  { revert Hnew. unfold NewWriterFromConfig, os_MkdirAll, os_OpenFile, next_fault.
    run_all; intros; simplify_eq; simpl; repeat split; try done. }
  destruct Hpre as (Hch & Hl & Har').
  destruct (nil_channel_never_notified l rw world' Hch Har') as [Ha Hl'].
  split; [congruence|]. intros f. rewrite Ha. apply Har'.
Qed.
End NilChannel.

(** * The properties at concrete inputs *)

(** C3 at a directory without the current file: the rename fails with
    ErrNotExist, which Reopen returns, the writer and the world unchanged. *)
Lemma Reopen_rename_fails_witness :
  fst (os_Rename "log/a.log" "r1" empty_world) = Some ErrNotExist /\
  Reopen (example_writer "none" Nil false) "r1" empty_world =
    (Some ErrNotExist, example_writer "none" Nil false, empty_world).
Proof.
  split; [reflexivity|].
  apply (Reopen_rename_fails (example_writer "none" Nil false) "r1" empty_world ErrNotExist).
  reflexivity.
Defined.

(** C10 at mode "none". *)
Lemma fileCh_nil_unless_lock_witness :
  @NewWriterFromConfig example_env (example_config "none" 2 false) empty_world =
    (Returns (inl (RW_Writer (example_writer "none" Nil false))), started_world AR_recv W_absent) /\
  fileCh (example_writer "none" Nil false) = Nil.
Proof.
  assert (Hnew : @NewWriterFromConfig example_env (example_config "none" 2 false) empty_world =
    (Returns (inl (RW_Writer (example_writer "none" Nil false))), started_world AR_recv W_absent))
    by (vm_compute; reflexivity).
  split; [exact Hnew|].
  apply (@fileCh_nil_unless_lock example_env _ _ _ _ Hnew). left. reflexivity.
Defined.

(** C6 at a writer with one chunk queued: Close succeeds, and after the
    worker has seen the closed ctx and one Write was refused, Write and
    Close are still refused. *)
Lemma closed_sink_witness :
  let '(err, w1, world1) :=
    AsynchronousWriter_Close (example_async [hello]) (started_world AR_absent W_select) in
  let '(rs, rw2, world2) :=
    @run example_env [A_writer true; A_Write hello false] (RW_AsynchronousWriter w1) world1 in
  err = None /\ rs = [R_none; R_Write 0 (Some ErrClosed)] /\
  @exec example_env (A_Write hello false) rw2 world2 = (R_Write 0 (Some ErrClosed), rw2, world2) /\
  @exec example_env A_Close rw2 world2 = (R_Close (Some ErrClosed), rw2, world2).
Proof.
  destruct (AsynchronousWriter_Close (example_async [hello]) (started_world AR_absent W_select))
    as [[err w1] world1] eqn:Hclose.
  destruct (@run example_env [A_writer true; A_Write hello false] (RW_AsynchronousWriter w1) world1)
    as [[rs rw2] world2] eqn:Hrun.
  destruct (@closed_sink example_env _ _ _ _ _ Hclose _ _ _ _ Hrun) as [Hw Hc].
  vm_compute in Hclose. injection Hclose as <- <- <-.
  vm_compute in Hrun. injection Hrun as <- <- <-.
  split; [reflexivity|]. split; [reflexivity|]. split; [apply Hw|apply Hc].
Defined.

(** C4 at b = "a" on a writer just made: the chunk enqueued is one zero
    byte. *)
Lemma fast_path_fresh_pool_witness :
  @AsynchronousWriter_Write example_env false (example_async []) ["a"]%byte
     (started_world AR_absent W_select) =
  (Returns (1, None), example_async [[x00]], started_world AR_absent W_select).
Proof.
  apply (@fast_path_fresh_pool example_env false (example_async []) ["a"%byte]
           (started_world AR_absent W_select)).
  - reflexivity.
  - reflexivity.
  - intros e held. discriminate.
  - simpl. lia.
  - reflexivity.
  - simpl. lia.
Defined.

(** C7 at a copy whose read fails with EIO while the removal of the
    compressed file succeeds: CompressFile returns nil. *)
Lemma CompressFile_copy_fails_witness :
  fst (@CompressFile example_env (example_writer "lock" Made true) 0 "r1"
         (compress_world [Proceed; Proceed; Fail (EIO 5) 0])) = None.
Proof.
  eapply eq_trans.
  - eapply (@CompressFile_copy_fails example_env _ 0 _ "r1" _ _ _ _ _ (EIO 5)).
    + vm_compute. reflexivity.
    + vm_compute. reflexivity.
    + vm_compute. reflexivity.
  - vm_compute. reflexivity.
Defined.

(** The completion of that rotation then logs nothing and goes on to its
    send, although "r1" is gone and "r1.tmp" is left behind. *)
Example completion_hides_copy_error :
  let '(g, world) :=
    @completion example_env (example_writer "lock" Made true) 0 "r1"
       (set_dir {["log/a.log" := 1%nat; "r1" := 0%nat]}
          (compress_world [Proceed; Proceed; Proceed; Fail (EIO 5) 0])) in
  g = G_send 0 "r1" /\ logs world = [] /\ dir world !! "r1" = None /\
  dir world !! "r1.tmp" = Some 0%nat.
Proof. vm_compute. repeat split. Qed.



(** C8 at a file holding "hello-log" and a newline. *)
Lemma compression_roundtrip_witness :
  exists (w1 : Writer) (world1 world2 : World) (k : nat),
    Reopen (example_writer "lock" Made true) "r1" hello_world = (None, w1, world1) /\
    @completion example_env w1 0 "r1" world1 = (G_send 0 "r1", world2) /\
    logs world2 = [] /\
    dir world2 !! "r1" = Some k /\
    stored_decode (contents world2 k) = Some hello /\
    dir world2 !! "r1.tmp" = None.
Proof.
  apply (@compression_roundtrip example_env (example_writer "lock" Made true) "r1"
           hello_world 0 10 0).
  - intros x. reflexivity.
  - reflexivity.
  - reflexivity.
  - reflexivity.
  - reflexivity.
  - simpl. lia.
Defined.

(** C9 at two writes, the first one above the threshold of 8 bytes. *)
Lemma buffered_final_contents_witness :
  exists (i : nat) (rw2 : RollingWriter) (world2 : World),
    dir (started_world AR_recv W_absent) !! "log/a.log" = Some i /\
    @run example_env (writes false [hello; ["a"]%byte] ++ [A_Close])
        (RW_BufferWriter (mkBufferWriter (example_writer "buffer" Nil false) [] 0))
        (started_world AR_recv W_absent) =
      (written [hello; ["a"]%byte] ++ [R_Close None], rw2, world2) /\
    dir world2 !! "log/a.log" = Some i /\
    contents world2 i = contents (started_world AR_recv W_absent) i ++ concat [hello; ["a"]%byte] /\
    (dir empty_world !! "log/a.log" = None -> contents world2 i = concat [hello; ["a"]%byte]).
Proof.
  apply (@buffered_final_contents example_env (example_config "buffer" 2 false) empty_world
           (started_world AR_recv W_absent)
           (RW_BufferWriter (mkBufferWriter (example_writer "buffer" Nil false) [] 0))
           false [hello; ["a"]%byte]).
  - reflexivity.
  - intros path i Hi. simpl in Hi. rewrite lookup_empty in Hi. discriminate.
  - reflexivity.
  - vm_compute. reflexivity.
Defined.

(** C1 as amended, at MaxRemain = 2 and four rotations: two files are
    left. *)
Lemma retention_keeps_MaxRemain_witness :
  exists (rs : list result) (rw' : RollingWriter) (world' : World),
    @run example_env (rotations 0 four_dests hello)
        (RW_LockedWriter (mkLockedWriter (example_writer "lock" Made false)))
        (started_world AR_recv W_absent) = (rs, rw', world') /\
    rollingfilelist (base rw') = ["r3"; "r4"] /\
    on_disk world' four_dests = ["r3"; "r4"] /\
    length (on_disk world' four_dests) = 2%nat.
Proof.
  apply (@retention_keeps_MaxRemain example_env (example_config "lock" 2 false) empty_world
           (started_world AR_recv W_absent)
           (RW_LockedWriter (mkLockedWriter (example_writer "lock" Made false)))
           four_dests hello).
  - reflexivity.
  - intros path i Hi. simpl in Hi. rewrite lookup_empty in Hi. discriminate.
  - reflexivity.
  - simpl. lia.
  - vm_compute. reflexivity.
  - apply (bool_decide_unpack _). vm_compute. exact I.
  - apply (bool_decide_unpack _). vm_compute. exact I.
  - intros Hc. discriminate.
Defined.

(** C1 as stated fails: in mode "lock" with MaxRemain = 2, after four
    rotations serviced to their end the rotated files on disk are "r3" and
    "r4": two of them, not min(4, 2+1) = 3. *)
Lemma retention_keeps_two_not_three :
  match example_run example_env (example_config "lock" 2 false) []
          (rotations 0 four_dests hello) with
  | Some (_, rw, world) =>
      rollingfilelist (base rw) = ["r3"; "r4"] /\
      on_disk world four_dests = ["r3"; "r4"] /\
      length (on_disk world four_dests) <> (4 `min` (2 + 1))%nat
  | None => False
  end.
Proof. vm_compute. repeat split. discriminate. Qed.

(** In mode "none" the same four rotations leave all four files on disk:
    the four goroutines are parked on the send to the nil fileCh, AutoRemove
    has received nothing, and no old handle was closed. *)
Example retention_mode_none_keeps_all :
  match example_run example_env (example_config "none" 2 false) []
          (rotations 0 four_dests hello) with
  | Some (_, rw, world) =>
      rollingfilelist (base rw) = [] /\
      on_disk world four_dests = four_dests /\
      spawned world = [G_send 0 "r1"; G_send 1 "r2"; G_send 2 "r3"; G_send 3 "r4"] /\
      Forall (fun f => f_closed f = false) (handles world)
  | None => False
  end.
Proof. vm_compute. repeat split. repeat constructor. Qed.

(** On a nil fileCh the send never goes through: the goroutine stays where
    it is and the deferred Close of the old file does not run. *)
Lemma completion_send_nil_parks (w : Writer) (oldfile : nat) (file' : string) (world : World) :
  fileCh w = Nil ->
  completion_send w oldfile file' world = (G_send oldfile file', world).
Proof. intros Hch. unfold completion_send, bind, get, ret. by rewrite Hch. Qed.

(** C2 as amended, at a rotation with compression whose rename to "r1.tmp"
    fails: one line is logged, nothing is sent and the old handle is
    closed. *)
Lemma completion_closes_and_notifies_witness :
  let '(err, w1, world1) :=
    Reopen (example_writer "lock" Made true) "r1"
      (set_faults [Proceed; Proceed; Fail (EIO 5) 0] hello_world) in
  err = None /\
  last (spawned world1) = Some (G_completion 0 "r1") /\
  let '(g, world2) := @completion example_env w1 0 "r1" world1 in
  g = G_done /\
  logs world2 = logs world1 ++ [("error in compress rename tempfile", EIO 5)] /\
  autoRemove world2 = AR_recv /\ closed_handle world2 0.
Proof.
  destruct (Reopen (example_writer "lock" Made true) "r1"
              (set_faults [Proceed; Proceed; Fail (EIO 5) 0] hello_world))
    as [[err w1] world1] eqn:HR.
  assert (err = None) as -> by (vm_compute in HR; by injection HR as <- _ _).
  split; [reflexivity|].
  destruct (@completion_closes_and_notifies example_env
              (example_writer "lock" Made true) w1 "r1"
              (set_faults [Proceed; Proceed; Fail (EIO 5) 0] hello_world) world1)
    as [Hlast Hrest].
  - reflexivity.
  - reflexivity.
  - by eexists.
  - exact HR.
  - split; [exact Hlast|]. simpl file in Hrest.
    vm_compute in HR. injection HR as <- <-.
    exact Hrest.
Defined.

(** C2 as stated fails: in mode "lock" with compression, Reopen succeeds
    (the Write that triggered it returns 10, nil), the rename to "r1.tmp"
    fails, the goroutine logs it, closes the old file and ends: nothing was
    sent, AutoRemove still waits and its list is empty. *)
Lemma completion_failed_compression_sends_nothing :
  match example_run example_env (example_config "lock" 2 true)
          (replicate 5 Proceed ++ [Fail (EIO 5) 0])
          (rotation 0 "r1" hello) with
  | Some (rs, rw, world) =>
      rs = [R_none; R_Write 10 None; R_none; R_none; R_none] /\
      spawned world = [G_done] /\
      logs world = [("error in compress rename tempfile", EIO 5)] /\
      rollingfilelist (base rw) = [] /\ autoRemove world = AR_recv /\
      handles world !! 0%nat = Some (mkFile 0 true 0)
  | None => False
  end.
Proof. vm_compute. repeat split. Qed.

(** * Further properties *)

(** ** The constructor *)

Section Constructor.
Context `{Env}.

(** X1. What NewWriterFromConfig returns with a writer, whatever the failure
    schedule: both names of the configuration are non-empty, the writer is of
    the type the mode names, it keeps the configuration and the path given by
    LogFilePath, no trigger is on offer, no rotated file is listed, the
    fields of its strategy are fresh, and its handle is open, at offset 0, on
    the file that the directory has at that path. *)
Theorem NewWriterFromConfig_returns (c : Config) (world world' : World) (rw : RollingWriter) :
  NewWriterFromConfig c world = (Returns (inl rw), world') ->
  LogPath c <> "" /\ FileName c <> "" /\ WriterMode c = mode_of rw /\
  cf (base rw) = c /\ absPath (base rw) = LogFilePath c /\
  fire (base rw) = [] /\ rollingfilelist (base rw) = [] /\ fresh_strategy rw /\
  exists i, handles world' !! file (base rw) = Some (mkFile i false 0) /\
            dir world' !! LogFilePath c = Some i.
Proof.
  unfold NewWriterFromConfig, os_MkdirAll, os_OpenFile, next_fault.
  destruct (decide (LogPath c = "" \/ FileName c = "")) as [|Hne]; [intros; simplify_eq|].
  assert (LogPath c <> "" /\ FileName c <> "") as [Hl Hf] by tauto.
  run_all; intros; simplify_eq; simpl; repeat (split; [done|]);
    eexists; (split; [by apply list_lookup_middle|]);
    first [done | apply lookup_insert_eq].
Qed.

(** X2. When NewWriterFromConfig returns an error it has started no
    goroutine: AutoRemove, the worker and the completions are as before. With
    an empty LogPath or FileName the error is ErrInvalidArgument and nothing
    at all was done. *)
Theorem NewWriterFromConfig_fails (c : Config) (world world' : World) (e : error) :
  NewWriterFromConfig c world = (Returns (inr e), world') ->
  autoRemove world' = autoRemove world /\ worker world' = worker world /\
  spawned world' = spawned world /\
  (LogPath c = "" \/ FileName c = "" -> e = ErrInvalidArgument /\ world' = world).
Proof.
  unfold NewWriterFromConfig, os_MkdirAll, os_OpenFile, next_fault.
  destruct (decide (LogPath c = "" \/ FileName c = "")) as [|Hne].
  - intros [= <- <-]. done.
  - run_all; intros; simplify_eq; simpl; repeat (split; [done|]); tauto.
Qed.
End Constructor.

Lemma wrap64_small (z : Z) : (- 2 ^ 63 <= z < 2 ^ 63)%Z -> wrap64 z = z.
Proof. intros Hz. unfold wrap64. rewrite Z.mod_small; lia. Qed.

Section Constructor2.
Context `{Env}.

Lemma filel_make_ok (c : Config) :
  (MaxRemain c < 2 ^ 44)%Z ->
  (MaxRemain c >? 0)%Z && negb (makeslice_ok 16 (wrap64 (MaxRemain c + 1))) = false.
Proof.
  intros Hk. destruct (MaxRemain c >? 0)%Z eqn:Hpos; [|done]. apply Z.gtb_lt in Hpos.
  rewrite wrap64_small by lia. unfold makeslice_ok.
  replace (0 <=? MaxRemain c + 1)%Z with true by (symmetry; apply Z.leb_le; lia).
  replace (16 * (MaxRemain c + 1) <=? 2 ^ 48)%Z with true
    by (symmetry; apply Z.leb_le; lia). done.
Qed.

(** X3. The trigger engine and the mode are looked at after the log file
    was opened. In a world without failures, when NewManager fails or the
    mode is none of the four, NewWriterFromConfig returns the engine's error,
    or ErrInvalidArgument, and leaves behind the log file at its path and an
    open handle on it that nobody holds; no goroutine was started. *)
Theorem NewWriterFromConfig_late_error (c : Config) (world : World) :
  faults world = [] -> LogPath c <> "" -> FileName c <> "" ->
  (MaxRemain c < 2 ^ 44)%Z ->
  (is_Some (NewManager c) \/
   WriterMode c ∉ ["none"; "lock"; "async"; "buffer"]) ->
  exists (world' : World) (i : nat),
    NewWriterFromConfig c world =
      (Returns (inr (default ErrInvalidArgument (NewManager c))), world') /\
    dir world' !! LogFilePath c = Some i /\
    handles world' = handles world ++ [mkFile i false 0] /\
    autoRemove world' = autoRemove world /\ worker world' = worker world.
Proof.
  intros Hf Hl Hn Hk Hlate. unfold NewWriterFromConfig, os_MkdirAll.
  destruct (decide _) as [|_]; [tauto|].
  unfold bind at 1 2. rewrite nf_next_fault by done. cbv beta iota. unfold ret at 1.
  unfold bind at 1. cbv beta iota.
  assert (Hopen : exists i world', os_OpenFile (LogFilePath c) world =
            (inl (length (handles world)), world') /\
            dir world' !! LogFilePath c = Some i /\
            handles world' = handles world ++ [mkFile i false 0] /\
            autoRemove world' = autoRemove world /\ worker world' = worker world).
  { destruct (dir world !! LogFilePath c) as [i|] eqn:Hd.
    - eexists i, _. split; [by apply nf_os_OpenFile_old|]. done.
    - eexists _, _. split; [by apply nf_os_OpenFile_new|]. simpl.
      split; [apply lookup_insert_eq|done]. }
  destruct Hopen as (i & world' & -> & Hd & Hh & Ha & Hw).
  exists world', i. rewrite filel_make_ok by done.
  destruct (NewManager c) as [e|]; [done|]. simpl.
  destruct Hlate as [[? [=]]|Hm].
  repeat (destruct (decide _) as [Heq|_];
          [exfalso; apply Hm; rewrite Heq; decide_members|]).
  done.
Qed.

(** X4. In mode "buffer" a negative threshold never gives a writer: the
    make of the buffer panics. Whatever the failure schedule the constructor
    does not return a writer, and in a world without failures, with names,
    MaxRemain and the trigger engine in order, it panics. *)
Theorem NewWriterFromConfig_negative_threshold (c : Config) (world : World) :
  WriterMode c = "buffer" ->
  (- 2 ^ 63 <= BufferWriterThershould c * 10 < 0)%Z ->
  (forall rw world', NewWriterFromConfig c world <> (Returns (inl rw), world')) /\
  (faults world = [] -> LogPath c <> "" -> FileName c <> "" ->
   (MaxRemain c < 2 ^ 44)%Z -> NewManager c = None ->
   fst (NewWriterFromConfig c world) = Panics).
Proof.
  intros Hm Ht.
  assert (Hmk : makeslice_ok 1 (wrap64 (BufferWriterThershould c * 10)) = false).
  { rewrite wrap64_small by lia. unfold makeslice_ok.
    replace (0 <=? BufferWriterThershould c * 10)%Z with false; [done|].
    symmetry. apply Z.leb_gt. lia. }
  split.
  - intros rw world'. unfold NewWriterFromConfig, os_MkdirAll, os_OpenFile, next_fault.
    rewrite Hm, Hmk. run_all; intros ?; simplify_eq.
  - intros Hf Hl Hn Hk Hmng. unfold NewWriterFromConfig, os_MkdirAll, os_OpenFile.
    destruct (decide _) as [|_]; [tauto|].
    unfold bind, get, modify, ret. repeat (rewrite nf_next_fault by done; simpl).
    rewrite Hm, Hmng, Hmk.
    destruct (dir world !! LogFilePath c); simpl; by rewrite filel_make_ok.
Qed.
End Constructor2.

(** ** AutoRemove under failures *)

Lemma AutoRemove_loop_trims (k : Z) (l : list string) :
  forall world : World,
    fst (AutoRemove_loop k l world) =
      if (k >=? 0)%Z then drop (length l - Z.to_nat k) l else l.
Proof.
  induction l as [|x l IH]; intros world; simpl AutoRemove_loop.
  - unfold ret. simpl. rewrite ?drop_nil. by destruct (k >=? 0)%Z.
  - simpl length. rewrite Z.geb_leb, Z.gtb_ltb.
    destruct (0 <=? k)%Z eqn:Hk; simpl; [|done].
    apply Z.leb_le in Hk.
    destruct (k <? Z.of_nat (S (length l)))%Z eqn:Hlen.
    + apply Z.ltb_lt in Hlen. unfold bind.
      destruct (os_Remove x world) as [[e|] world1];
        unfold log_Println, modify, ret; cbv beta iota;
        rewrite IH, Z.geb_leb;
        replace (0 <=? k)%Z with true by (symmetry; by apply Z.leb_le);
        replace (S (length l) - Z.to_nat k)%nat with (S (length l - Z.to_nat k)) by lia;
        done.
    + apply Z.ltb_ge in Hlen. unfold ret. simpl.
      replace (S (length l) - Z.to_nat k)%nat with 0%nat by lia. done.
Qed.

Lemma AutoRemove_loop_world (k : Z) (l : list string) :
  forall world : World,
    let world' := snd (AutoRemove_loop k l world) in
    disk world' = disk world /\ handles world' = handles world /\
    spawned world' = spawned world /\ autoRemove world' = autoRemove world /\
    (forall x, dir world' !! x = dir world !! x \/ dir world' !! x = None) /\
    ((k < 0)%Z -> world' = world).
Proof.
  induction l as [|x l IH]; intros world; simpl AutoRemove_loop.
  - unfold ret. simpl. repeat (split; [done|]). split; [by left|done].
  - simpl length. rewrite Z.geb_leb, Z.gtb_ltb.
    destruct (0 <=? k)%Z eqn:Hk; simpl.
    2:{ apply Z.leb_gt in Hk. unfold ret. simpl. repeat (split; [done|]). split; [by left|done]. }
    apply Z.leb_le in Hk.
    destruct (k <? Z.of_nat (S (length l)))%Z eqn:Hlen; simpl.
    2:{ unfold ret. simpl. repeat (split; [done|]). split; [by left|done]. }
    unfold bind.
    set (logged := fun err : goerr =>
           match err with
           | Some e => log_Println "error in auto remove log file" e
           | None => ret tt
           end).
    destruct (os_Remove x world) as [err world1] eqn:Hrm.
    fold (logged err).
    destruct (logged err world1) as [[] world2] eqn:Hlog.
    specialize (IH world2). simpl in IH.
    destruct IH as (Hd & Hh & Hs & Ha & Hdir & _).
    assert (H1 : disk world2 = disk world /\ handles world2 = handles world /\
                 spawned world2 = spawned world /\ autoRemove world2 = autoRemove world /\
                 (forall y, dir world2 !! y = dir world !! y \/ dir world2 !! y = None)).
    { revert Hrm Hlog. unfold logged, os_Remove, log_Println, next_fault, bind, get, modify, ret.
      run_all; intros; simplify_eq; simpl; repeat (split; [done|]); intros y;
        try (by left).
      all: destruct (decide (y = x)) as [->|Hne];
        [right; apply lookup_delete_eq|left; by apply lookup_delete_ne]. }
    destruct H1 as (Hd1 & Hh1 & Hs1 & Ha1 & Hdir1).
    split; [congruence|]. split; [congruence|]. split; [congruence|].
    split; [congruence|]. split; [|lia].
    intros y. destruct (Hdir y) as [Hy|Hy]; [|by right].
    rewrite Hy. apply Hdir1.
Qed.

(** X5. One round of AutoRemove, whatever the failure schedule: the
    destination received is appended to the list; when MaxRemain is not
    negative the list is cut from its front down to MaxRemain entries, an
    entry being dropped whether or not its deletion succeeded; when MaxRemain
    is negative the list only grows and no system call is made. No file
    appears and no file contents or handle changes, and AutoRemove is back on
    its receive. *)
Theorem AutoRemove_trims_list (w w' : Writer) (world world' : World) (f : string) :
  autoRemove world = AR_got f ->
  AutoRemove w world = (w', world') ->
  autoRemove world' = AR_recv /\
  ((0 <= MaxRemain (cf w))%Z ->
   rollingfilelist w' =
     drop (S (length (rollingfilelist w)) - Z.to_nat (MaxRemain (cf w)))
          (rollingfilelist w ++ [f]) /\
   (Z.of_nat (length (rollingfilelist w')) <= MaxRemain (cf w))%Z) /\
  ((MaxRemain (cf w) < 0)%Z ->
   rollingfilelist w' = rollingfilelist w ++ [f] /\
   dir world' = dir world /\ faults world' = faults world /\ logs world' = logs world) /\
  (forall x, dir world' !! x = dir world !! x \/ dir world' !! x = None) /\
  disk world' = disk world /\ handles world' = handles world.
Proof.
  intros Har. unfold AutoRemove, bind, get, modify, ret. rewrite Har.
  pose proof (AutoRemove_loop_trims (MaxRemain (cf w)) (rollingfilelist w ++ [f]) world) as Hl.
  pose proof (AutoRemove_loop_world (MaxRemain (cf w)) (rollingfilelist w ++ [f]) world) as Hw.
  destruct (AutoRemove_loop _ _ world) as [l world1]. simpl in Hl, Hw.
  destruct Hw as (Hd & Hh & Hs & Ha & Hdir & Hneg).
  intros [= <- <-]. simpl. split; [done|].
  rewrite length_app in Hl. simpl in Hl. rewrite Nat.add_1_r in Hl.
  rewrite Z.geb_leb in Hl. split; [|split].
  - intros Hk. replace (0 <=? MaxRemain (cf w))%Z with true in Hl
      by (symmetry; by apply Z.leb_le).
    split; [done|]. rewrite Hl, length_drop, length_app. simpl. lia.
  - intros Hk. replace (0 <=? MaxRemain (cf w))%Z with false in Hl
      by (symmetry; by apply Z.leb_gt).
    rewrite (Hneg Hk). done.
  - done.
Qed.

Lemma AutoRemove_loop_within (k : Z) (l : list string) (world : World) :
  (Z.of_nat (length l) <= k)%Z -> AutoRemove_loop k l world = (l, world).
Proof.
  intros Hk. destruct l as [|x l]; [done|]. cbn [AutoRemove_loop].
  rewrite Z.gtb_ltb.
  replace (k <? Z.of_nat (length (x :: l)))%Z with false by (symmetry; apply Z.ltb_ge; lia).
  by rewrite andb_false_r.
Qed.

(** X6. A deletion that fails is not retried: when the list is at its bound
    and os.Remove of its oldest entry fails, AutoRemove logs the error, drops
    the entry from the list all the same and leaves the file on disk. *)
Theorem AutoRemove_failed_delete_forgotten (w : Writer) (world : World) (f x : string)
    (l : list string) (e : error) (n : nat) (fs : list fault) :
  autoRemove world = AR_got f ->
  rollingfilelist w = x :: l ->
  MaxRemain (cf w) = Z.of_nat (S (length l)) ->
  faults world = Fail e n :: fs ->
  AutoRemove w world =
    (set_rollingfilelist (l ++ [f]) w,
     set_autoRemove AR_recv
       (set_logs (logs world ++ [("error in auto remove log file", e)])
          (set_faults fs world))).
Proof.
  intros Har Hl Hk Hf. unfold AutoRemove, bind, get, modify, ret. rewrite Har, Hl, Hk.
  change ((x :: l) ++ [f]) with (x :: (l ++ [f])). cbn [AutoRemove_loop].
  rewrite Z.geb_leb, Z.gtb_ltb.
  replace (0 <=? Z.of_nat (S (length l)))%Z with true by (symmetry; apply Z.leb_le; lia).
  replace (Z.of_nat (S (length l)) <? Z.of_nat (length (x :: l ++ [f])))%Z with true
    by (symmetry; apply Z.ltb_lt; simpl; rewrite length_app; simpl; lia).
  unfold bind, os_Remove, next_fault, log_Println, modify, ret, bind.
  cbn [andb]. cbv beta iota. rewrite Hf. cbv beta iota.
  rewrite AutoRemove_loop_within by (rewrite length_app; simpl; lia).
  reflexivity.
Qed.

(** ** Calls after Close *)

Lemma file_Close_not_open (h : nat) (world : World) :
  not_open (snd (file_Close h world)) h.
Proof.
  unfold file_Close, bind, get, modify, ret. rewrite next_fault_eq. simpl.
  destruct (handles world !! h) as [[i [] p]|] eqn:Hh; intros i' p'; cbn.
  - by rewrite Hh.
  - rewrite list_lookup_insert_eq; [done|]. by eapply lookup_lt_Some.
  - by rewrite Hh.
Qed.

Lemma file_Write_not_open (h : nat) (b : bytes) (world : World) :
  not_open world h ->
  file_Write h b world = (0, Some ErrFileClosed, set_faults (tail (faults world)) world).
Proof.
  intros Hn. unfold file_Write, bind, get, modify, ret. rewrite next_fault_eq. simpl.
  destruct (handles world !! h) as [[i [] p]|] eqn:Hh; try done.
  by destruct (Hn i p).
Qed.

Lemma file_Close_again (h : nat) (world : World) :
  not_open world h ->
  file_Close h world = (Some ErrFileClosed, set_faults (tail (faults world)) world).
Proof.
  intros Hn. unfold file_Close, bind, get, modify, ret. rewrite next_fault_eq. simpl.
  destruct (handles world !! h) as [[i [] p]|] eqn:Hh; try done.
  by destruct (Hn i p).
Qed.

Section AfterClose.
Context `{Env}.

(** X7. Once Close has returned on a plain or locked writer, whatever it
    returned, a Write that no trigger reaches returns (0, ErrFileClosed) and
    a second Close returns ErrFileClosed; each uses up one entry of the
    failure schedule and changes nothing else. *)
Theorem synchronous_after_Close (rw rw1 : RollingWriter) (world world1 : World)
    (r : result) :
  synchronous rw -> fire (base rw) = [] ->
  Close rw world = (r, rw1, world1) ->
  rw1 = rw /\
  (forall b pick,
      Write pick rw1 b world1 =
        (R_Write 0 (Some ErrFileClosed), rw1, set_faults (tail (faults world1)) world1)) /\
  Close rw1 world1 =
    (R_Close (Some ErrFileClosed), rw1, set_faults (tail (faults world1)) world1).
Proof.
  intros Hs Hf Hc.
  assert (Hn : rw1 = rw /\ not_open world1 (file (base rw))).
  { pose proof (file_Close_not_open (file (base rw)) world) as Hn.
    destruct rw as [w|[w]|?|?]; try done; simpl in *;
      unfold Writer_Close, LockedWriter_Close, bind, ret in Hc; simpl in Hc;
      destruct (file_Close (file w) world) as [err wd]; simpl in *; by simplify_eq. }
  destruct Hn as [-> Hn]. split; [done|].
  destruct rw as [w|[w]|?|?]; try done; simpl in *.
  - split; [intros b pick|].
    + unfold Writer_Write, bind, ret. rewrite Hf. by rewrite file_Write_not_open.
    + unfold Writer_Close, bind, ret. by rewrite file_Close_again.
  - split; [intros b pick|].
    + unfold LockedWriter_Write, bind, ret. simpl. rewrite Hf. by rewrite file_Write_not_open.
    + unfold LockedWriter_Close, bind, ret. simpl. by rewrite file_Close_again.
Qed.

Lemma BufferWriter_Write_not_open (w : BufferWriter) (b : bytes) (world : World) :
  fire (bw_Writer w) = [] -> swaping w = 0 ->
  makeslice_ok 1 (wrap64 (BufferWriterThershould (cf (bw_Writer w)) * 10)) = true ->
  not_open world (file (bw_Writer w)) ->
  exists (pending : bytes) (world' : World),
    BufferWriter_Write w b world =
      (Returns (Z.of_nat (length b), None), mkBufferWriter (bw_Writer w) pending 0, world') /\
    disk world' = disk world /\ handles world' = handles world.
Proof.
  intros Hf Hs Hmk Hn. unfold BufferWriter_Write. rewrite Hf, Hs, Hmk. simpl.
  destruct (_ >? _)%Z; simpl.
  - unfold bind, ret. rewrite file_Write_not_open by done. by eexists _, _.
  - unfold ret. by eexists _, _.
Qed.

(** X8. A buffered writer does not notice that it was closed: after Close,
    every Write that no trigger reaches still returns (len(b), nil), and
    none of the bytes reaches any file. *)
Theorem BufferWriter_Write_after_Close (w : BufferWriter) (world world1 : World)
    (err : goerr) (pick : bool) (bs : list bytes) :
  fire (bw_Writer w) = [] -> swaping w = 0 ->
  makeslice_ok 1 (wrap64 (BufferWriterThershould (cf (bw_Writer w)) * 10)) = true ->
  BufferWriter_Close w world = (err, world1) ->
  exists (rw' : RollingWriter) (world' : World),
    run (writes pick bs) (RW_BufferWriter w) world1 = (written bs, rw', world') /\
    disk world' = disk world1.
Proof.
  intros Hf Hs Hmk Hc.
  assert (Hn : not_open world1 (file (bw_Writer w))).
  { revert Hc. unfold BufferWriter_Close, bind.
    destruct (file_Write _ _ world) as [? wd]. intros Hc.
    pose proof (file_Close_not_open (file (bw_Writer w)) wd) as Hn.
    by rewrite Hc in Hn. }
  clear Hc. revert w world1 Hf Hs Hmk Hn.
  induction bs as [|b bs IH]; intros w world1 Hf Hs Hmk Hn.
  - by eexists _, _.
  - destruct (BufferWriter_Write_not_open w b world1 Hf Hs Hmk Hn)
      as (pending & world2 & HW & Hd & Hh).
    destruct (IH (mkBufferWriter (bw_Writer w) pending 0) world2) as (rw' & world' & HR & Hd');
      try done.
    { intros i p. rewrite Hh. apply Hn. }
    exists rw', world'. split; [|congruence].
    simpl writes. rewrite run_cons. simpl exec. unfold Write, bind. rewrite HW. simpl.
    fold (writes pick bs). rewrite HR. reflexivity.
Qed.
End AfterClose.

(** ** The buffered writer: failed flushes and the size of the buffer *)

Lemma take_min_length {A} (n : nat) (l : list A) : take (n `min` length l) l = take n l.
Proof.
  destruct (Nat.le_ge_cases n (length l)).
  - by rewrite Nat.min_l.
  - rewrite Nat.min_r by done. by rewrite !take_ge.
Qed.

Section BufferedFailures.
Context `{Env}.

(** X9. BufferWriter.Write does not report a failed flush. When the pending
    bytes pass the threshold and the write to the file fails after n bytes,
    the call still returns (len(b), nil) and the buffer is emptied: the file
    has gained the first n pending bytes and the rest is lost. *)
Theorem BufferWriter_Write_hides_flush_failure (w : BufferWriter) (b : bytes)
    (world : World) (e : error) (n : nat) (fs : list fault) (i p : nat) :
  fire (bw_Writer w) = [] -> swaping w = 0 ->
  makeslice_ok 1 (wrap64 (BufferWriterThershould (cf (bw_Writer w)) * 10)) = true ->
  (BufferWriterThershould (cf (bw_Writer w)) < Z.of_nat (length (buf w ++ b)))%Z ->
  faults world = Fail e n :: fs ->
  handles world !! file (bw_Writer w) = Some (mkFile i false p) ->
  (i < length (disk world))%nat ->
  exists world' : World,
    BufferWriter_Write w b world =
      (Returns (Z.of_nat (length b), None), mkBufferWriter (bw_Writer w) [] 0, world') /\
    contents world' i = contents world i ++ take n (buf w ++ b) /\
    faults world' = fs.
Proof.
  intros Hf Hs Hmk Hlen Hfl Hh Hi. unfold BufferWriter_Write. rewrite Hf, Hs, Hmk.
  rewrite Z.gtb_ltb.
  replace (_ <? _)%Z with true by (symmetry; by apply Z.ltb_lt).
  simpl. unfold bind, ret, file_Write, bind, get, modify, ret, next_fault.
  rewrite Hfl. simpl. rewrite Hh. simpl.
  eexists. split; [reflexivity|]. split; [|done].
  unfold contents at 1. simpl. rewrite list_lookup_insert_eq by done. simpl.
  by rewrite take_min_length.
Qed.

Lemma pending_within_Write (w w' : BufferWriter) (b : bytes) (world world' : World)
    (o : outcome (Z * goerr)) :
  pending_within w ->
  BufferWriter_Write w b world = (o, w', world') ->
  o <> Panics ->
  pending_within w' /\ cf (bw_Writer w') = cf (bw_Writer w).
Proof.
  intros [Hs Hb]. unfold BufferWriter_Write, pending_within. rewrite Hs. simpl.
  assert (Hflush : forall (base' : Writer) (world : World), cf base' = cf (bw_Writer w) ->
    (if (Z.of_nat (length (buf w ++ b)) >? BufferWriterThershould (cf base'))%Z && true
     then if makeslice_ok 1 (wrap64 (BufferWriterThershould (cf base') * 10))
          then do! file_Write (file base') (buf w ++ b) in
               ret (Returns (Z.of_nat (length b), None), mkBufferWriter base' [] 0)
          else ret (Panics, mkBufferWriter base' (buf w ++ b) 1)
     else ret (Returns (Z.of_nat (length b), None), mkBufferWriter base' (buf w ++ b) 0))
      world = (o, w', world') ->
    o <> Panics ->
    (swaping w' = 0 /\
     (Z.of_nat (length (buf w')) <= Z.max 0 (BufferWriterThershould (cf (bw_Writer w'))))%Z) /\
    cf (bw_Writer w') = cf (bw_Writer w)).
  { clear world. intros base' world Hcf. rewrite andb_true_r, Z.gtb_ltb.
    destruct (_ <? _)%Z eqn:Hlen.
    - destruct (makeslice_ok 1 _).
      + unfold bind, ret. destruct (file_Write _ _ world) as [? wd].
        intros [= <- <- <-] _. simpl. split; [split; [done|lia]|done].
      + intros [= <- <- <-]. done.
    - apply Z.ltb_ge in Hlen. intros [= <- <- <-] _. simpl. split; [split; [done|lia]|done]. }
  destruct (fire (bw_Writer w)) as [|d offers]; [by apply Hflush|].
  unfold bind.
  pose proof (Reopen_fields (set_fire offers (bw_Writer w)) d world) as (_ & Hcf & _).
  destruct (Reopen _ d world) as [[[e|] base'] world1]; simpl in Hcf.
  - intros [= <- <- <-] _. simpl. by rewrite Hcf.
  - intros HW Ho. by apply (Hflush base' world1).
Qed.

Lemma pending_within_exec (a : action) (w : BufferWriter) (rw' : RollingWriter)
    (world world' : World) (r : result) :
  pending_within w ->
  exec a (RW_BufferWriter w) world = (r, rw', world') ->
  r <> R_panic ->
  exists w', rw' = RW_BufferWriter w' /\ pending_within w' /\
             cf (bw_Writer w') = cf (bw_Writer w).
Proof.
  intros Hp. destruct a; simpl.
  - unfold bind, ret.
    destruct (BufferWriter_Write w b world) as [[o w1] world1] eqn:HW.
    intros [= <- <- <-] Hr. exists w1. split; [done|].
    apply (pending_within_Write w w1 b world world1 o Hp HW).
    intros ->. by apply Hr.
  - unfold bind, ret. destruct (BufferWriter_Close w world).
    intros [= <- <- <-] _. by exists w.
  - unfold ret. intros [= <- <- <-] _. eexists. split; [reflexivity|]. done.
  - unfold bind, ret. destruct (run_completion i _ world).
    intros [= <- <- <-] _. by exists w.
  - unfold AutoRemove, bind, get, modify, ret.
    destruct (autoRemove world).
    1,2: intros [= <- <- <-] _; eexists; (split; [reflexivity|]); by destruct w as [[]].
    destruct (AutoRemove_loop _ _ world). intros [= <- <- <-] _.
    eexists; (split; [reflexivity|]); done.
  - unfold ret. intros [= <- <- <-] _. by exists w.
  - unfold ret. intros [= <- <- <-] _. by exists w.
Qed.

(** X10. The buffer of a buffered writer stays within the threshold: from a
    writer whose pending bytes are within it, after any run in which no call
    panicked, the pending bytes are again no more than the threshold (none,
    when the threshold is negative), whatever failed on the way. *)
Theorem BufferWriter_pending_bounded (l : list action) (w : BufferWriter)
    (rs : list result) (rw' : RollingWriter) (world world' : World) :
  pending_within w ->
  run l (RW_BufferWriter w) world = (rs, rw', world') ->
  R_panic ∉ rs ->
  exists w', rw' = RW_BufferWriter w' /\
    (Z.of_nat (length (buf w')) <= Z.max 0 (BufferWriterThershould (cf (bw_Writer w))))%Z.
Proof.
  revert w rs rw' world world'.
  induction l as [|a l IH]; intros w rs rw' world world' Hp.
  - intros [= <- <- <-] _. exists w. split; [done|]. apply Hp.
  - rewrite run_cons.
    destruct (exec a (RW_BufferWriter w) world) as [[r rw1] world1] eqn:Ha.
    destruct (run l rw1 world1) as [[rs1 rw2] world2] eqn:Hl.
    intros [= <- <- <-] Hr.
    destruct (pending_within_exec a w rw1 world world1 r Hp Ha) as (w1 & -> & Hp1 & Hcf).
    { intros ->. apply Hr. left. }
    destruct (IH w1 rs1 rw2 world1 world2 Hp1 Hl) as (w2 & -> & Hb).
    { intros Hin. apply Hr. by right. }
    exists w2. split; [done|]. by rewrite <- Hcf.
Qed.
End BufferedFailures.

(** ** Plain and locked writers: writes and rotation *)

Section Synchronous.
Context `{Env}.

Lemma synchronous_Write_no_trigger (pick : bool) (rw : RollingWriter) (b : bytes)
    (world : World) (i p : nat) :
  synchronous rw -> fire (base rw) = [] -> faults world = [] ->
  handles world !! file (base rw) = Some (mkFile i false p) ->
  Write pick rw b world =
    (R_Write (Z.of_nat (length b)) None, rw,
     set_handles (<[file (base rw) := mkFile i false (length (contents world i ++ b))]>
                    (handles world))
       (set_disk (<[i := contents world i ++ b]> (disk world)) world)).
Proof.
  intros Hs Hf Hnf Hh. destruct rw as [w|[w]|?|?]; try done; simpl in *.
  - unfold Writer_Write, bind, ret. rewrite Hf. by rewrite (nf_file_Write _ i p).
  - unfold LockedWriter_Write, bind, ret. simpl. rewrite Hf.
    by rewrite (nf_file_Write _ i p).
Qed.

(** X11. A plain or a locked writer that no trigger reaches, in a world
    without failures: every Write returns (len(b), nil) and the file holds
    what it held before followed by the writes in call order. *)
Theorem synchronous_writes_append (pick : bool) (bs : list bytes) (rw : RollingWriter)
    (world : World) (i p : nat) :
  synchronous rw -> fire (base rw) = [] -> faults world = [] ->
  handles world !! file (base rw) = Some (mkFile i false p) ->
  (i < length (disk world))%nat ->
  exists world' : World,
    run (writes pick bs) rw world = (written bs, rw, world') /\
    contents world' i = contents world i ++ concat bs /\
    dir world' = dir world.
Proof.
  intros Hs Hf. revert world p.
  induction bs as [|b bs IH]; intros world p Hnf Hh Hi.
  - exists world. simpl. by rewrite app_nil_r.
  - pose proof (synchronous_Write_no_trigger pick rw b world i p Hs Hf Hnf Hh) as HW.
    set (world1 := set_handles _ _) in HW.
    destruct (IH world1 (length (contents world i ++ b))) as (world' & HR & Hc & Hd).
    + done.
    + simpl. apply list_lookup_insert_eq. by eapply lookup_lt_Some.
    + simpl. by rewrite length_insert.
    + exists world'. split; [|split].
      * simpl writes. rewrite run_cons. simpl exec. rewrite HW.
        fold (writes pick bs). by rewrite HR.
      * rewrite Hc. unfold contents at 1. simpl. rewrite list_lookup_insert_eq by done.
        simpl. by rewrite <- app_assoc.
      * by rewrite Hd.
Qed.

(** X12. The Write of a plain or a locked writer that takes a trigger, in a
    world without failures: it returns (len(b), nil); the file written so
    far is now at the destination with its contents as they were, its handle
    still open, and a new file at the writer's path holds exactly b, through
    a new handle that the writer now uses; the completion of the rotation has
    been started. *)
Theorem synchronous_Write_rotates (pick : bool) (rw : RollingWriter) (b : bytes)
    (world : World) (d : string) (offers : list string) (i p : nat) :
  synchronous rw -> fire (base rw) = d :: offers -> faults world = [] ->
  handles world !! file (base rw) = Some (mkFile i false p) ->
  dir world !! absPath (base rw) = Some i ->
  (i < length (disk world))%nat ->
  d <> absPath (base rw) ->
  exists (rw' : RollingWriter) (world' : World) (j : nat),
    Write pick rw b world = (R_Write (Z.of_nat (length b)) None, rw', world') /\
    fire (base rw') = offers /\ file (base rw') <> file (base rw) /\
    dir world' !! d = Some i /\ contents world' i = contents world i /\
    handles world' !! file (base rw) = Some (mkFile i false p) /\
    dir world' !! absPath (base rw) = Some j /\ j <> i /\ contents world' j = b /\
    handles world' !! file (base rw') = Some (mkFile j false (length b)) /\
    spawned world' = spawned world ++ [G_completion (file (base rw)) d].
Proof.
  intros Hs Hf Hnf Hh Hd Hi Hne.
  assert (Hlt : (file (base rw) < length (handles world))%nat) by by eapply lookup_lt_Some.
  pose proof (nf_Reopen (set_fire offers (base rw)) d i world Hnf Hd Hne) as HR.
  set (world1 := set_spawned _ _) in HR.
  assert (Hh1 : handles world1 !! length (handles world)
                = Some (mkFile (length (disk world)) false 0)).
  { simpl. by apply list_lookup_middle. }
  assert (HW : file_Write (length (handles world)) b world1 = _)
    by (by apply (nf_file_Write _ _ _ b world1 Hnf Hh1)).
  set (world2 := set_handles _ _) in HW.
  assert (Hc : contents world1 (length (disk world)) = []).
  { unfold contents. simpl. by rewrite list_lookup_middle. }
  assert (Hpost :
    dir world2 !! d = Some i /\ contents world2 i = contents world i /\
    handles world2 !! file (base rw) = Some (mkFile i false p) /\
    dir world2 !! absPath (base rw) = Some (length (disk world)) /\
    contents world2 (length (disk world)) = b /\
    handles world2 !! length (handles world)
      = Some (mkFile (length (disk world)) false (length b)) /\
    spawned world2 = spawned world ++ [G_completion (file (base rw)) d]).
  { subst world2. rewrite Hc. simpl. repeat split.
    - rewrite lookup_insert_ne by done. apply lookup_insert_eq.
    - unfold contents. simpl. rewrite list_lookup_insert_ne by lia.
      by rewrite lookup_app_l by done.
    - rewrite list_lookup_insert_ne by lia. by rewrite lookup_app_l by done.
    - apply lookup_insert_eq.
    - unfold contents. simpl. rewrite list_lookup_insert_eq; [done|].
      rewrite length_app. simpl. lia.
    - rewrite list_lookup_insert_eq; [done|]. rewrite length_app. simpl. lia. }
  destruct Hpost as (P1 & P2 & P3 & P4 & P5 & P6 & P7).
  destruct rw as [w|[w]|?|?]; try done; simpl in *.
  - eexists _, world2, (length (disk world)). split.
    + unfold Writer_Write, bind, ret. rewrite Hf, HR. simpl. by rewrite HW.
    + simpl. repeat (split; [first [done | lia]|]). done.
  - eexists _, world2, (length (disk world)). split.
    + unfold LockedWriter_Write, bind, ret. simpl. rewrite Hf, HR. simpl. by rewrite HW.
    + simpl. repeat (split; [first [done | lia]|]). done.
Qed.

(** X13. A buffered writer does not flush before it rotates. When its Write
    takes a trigger, in a world without failures, the bytes that were pending
    go with b to the new file: the rotated file keeps its contents, and the
    new file followed by what is still pending is the old pending bytes
    followed by b. *)
Theorem BufferWriter_rotation_carries_pending (w : BufferWriter) (b : bytes)
    (world : World) (d : string) (offers : list string) (i p : nat) :
  fire (bw_Writer w) = d :: offers -> swaping w = 0 ->
  makeslice_ok 1 (wrap64 (BufferWriterThershould (cf (bw_Writer w)) * 10)) = true ->
  faults world = [] ->
  handles world !! file (bw_Writer w) = Some (mkFile i false p) ->
  dir world !! absPath (bw_Writer w) = Some i ->
  (i < length (disk world))%nat ->
  d <> absPath (bw_Writer w) ->
  exists (w' : BufferWriter) (world' : World) (j : nat),
    BufferWriter_Write w b world = (Returns (Z.of_nat (length b), None), w', world') /\
    dir world' !! d = Some i /\ contents world' i = contents world i /\
    dir world' !! absPath (bw_Writer w) = Some j /\ j <> i /\
    contents world' j ++ buf w' = buf w ++ b.
Proof.
  intros Hf Hs Hmk Hnf Hh Hd Hi Hne.
  assert (Hlt : (file (bw_Writer w) < length (handles world))%nat)
    by by eapply lookup_lt_Some.
  pose proof (nf_Reopen (set_fire offers (bw_Writer w)) d i world Hnf Hd Hne) as HR.
  set (world1 := set_spawned _ _) in HR.
  assert (Hh1 : handles world1 !! length (handles world)
                = Some (mkFile (length (disk world)) false 0)).
  { simpl. by apply list_lookup_middle. }
  assert (Hc : contents world1 (length (disk world)) = []).
  { unfold contents. simpl. by rewrite list_lookup_middle. }
  unfold BufferWriter_Write. rewrite Hf. unfold bind at 1. rewrite HR.
  cbn [set_file set_fire cf file]. rewrite Hs, Hmk.
  destruct (_ && _).
  - unfold bind, ret. rewrite (nf_file_Write _ _ _ _ world1 Hnf Hh1). rewrite Hc.
    eexists _, _, (length (disk world)). split; [reflexivity|]. simpl. repeat split.
    + rewrite lookup_insert_ne by done. apply lookup_insert_eq.
    + unfold contents. simpl. rewrite list_lookup_insert_ne by lia.
      by rewrite lookup_app_l by done.
    + apply lookup_insert_eq.
    + lia.
    + unfold contents. simpl. rewrite list_lookup_insert_eq; [by rewrite app_nil_r|].
      rewrite length_app. simpl. lia.
  - unfold ret. eexists _, _, (length (disk world)). split; [reflexivity|].
    simpl. repeat split.
    + rewrite lookup_insert_ne by done. apply lookup_insert_eq.
    + unfold contents. simpl. by rewrite lookup_app_l by done.
    + apply lookup_insert_eq.
    + lia.
    + unfold contents. simpl. by rewrite list_lookup_middle.
Qed.
End Synchronous.

(** ** A rotation whose new file cannot be opened *)

(** X14. When the rename of Reopen succeeds and the open of the new file
    fails, Reopen returns that error with the writer as it was and no
    completion started, but the rename stays: the log file is now at the
    destination, nothing is at the writer's path, and the writer's handle
    still writes to the renamed file. A later rotation whose rename is let
    through then fails with ErrNotExist. *)
Theorem Reopen_open_fails (w : Writer) (d d2 : string) (world : World) (e : error)
    (n i : nat) (fs : list fault) :
  faults world = Proceed :: Fail e n :: fs ->
  dir world !! absPath w = Some i ->
  d <> absPath w ->
  exists world' : World,
    Reopen w d world = (Some e, w, world') /\
    dir world' !! d = Some i /\ dir world' !! absPath w = None /\
    disk world' = disk world /\ handles world' = handles world /\
    spawned world' = spawned world /\ faults world' = fs /\
    (default Proceed (head fs) = Proceed ->
     fst (Reopen w d2 world') = (Some ErrNotExist, w)).
Proof.
  intros Hf Hd Hne. unfold Reopen, os_Rename, os_OpenFile, bind, get, modify, ret, next_fault.
  rewrite Hf. simpl. rewrite Hd. simpl.
  eexists. split; [reflexivity|]. simpl.
  split; [apply lookup_insert_eq|].
  assert (Hgone : <[d := i]> (delete (absPath w) (dir world)) !! absPath w = None).
  { rewrite lookup_insert_ne by done. apply lookup_delete_eq. }
  split; [exact Hgone|]. repeat (split; [done|]).
  intros Hp. destruct fs as [|[|e' n'] fs']; simpl in *; try done; by rewrite Hgone.
Qed.

(** ** The asynchronous writer: a Write that takes a trigger *)

Section AsyncRotation.
Context `{Env}.

Lemma enqueue_chunks_cuts (room : nat) :
  forall (b : bytes) (q : list bytes) (world : World),
    exists (chunks : list bytes) (rest : bytes) (sent : bool) (world' : World),
      enqueue_chunks room b q world = (q ++ chunks, sent, world') /\
      concat chunks ++ rest = b /\ (length chunks <= room)%nat /\
      (if sent then rest = [] else rest <> [] /\ length chunks = room) /\
      dir world' = dir world /\ disk world' = disk world /\
      handles world' = handles world /\ spawned world' = spawned world /\
      worker world' = worker world.
Proof.
  induction room as [|room IH]; intros b q world.
  - destruct b as [|x b].
    + exists [], [], true, world. simpl. rewrite app_nil_r. by repeat split.
    + exists [], (x :: b), false. simpl. unfold bind, ret.
      destruct (pool_Get world) as [pb world1] eqn:Hg. exists world1.
      rewrite app_nil_r. repeat (split; [done|]).
      revert Hg. unfold pool_Get. destruct (pool world); intros [= <- <-]; done.
  - destruct b as [|x b].
    + exists [], [], true, world. simpl. rewrite app_nil_r. repeat split; lia.
    + cbn [enqueue_chunks]. unfold bind.
      destruct (pool_Get world) as [pb world1] eqn:Hg.
      set (n := (length pb `min` length (x :: b))%nat).
      destruct (IH (drop n (x :: b)) (q ++ [take n (x :: b)]) world1)
        as (chunks & rest & sent & world' & He & Hc & Hl & Hs & Hw).
      exists (take n (x :: b) :: chunks), rest, sent, world'.
      rewrite He, <- app_assoc. split; [done|].
      split; [simpl concat; rewrite <- app_assoc, Hc; apply take_drop|].
      split; [simpl; lia|].
      split; [destruct sent; [done|]; destruct Hs; split; [done|simpl; lia]|].
      assert (Hw1 : dir world1 = dir world /\ disk world1 = disk world /\
                    handles world1 = handles world /\ spawned world1 = spawned world /\
                    worker world1 = worker world).
      { revert Hg. unfold pool_Get. destruct (pool world); intros [= <- <-]; done. }
      destruct Hw as (? & ? & ? & ? & ?). destruct Hw1 as (? & ? & ? & ? & ?).
      repeat split; congruence.
Qed.

(** X15. A Write of an asynchronous writer that takes a trigger, whatever the
    failure schedule. When Reopen fails it returns (0, err) and enqueues
    nothing. Otherwise b is cut into chunks that are appended to the queue in
    order: when the call returns, it returns (len(b), nil) and the chunks
    make up b; when it parks, the queue is full and the chunks make up a
    strict prefix of b. It never panics. *)
Theorem AsynchronousWriter_Write_rotation_chunks (pick : bool)
    (w w' : AsynchronousWriter) (b : bytes) (world world' : World) (d : string)
    (offers : list string) (o : outcome (Z * goerr)) :
  closed w = 0 -> fire (aw_Writer w) = d :: offers ->
  (forall e held, worker world <> W_send e held) \/ pick = false ->
  (length (queue w) <= QueueSize)%nat ->
  AsynchronousWriter_Write pick w b world = (o, w', world') ->
  match o with
  | Returns (n, None) =>
      n = Z.of_nat (length b) /\
      exists chunks, queue w' = queue w ++ chunks /\ concat chunks = b /\
                     (length (queue w') <= QueueSize)%nat
  | Returns (n, Some e) =>
      n = 0 /\ queue w' = queue w /\
      fst (fst (Reopen (set_fire offers (aw_Writer w)) d world)) = Some e
  | Parks =>
      exists chunks rest, queue w' = queue w ++ chunks /\ rest <> [] /\
                          concat chunks ++ rest = b /\ length (queue w') = QueueSize
  | Panics => False
  end.
Proof.
  intros Hc Hf Hw Hq. unfold AsynchronousWriter_Write. rewrite Hc, Hf. simpl.
  unfold bind at 1. unfold get.
  assert (Hfire :
    (let! '(err, base') := Reopen (set_fire offers (aw_Writer w)) d in
     match err with
     | Some e => ret (Returns (0, Some e), set_aw_Writer base' w)
     | None =>
         let! '(q, sent) :=
           enqueue_chunks (QueueSize - length (queue (set_aw_Writer base' w))) b
             (queue (set_aw_Writer base' w)) in
         ret (if sent : bool then Returns (Z.of_nat (length b), None) else Parks,
              set_queue q (set_aw_Writer base' w))
     end) world = (o, w', world') ->
    match o with
    | Returns (n, None) =>
        n = Z.of_nat (length b) /\
        exists chunks, queue w' = queue w ++ chunks /\ concat chunks = b /\
                       (length (queue w') <= QueueSize)%nat
    | Returns (n, Some e) =>
        n = 0 /\ queue w' = queue w /\
        fst (fst (Reopen (set_fire offers (aw_Writer w)) d world)) = Some e
    | Parks =>
        exists chunks rest, queue w' = queue w ++ chunks /\ rest <> [] /\
                            concat chunks ++ rest = b /\ length (queue w') = QueueSize
    | Panics => False
    end).
  { unfold bind.
    destruct (Reopen (set_fire offers (aw_Writer w)) d world) as [[[e|] base'] world1].
    - intros [= <- <- <-]. done.
    - simpl queue.
      destruct (enqueue_chunks_cuts (QueueSize - length (queue w)) b (queue w) world1)
        as (chunks & rest & sent & world2 & -> & Hcat & Hlen & Hs & _).
      intros [= <- <- <-]. destruct sent.
      + subst rest. rewrite app_nil_r in Hcat. split; [done|].
        exists chunks. simpl. split; [done|]. split; [done|].
        rewrite length_app. lia.
      + destruct Hs as [Hr Hl]. exists chunks, rest. simpl.
        split; [done|]. split; [done|]. split; [done|]. rewrite length_app. lia. }
  destruct (worker world) as [| |e held|] eqn:Hwk; try exact Hfire.
  destruct Hw as [Hw| ->]; [by destruct (Hw e held)|exact Hfire].
Qed.
End AsyncRotation.

(** ** The worker of the asynchronous writer *)

Section Worker.
Context `{Env}.

Lemma worker_drains (pick : bool) (base' : Writer) (c : bool) (k : Z) (i : nat)
    (q : list bytes) :
  c = false \/ pick = false ->
  forall (world : World) (p : nat),
    worker world = W_select -> faults world = [] ->
    handles world !! file base' = Some (mkFile i false p) ->
    (i < length (disk world))%nat ->
    exists world' : World,
      run (replicate (length q) (A_writer pick))
          (RW_AsynchronousWriter (mkAsynchronousWriter base' c q k)) world =
        (replicate (length q) R_none,
         RW_AsynchronousWriter (mkAsynchronousWriter base' c [] k), world') /\
      contents world' i = contents world i ++ concat q /\
      pool world' = rev q ++ pool world /\ worker world' = W_select /\
      dir world' = dir world.
Proof.
  intros Hpick. induction q as [|b q IH]; intros world p Hw Hnf Hh Hi.
  - exists world. simpl. by rewrite app_nil_r.
  - set (world1 := set_pool (b :: pool world)
       (set_handles (<[file base' := mkFile i false (length (contents world i ++ b))]>
                       (handles world))
          (set_disk (<[i := contents world i ++ b]> (disk world)) world))).
    assert (He : exec (A_writer pick)
                   (RW_AsynchronousWriter (mkAsynchronousWriter base' c (b :: q) k)) world =
                 (R_none, RW_AsynchronousWriter (mkAsynchronousWriter base' c q k), world1)).
    { simpl. unfold writer, bind, get, ret. rewrite Hw. simpl.
      assert (Hchunk : writer_chunk (mkAsynchronousWriter base' c (b :: q) k) b world
                       = (tt, world1)).
      { unfold writer_chunk, bind, pool_Put, modify. simpl.
        by rewrite (nf_file_Write _ i p). }
      destruct Hpick as [-> | ->]; [|destruct c]; unfold bind, ret; by rewrite Hchunk. }
    destruct (IH world1 (length (contents world i ++ b))) as (world' & HR & Hc & Hp & Hw' & Hd).
    + done.
    + done.
    + simpl. apply list_lookup_insert_eq. by eapply lookup_lt_Some.
    + simpl. by rewrite length_insert.
    + exists world'. split; [|split; [|split; [|split]]].
      * simpl replicate. rewrite run_cons, He, HR. reflexivity.
      * rewrite Hc. unfold contents at 1. simpl. rewrite list_lookup_insert_eq by done.
        simpl. by rewrite <- app_assoc.
      * rewrite Hp. simpl. by rewrite <- app_assoc.
      * done.
      * by rewrite Hd.
Qed.

(** X16. The worker of an asynchronous writer writes the queued chunks in
    the order they were queued. In a world without failures, with the worker
    at its select, as many rounds of the worker as there are chunks append
    the chunks to the file in queue order, leave the queue empty and return
    every buffer to the pool. *)
Theorem writer_drains_in_order (pick : bool) (w : AsynchronousWriter) (world : World)
    (i p : nat) :
  ctx w = false \/ pick = false ->
  worker world = W_select -> faults world = [] ->
  handles world !! file (aw_Writer w) = Some (mkFile i false p) ->
  (i < length (disk world))%nat ->
  exists world' : World,
    run (replicate (length (queue w)) (A_writer pick)) (RW_AsynchronousWriter w) world =
      (replicate (length (queue w)) R_none, RW_AsynchronousWriter (set_queue [] w), world') /\
    contents world' i = contents world i ++ concat (queue w) /\
    pool world' = rev (queue w) ++ pool world /\ worker world' = W_select.
Proof.
  intros Hpick Hw Hnf Hh Hi. destruct w as [base' c q k]. simpl in *.
  destruct (worker_drains pick base' c k i q Hpick world p Hw Hnf Hh Hi)
    as (world' & HR & Hc & Hp & Hw' & _).
  exists world'. by rewrite HR.
Qed.

(** X17. How a failed write of the worker reaches the caller. When the
    worker's write of a chunk fails and nobody is receiving on the error
    channel, the worker parks on its send holding the chunk's buffer. The
    next Write that no trigger reaches takes that error: it returns (0, err)
    for the earlier chunk and its own bytes are not enqueued; the worker is
    back at its select and the buffer back in the pool. *)
Theorem writer_error_taken_by_next_Write (pick1 pick2 : bool) (w : AsynchronousWriter)
    (world : World) (c b : bytes) (q : list bytes) (e : error) (n : nat)
    (fs : list fault) (i p : nat) :
  closed w = 0 -> ctx w = false -> fire (aw_Writer w) = [] -> queue w = c :: q ->
  worker world = W_select -> err_waiters world = 0%nat ->
  faults world = Fail e n :: fs ->
  handles world !! file (aw_Writer w) = Some (mkFile i false p) ->
  exists world1 world2 : World,
    exec (A_writer pick1) (RW_AsynchronousWriter w) world =
      (R_none, RW_AsynchronousWriter (set_queue q w), world1) /\
    worker world1 = W_send e c /\
    exec (A_Write b pick2) (RW_AsynchronousWriter (set_queue q w)) world1 =
      (R_Write 0 (Some e), RW_AsynchronousWriter (set_queue q w), world2) /\
    worker world2 = W_select /\ pool world2 = c :: pool world /\
    disk world2 = disk world1 /\ faults world2 = fs.
Proof.
  intros Hc Hx Hf Hq Hw He Hfl Hh. destruct w as [base' cx qq k]. simpl in *. subst.
  unfold writer, writer_chunk, file_Write, err_deliver, next_fault, pool_Put,
    bind, get, modify, ret.
  rewrite Hw. simpl. rewrite Hfl. simpl. rewrite Hh. simpl. rewrite He. simpl.
  eexists _, _. split; [reflexivity|]. split; [reflexivity|].
  unfold AsynchronousWriter_Write, pool_Put, bind, get, modify, ret. simpl.
  rewrite Hf. simpl. done.
Qed.
End Worker.

(** ** The error channel *)

Section ErrorChan.
Context `{Env}.

(** X19. With a receiver waiting on the error channel, a failed write of the
    worker is handed to it and the worker goes on: the chunk leaves the queue,
    its buffer returns to the pool, the worker is at its select again, and a
    later Write is not told of the error. *)
Theorem writer_error_handed_to_receiver (pick : bool) (w : AsynchronousWriter)
    (world : World) (c : bytes) (q : list bytes) (e : error) (n k : nat)
    (fs : list fault) (i p : nat) :
  ctx w = false -> queue w = c :: q ->
  worker world = W_select -> err_waiters world = S k ->
  faults world = Fail e n :: fs ->
  handles world !! file (aw_Writer w) = Some (mkFile i false p) ->
  (i < length (disk world))%nat ->
  exists world' : World,
    exec (A_writer pick) (RW_AsynchronousWriter w) world =
      (R_none, RW_AsynchronousWriter (set_queue q w), world') /\
    worker world' = W_select /\ err_seen world' = err_seen world ++ [e] /\
    err_waiters world' = k /\ pool world' = c :: pool world /\
    contents world' i = contents world i ++ take n c.
Proof.
  intros Hx Hq Hw He Hfl Hh Hi. destruct w as [base' cx qq kk]. simpl in *. subst.
  unfold writer, writer_chunk, file_Write, err_deliver, next_fault, pool_Put,
    bind, get, modify, ret.
  rewrite Hw. simpl. rewrite Hfl. simpl. rewrite Hh. simpl. rewrite He. simpl.
  eexists. split; [reflexivity|]. simpl. repeat (split; [done|]).
  unfold contents at 1. simpl. rewrite list_lookup_insert_eq by done. simpl.
  by rewrite take_min_length.
Qed.
End ErrorChan.

(** ** What a failed compression leaves on disk *)

Section Leftovers.
Context `{Env}.

(** X20. When compression is on and the compressed file cannot be opened,
    the completion of a rotation logs the error and notifies nobody, and the
    rotated file is left under its temporary name: nothing is at the
    destination, and the data are at the destination followed by ".tmp". *)
Theorem completion_open_fails_leaves_tmp (w : Writer) (oldfile : nat) (d : string)
    (world : World) (e : error) (n i : nat) (fs : list fault) :
  Compress (cf w) = true ->
  faults world = Proceed :: Fail e n :: fs ->
  dir world !! d = Some i ->
  exists world' : World,
    completion w oldfile d world = (G_done, world') /\
    dir world' !! d = None /\ dir world' !! (d +:+ ".tmp") = Some i /\
    disk world' = disk world /\
    logs world' = logs world ++ [("error in compress log file", e)] /\
    autoRemove world' = autoRemove world /\ spawned world' = spawned world.
Proof.
  intros Hc Hf Hd.
  unfold completion, CompressFile, os_Rename, os_OpenFile, log_Println.
  rewrite Hc. unfold bind, get, modify, ret, next_fault. rewrite Hf. simpl.
  rewrite Hd. simpl.
  set (world1 := set_logs _ _).
  destruct (file_Close oldfile world1) as [err world'] eqn:Hclose.
  exists world'. split; [reflexivity|].
  assert (Hfr : dir world' = dir world1 /\ disk world' = disk world1 /\
                logs world' = logs world1 /\ autoRemove world' = autoRemove world1 /\
                spawned world' = spawned world1).
  { revert Hclose. unfold file_Close, bind, get, modify, ret, next_fault.
    run_all; intros; simplify_eq; done. }
  destruct Hfr as (-> & -> & -> & -> & ->). simpl.
  split; [|split; [apply lookup_insert_eq|done]].
  rewrite lookup_insert_ne by (symmetry; apply tmp_name_fresh). apply lookup_delete_eq.
Qed.
End Leftovers.

(** ** Failures that the caller is told little about *)

Section Dropped.
Context `{Env}.

(** X21. When the rename of a rotation fails, the Write that took the
    trigger writes nothing: for every kind of writer it returns (0, err),
    the trigger is used up, and the world differs only by the entry of the
    failure schedule that the rename consumed. *)
Theorem Write_rotation_fails_writes_nothing (pick : bool) (rw : RollingWriter)
    (b : bytes) (world : World) (d : string) (offers : list string) (e : error)
    (n : nat) (fs : list fault) :
  fire (base rw) = d :: offers ->
  takes_trigger pick rw world ->
  faults world = Fail e n :: fs ->
  Write pick rw b world =
    (R_Write 0 (Some e), set_base (set_fire offers (base rw)) rw, set_faults fs world).
Proof.
  intros Hf Ht Hfl.
  assert (HR : forall w : Writer, Reopen w d world = (Some e, w, set_faults fs world)).
  { intros w. unfold Reopen, os_Rename, bind, ret, next_fault. by rewrite Hfl. }
  destruct rw as [w|[w]|w|w]; simpl in *.
  - unfold Writer_Write, bind, ret. by rewrite Hf, HR.
  - unfold LockedWriter_Write, bind, ret. simpl. by rewrite Hf, HR.
  - destruct Ht as [Hc Hw]. unfold AsynchronousWriter_Write, bind, get, ret.
    rewrite Hc, Hf. simpl.
    destruct (worker world) as [| |e' held|] eqn:Hwk; rewrite ?HR; try done.
    destruct Hw as [-> |Hw]; [by rewrite HR|by destruct (Hw e' held)].
  - unfold BufferWriter_Write, bind, ret. by rewrite Hf, HR.
Qed.

(** X22. Close of an asynchronous writer gives up at the first failed write
    that nobody receives. When the write of the first queued chunk fails
    after n bytes and no receiver waits on the error channel, the other
    chunks are never written and stay in the queue, the file has gained only
    those n bytes, and Close returns what closing the file returns, not the
    error of the write. *)
Theorem Close_gives_up_on_failed_write (w : AsynchronousWriter) (world : World)
    (c : bytes) (q : list bytes) (e : error) (n : nat) (fs : list fault) (i p : nat) :
  closed w = 0 -> queue w = c :: q ->
  err_waiters world = 0%nat ->
  faults world = Fail e n :: fs ->
  handles world !! file (aw_Writer w) = Some (mkFile i false p) ->
  (i < length (disk world))%nat ->
  exists world' : World,
    AsynchronousWriter_Close w world =
      (match head fs with Some (Fail e' _) => Some e' | _ => None end,
       mkAsynchronousWriter (aw_Writer w) true q 1, world') /\
    contents world' i = contents world i ++ take n c /\
    pool world' = c :: pool world /\
    closed_handle world' (file (aw_Writer w)).
Proof.
  intros Hc Hq He Hfl Hh Hi. destruct w as [base' cx qq kk]. simpl in *. subst.
  assert (Hlt : (file base' < length (handles world))%nat) by by eapply lookup_lt_Some.
  unfold AsynchronousWriter_Close, onClose. simpl.
  unfold bind, ret. simpl. unfold bind, ret, file_Write, err_deliver, pool_Put,
    next_fault, bind, get, modify, ret.
  rewrite Hfl. simpl. rewrite Hh. simpl. rewrite He. simpl.
  unfold file_Close, next_fault, bind, get, modify, ret. simpl.
  destruct fs as [|[|e' n'] fs']; simpl; rewrite list_lookup_insert_eq by done; simpl;
    (eexists; split; [reflexivity|]; simpl; split; [|split; [done|]]);
    try (unfold contents at 1; simpl; rewrite list_lookup_insert_eq by done; simpl;
         by rewrite take_min_length);
    eexists _, _; simpl; apply list_lookup_insert_eq; by rewrite length_insert.
Qed.

(** X23. CompressFile leaves an archive behind when it fails early. When the
    compressed file is opened and the seek on the rotated file fails,
    CompressFile returns the error of the seek, and the deferred Close of the
    gzip writer has still written an archive of the empty input to the
    compressed file, which stays on disk, closed. *)
Theorem CompressFile_seek_fails_leaves_archive (w : Writer) (oldfile : nat)
    (cmpname : string) (world : World) (e : error) (n i p : nat) :
  faults world = [Proceed; Fail e n] ->
  dir world !! cmpname = None ->
  handles world !! oldfile = Some (mkFile i false p) ->
  exists (world' : World) (j : nat),
    CompressFile w oldfile cmpname world = (Some e, world') /\
    dir world' !! cmpname = Some j /\
    contents world' j = gz_encode [] /\
    closed_handle world' (length (handles world)) /\
    handles world' !! oldfile = Some (mkFile i false p).
Proof.
  intros Hfl Hd Hh.
  assert (Hlt : (oldfile < length (handles world))%nat) by by eapply lookup_lt_Some.
  unfold CompressFile, os_OpenFile, file_Seek0, gzip_Close, gzip_flush, gzip_NewWriter.
  unfold bind, get, modify, ret, next_fault. rewrite Hfl. simpl. rewrite Hd. simpl.
  rewrite lookup_app_l by done. rewrite Hh. simpl.
  rewrite firstn_all.
  destruct (gz_encode []) as [|x enc] eqn:Henc; simpl.
  - unfold file_Close, bind, get, modify, ret, next_fault. simpl.
    rewrite list_lookup_middle by done. simpl.
    eexists _, (length (disk world)). split; [reflexivity|]. simpl.
    split; [apply lookup_insert_eq|]. split.
    + unfold contents. simpl. by rewrite list_lookup_middle.
    + split.
      * eexists _, _. simpl. apply list_lookup_insert_eq. rewrite length_app. simpl. lia.
      * rewrite list_lookup_insert_ne by lia. by rewrite lookup_app_l.
  - unfold file_Write, file_Close, bind, get, modify, ret, next_fault. simpl.
    rewrite list_lookup_middle by done. simpl.
    rewrite list_lookup_insert_eq by (rewrite length_app; simpl; lia). simpl.
    eexists _, (length (disk world)). split; [reflexivity|]. simpl.
    split; [apply lookup_insert_eq|]. split.
    + unfold contents. simpl. rewrite list_lookup_insert_eq by (rewrite length_app; simpl; lia).
      simpl. rewrite list_lookup_middle by done. simpl. by rewrite firstn_all.
    + split.
      * eexists _, _. simpl. apply list_lookup_insert_eq.
        rewrite length_insert, length_app. simpl. lia.
      * rewrite !list_lookup_insert_ne by lia. by rewrite lookup_app_l.
Qed.
End Dropped.

(** ** The further properties at concrete inputs *)

(** X1 at mode "async" in the empty world. *)
Lemma NewWriterFromConfig_returns_witness :
  let c := example_config "async" 2 false in
  let rw := RW_AsynchronousWriter (example_async []) in
  let world' := started_world AR_absent W_select in
  LogPath c <> "" /\ FileName c <> "" /\ WriterMode c = mode_of rw /\
  cf (base rw) = c /\ absPath (base rw) = @LogFilePath example_env c /\
  fire (base rw) = [] /\ rollingfilelist (base rw) = [] /\ fresh_strategy rw /\
  exists i, handles world' !! file (base rw) = Some (mkFile i false 0) /\
            dir world' !! @LogFilePath example_env c = Some i.
Proof.
  intros c rw world'.
  apply (@NewWriterFromConfig_returns example_env c empty_world world' rw).
  vm_compute. reflexivity.
Defined.

(** X2 at a directory that cannot be made. *)
Lemma NewWriterFromConfig_fails_witness :
  let c := example_config "lock" 2 false in
  let world := set_faults [Fail (EIO 5) 0] empty_world in
  autoRemove empty_world = autoRemove world /\ worker empty_world = worker world /\
  spawned empty_world = spawned world /\
  (LogPath c = "" \/ FileName c = "" -> EIO 5 = ErrInvalidArgument /\ empty_world = world).
Proof.
  intros c world.
  apply (@NewWriterFromConfig_fails example_env c world empty_world (EIO 5)).
  vm_compute. reflexivity.
Defined.

(** X3 at a mode that does not exist: "log/a.log" is made and left open. *)
Lemma NewWriterFromConfig_late_error_witness :
  let c := example_config "sync" 2 false in
  exists (world' : World) (i : nat),
    @NewWriterFromConfig example_env c empty_world =
      (Returns (inr (default ErrInvalidArgument (@NewManager example_env c))), world') /\
    dir world' !! @LogFilePath example_env c = Some i /\
    handles world' = handles empty_world ++ [mkFile i false 0] /\
    autoRemove world' = autoRemove empty_world /\ worker world' = worker empty_world.
Proof.
  intros c.
  apply (@NewWriterFromConfig_late_error example_env c empty_world).
  - reflexivity.
  - discriminate.
  - discriminate.
  - reflexivity.
  - right. apply (bool_decide_unpack _). vm_compute. exact I.
Defined.

(** X4 at a threshold of -1. *)
Lemma NewWriterFromConfig_negative_threshold_witness :
  fst (@NewWriterFromConfig example_env (mkConfig "log" "a" "buffer" 2 false (-1))
         empty_world) = Panics.
Proof.
  apply (@NewWriterFromConfig_negative_threshold example_env
           (mkConfig "log" "a" "buffer" 2 false (-1)) empty_world).
  - reflexivity.
  - simpl. lia.
  - reflexivity.
  - discriminate.
  - discriminate.
  - reflexivity.
  - reflexivity.
Defined.

(** X5 at MaxRemain = 2 with two files listed, none of them on disk: the
    oldest entry leaves the list, its deletion fails and is logged. *)
Lemma AutoRemove_trims_list_witness :
  let '(w', world') :=
    AutoRemove (set_rollingfilelist ["r1"; "r2"] (example_writer "lock" Made false))
      (started_world (AR_got "r3") W_absent) in
  autoRemove world' = AR_recv /\ rollingfilelist w' = ["r2"; "r3"] /\
  disk world' = disk (started_world (AR_got "r3") W_absent).
Proof.
  destruct (AutoRemove (set_rollingfilelist ["r1"; "r2"] (example_writer "lock" Made false))
              (started_world (AR_got "r3") W_absent)) as [w' world'] eqn:HA.
  destruct (AutoRemove_trims_list
              (set_rollingfilelist ["r1"; "r2"] (example_writer "lock" Made false)) w'
              (started_world (AR_got "r3") W_absent) world' "r3" eq_refl HA)
    as (H1 & H2 & _ & _ & H5 & _).
  split; [exact H1|]. split; [|exact H5].
  destruct H2 as [H2 _]; [simpl; lia|]. rewrite H2. reflexivity.
Defined.

(** X6 at MaxRemain = 2 and a deletion that fails with EIO. *)
Lemma AutoRemove_failed_delete_forgotten_witness :
  let w := set_rollingfilelist ["r1"; "r2"] (example_writer "lock" Made false) in
  let world := set_faults [Fail (EIO 5) 0] (started_world (AR_got "r3") W_absent) in
  AutoRemove w world =
    (set_rollingfilelist (["r2"] ++ ["r3"]) w,
     set_autoRemove AR_recv
       (set_logs (logs world ++ [("error in auto remove log file", EIO 5)])
          (set_faults [] world))).
Proof.
  intros w world.
  apply (AutoRemove_failed_delete_forgotten w world "r3" "r1" ["r2"] (EIO 5) 0 []);
    reflexivity.
Defined.

(** X7 at a plain writer on "log/a.log". *)
Lemma synchronous_after_Close_witness :
  let rw := RW_Writer (example_writer "none" Nil false) in
  let '(r, rw1, world1) := Close rw hello_world in
  r = R_Close None /\ rw1 = rw /\
  @Write example_env false rw1 hello world1 =
    (R_Write 0 (Some ErrFileClosed), rw1, set_faults (tail (faults world1)) world1) /\
  Close rw1 world1 =
    (R_Close (Some ErrFileClosed), rw1, set_faults (tail (faults world1)) world1).
Proof.
  intros rw.
  destruct (Close rw hello_world) as [[r rw1] world1] eqn:HC.
  destruct (@synchronous_after_Close example_env rw rw1 hello_world world1 r I eq_refl HC)
    as (H1 & H2 & H3).
  split; [|split; [exact H1|split; [apply H2|exact H3]]].
  vm_compute in HC. by injection HC as <- _ _.
Defined.

(** X8 at two writes of ten bytes after Close, the threshold being 8. *)
Lemma BufferWriter_Write_after_Close_witness :
  let w := mkBufferWriter (example_writer "buffer" Nil false) [] 0 in
  let '(err, world1) := BufferWriter_Close w hello_world in
  exists (rw' : RollingWriter) (world' : World),
    @run example_env (writes false [hello; hello]) (RW_BufferWriter w) world1 =
      (written [hello; hello], rw', world') /\
    disk world' = disk world1.
Proof.
  intros w.
  destruct (BufferWriter_Close w hello_world) as [err world1] eqn:HC.
  apply (@BufferWriter_Write_after_Close example_env w hello_world world1 err false
           [hello; hello]).
  - reflexivity.
  - reflexivity.
  - reflexivity.
  - exact HC.
Defined.

(** X9 at a flush of ten bytes that fails after three. *)
Lemma BufferWriter_Write_hides_flush_failure_witness :
  let w := mkBufferWriter (example_writer "buffer" Nil false) [] 0 in
  let world := set_faults [Fail (EIO 5) 3] (started_world AR_recv W_absent) in
  exists world' : World,
    BufferWriter_Write w hello world =
      (Returns (Z.of_nat (length hello), None), mkBufferWriter (bw_Writer w) [] 0, world') /\
    contents world' 0 = contents world 0 ++ take 3 (buf w ++ hello) /\
    faults world' = [].
Proof.
  intros w world.
  apply (BufferWriter_Write_hides_flush_failure w hello world (EIO 5) 3 [] 0 0).
  - reflexivity.
  - reflexivity.
  - reflexivity.
  - simpl. lia.
  - reflexivity.
  - reflexivity.
  - simpl. lia.
Defined.

(** X10 at three writes, the last one taking a trigger. *)
Lemma BufferWriter_pending_bounded_witness :
  let w := mkBufferWriter (example_writer "buffer" Nil false) [] 0 in
  let '(rs, rw', world') :=
    @run example_env (writes false [hello; ["a"]%byte] ++ [A_fire "r1"; A_Write hello false])
      (RW_BufferWriter w) (started_world AR_recv W_absent) in
  exists w1 : BufferWriter,
    rw' = RW_BufferWriter w1 /\
    (Z.of_nat (length (buf w1)) <= Z.max 0 (BufferWriterThershould (cf (bw_Writer w))))%Z.
Proof.
  intros w.
  destruct (@run example_env (writes false [hello; ["a"]%byte] ++ [A_fire "r1"; A_Write hello false])
              (RW_BufferWriter w) (started_world AR_recv W_absent))
    as [[rs rw'] world'] eqn:HR.
  assert (Hp : pending_within w) by (split; [reflexivity|simpl; lia]).
  pose proof (@BufferWriter_pending_bounded example_env _ w rs rw' _ world' Hp HR) as Hb.
  vm_compute in HR. injection HR as <- <- <-. apply Hb.
  rewrite !elem_of_cons, elem_of_nil. intuition discriminate.
Defined.

(** X11 at two writes of a locked writer to the empty file. *)
Lemma synchronous_writes_append_witness :
  let rw := RW_LockedWriter (mkLockedWriter (example_writer "lock" Made false)) in
  let world := started_world AR_recv W_absent in
  exists world' : World,
    @run example_env (writes false [hello; ["a"]%byte]) rw world =
      (written [hello; ["a"]%byte], rw, world') /\
    contents world' 0 = contents world 0 ++ concat [hello; ["a"]%byte] /\
    dir world' = dir world.
Proof.
  intros rw world.
  apply (@synchronous_writes_append example_env false [hello; ["a"]%byte] rw world 0 0).
  - exact I.
  - reflexivity.
  - reflexivity.
  - reflexivity.
  - simpl. lia.
Defined.

(** X12 at a plain writer whose file holds ten bytes and a trigger to
    "r1". *)
Lemma synchronous_Write_rotates_witness :
  let rw := RW_Writer (set_fire ["r1"] (example_writer "none" Nil false)) in
  exists (rw' : RollingWriter) (world' : World) (j : nat),
    @Write example_env false rw ["a"]%byte hello_world =
      (R_Write (Z.of_nat (length ["a"]%byte)) None, rw', world') /\
    fire (base rw') = [] /\ file (base rw') <> file (base rw) /\
    dir world' !! "r1" = Some 0%nat /\ contents world' 0 = contents hello_world 0 /\
    handles world' !! file (base rw) = Some (mkFile 0 false 10) /\
    dir world' !! absPath (base rw) = Some j /\ j <> 0%nat /\
    contents world' j = ["a"]%byte /\
    handles world' !! file (base rw') = Some (mkFile j false (length ["a"]%byte)) /\
    spawned world' = spawned hello_world ++ [G_completion (file (base rw)) "r1"].
Proof.
  intros rw.
  apply (@synchronous_Write_rotates example_env false rw ["a"]%byte hello_world "r1" [] 0 10).
  - exact I.
  - reflexivity.
  - reflexivity.
  - reflexivity.
  - reflexivity.
  - simpl. lia.
  - discriminate.
Defined.

(** X13 at one pending byte and a Write of ten bytes that takes a trigger. *)
Lemma BufferWriter_rotation_carries_pending_witness :
  let w := mkBufferWriter (set_fire ["r1"] (example_writer "buffer" Nil false))
                          ["a"]%byte 0 in
  exists (w' : BufferWriter) (world' : World) (j : nat),
    BufferWriter_Write w hello hello_world =
      (Returns (Z.of_nat (length hello), None), w', world') /\
    dir world' !! "r1" = Some 0%nat /\ contents world' 0 = contents hello_world 0 /\
    dir world' !! absPath (bw_Writer w) = Some j /\ j <> 0%nat /\
    contents world' j ++ buf w' = buf w ++ hello.
Proof.
  intros w.
  apply (BufferWriter_rotation_carries_pending w hello hello_world "r1" [] 0 10).
  - reflexivity.
  - reflexivity.
  - reflexivity.
  - reflexivity.
  - reflexivity.
  - reflexivity.
  - simpl. lia.
  - discriminate.
Defined.

(** X14 at a rotation to "r1" whose open fails with EIO, then one to
    "r2". *)
Lemma Reopen_open_fails_witness :
  let w := example_writer "none" Nil false in
  let world := set_faults [Proceed; Fail (EIO 5) 0] hello_world in
  exists world' : World,
    Reopen w "r1" world = (Some (EIO 5), w, world') /\
    dir world' !! "r1" = Some 0%nat /\ dir world' !! absPath w = None /\
    disk world' = disk world /\ handles world' = handles world /\
    spawned world' = spawned world /\ faults world' = [] /\
    (default Proceed (head []) = Proceed ->
     fst (Reopen w "r2" world') = (Some ErrNotExist, w)).
Proof.
  intros w world.
  apply (Reopen_open_fails w "r1" "r2" world (EIO 5) 0 0 []).
  - reflexivity.
  - reflexivity.
  - discriminate.
Defined.

(** X15 at ten bytes, buffers of four bytes and a queue of two: the call
    parks with two chunks queued. *)
Lemma AsynchronousWriter_Write_rotation_chunks_witness :
  let w := mkAsynchronousWriter (set_fire ["r1"] (example_writer "async" Nil false))
                                false [] 0 in
  let '(o, w', world') :=
    @AsynchronousWriter_Write example_env false w hello (started_world AR_absent W_select) in
  o = Parks /\
  exists chunks rest, queue w' = queue w ++ chunks /\ rest <> [] /\
                      concat chunks ++ rest = hello /\
                      length (queue w') = @QueueSize example_env.
Proof.
  intros w.
  destruct (@AsynchronousWriter_Write example_env false w hello
              (started_world AR_absent W_select)) as [[o w'] world'] eqn:HW.
  pose proof (@AsynchronousWriter_Write_rotation_chunks example_env false w w' hello
                (started_world AR_absent W_select) world' "r1" [] o) as Hc.
  assert (Ho : o = Parks) by (vm_compute in HW; by injection HW as <- _ _).
  split; [exact Ho|]. subst o. apply Hc.
  - reflexivity.
  - reflexivity.
  - right. reflexivity.
  - simpl. lia.
  - exact HW.
Defined.

(** X16 at two queued chunks. *)
Lemma writer_drains_in_order_witness :
  let w := example_async [hello; ["a"]%byte] in
  let world := started_world AR_absent W_select in
  exists world' : World,
    @run example_env (replicate (length (queue w)) (A_writer false))
        (RW_AsynchronousWriter w) world =
      (replicate (length (queue w)) R_none, RW_AsynchronousWriter (set_queue [] w), world') /\
    contents world' 0 = contents world 0 ++ concat (queue w) /\
    pool world' = rev (queue w) ++ pool world /\ worker world' = W_select.
Proof.
  intros w world.
  apply (@writer_drains_in_order example_env false w world 0 0).
  - left. reflexivity.
  - reflexivity.
  - reflexivity.
  - reflexivity.
  - simpl. lia.
Defined.

(** X17 at one queued chunk whose write fails with EIO. *)
Lemma writer_error_taken_by_next_Write_witness :
  let w := example_async [hello] in
  let world := set_faults [Fail (EIO 5) 0] (started_world AR_absent W_select) in
  exists world1 world2 : World,
    @exec example_env (A_writer false) (RW_AsynchronousWriter w) world =
      (R_none, RW_AsynchronousWriter (set_queue [] w), world1) /\
    worker world1 = W_send (EIO 5) hello /\
    @exec example_env (A_Write ["a"]%byte false) (RW_AsynchronousWriter (set_queue [] w))
        world1 =
      (R_Write 0 (Some (EIO 5)), RW_AsynchronousWriter (set_queue [] w), world2) /\
    worker world2 = W_select /\ pool world2 = hello :: pool world /\
    disk world2 = disk world1 /\ faults world2 = [].
Proof.
  intros w world.
  apply (@writer_error_taken_by_next_Write example_env false false w world hello
           ["a"]%byte [] (EIO 5) 0 [] 0 0); reflexivity.
Defined.

(** X19 at one receiver and a write that fails after three bytes. *)
Lemma writer_error_handed_to_receiver_witness :
  let w := example_async [hello] in
  let world := set_err 1 [] (set_faults [Fail (EIO 5) 3] (started_world AR_absent W_select)) in
  exists world' : World,
    @exec example_env (A_writer false) (RW_AsynchronousWriter w) world =
      (R_none, RW_AsynchronousWriter (set_queue [] w), world') /\
    worker world' = W_select /\ err_seen world' = err_seen world ++ [EIO 5] /\
    err_waiters world' = 0%nat /\ pool world' = hello :: pool world /\
    contents world' 0 = contents world 0 ++ take 3 hello.
Proof.
  intros w world.
  apply (@writer_error_handed_to_receiver example_env false w world hello [] (EIO 5) 3 0
           [] 0 0); try reflexivity.
  simpl. lia.
Defined.

(** X20 at a rotation to "r1". *)
Lemma completion_open_fails_leaves_tmp_witness :
  let world := set_faults [Proceed; Fail (EIO 5) 0]
                 (set_dir {["log/a.log" := 1%nat; "r1" := 0%nat]} (compress_world [])) in
  exists world' : World,
    @completion example_env (example_writer "lock" Made true) 0 "r1" world =
      (G_done, world') /\
    dir world' !! "r1" = None /\ dir world' !! ("r1" +:+ ".tmp") = Some 0%nat /\
    disk world' = disk world /\
    logs world' = logs world ++ [("error in compress log file", EIO 5)] /\
    autoRemove world' = autoRemove world /\ spawned world' = spawned world.
Proof.
  intros world.
  apply (@completion_open_fails_leaves_tmp example_env (example_writer "lock" Made true) 0
           "r1" world (EIO 5) 0 0 []).
  - reflexivity.
  - reflexivity.
  - vm_compute. reflexivity.
Defined.

(** X21 at a buffered writer with one pending byte. *)
Lemma Write_rotation_fails_writes_nothing_witness :
  let rw := RW_BufferWriter (mkBufferWriter (set_fire ["r1"] (example_writer "buffer" Nil false))
                                            ["a"]%byte 0) in
  let world := set_faults [Fail (EIO 5) 0] hello_world in
  @Write example_env false rw hello world =
    (R_Write 0 (Some (EIO 5)), set_base (set_fire [] (base rw)) rw, set_faults [] world).
Proof.
  intros rw world.
  apply (@Write_rotation_fails_writes_nothing example_env false rw hello world "r1" []
           (EIO 5) 0 []).
  - reflexivity.
  - exact I.
  - reflexivity.
Defined.

(** X22 at two queued chunks, the write of the first failing after three
    bytes: Close returns nil. *)
Lemma Close_gives_up_on_failed_write_witness :
  let w := example_async [hello; ["a"]%byte] in
  let world := set_faults [Fail (EIO 5) 3] (started_world AR_absent W_select) in
  exists world' : World,
    AsynchronousWriter_Close w world =
      (None, mkAsynchronousWriter (aw_Writer w) true [["a"]%byte] 1, world') /\
    contents world' 0 = contents world 0 ++ take 3 hello /\
    pool world' = hello :: pool world /\
    closed_handle world' (file (aw_Writer w)).
Proof.
  intros w world.
  apply (Close_gives_up_on_failed_write w world hello [["a"]%byte] (EIO 5) 3 [] 0 0);
    try reflexivity.
  simpl. lia.
Defined.

(** X23 at the rotated file of [compress_world]. *)
Lemma CompressFile_seek_fails_leaves_archive_witness :
  let world := compress_world [Proceed; Fail (EIO 5) 0] in
  exists (world' : World) (j : nat),
    @CompressFile example_env (example_writer "lock" Made true) 0 "r1" world =
      (Some (EIO 5), world') /\
    dir world' !! "r1" = Some j /\
    contents world' j = @gz_encode example_env [] /\
    closed_handle world' (length (handles world)) /\
    handles world' !! 0%nat = Some (mkFile 0 false 10).
Proof.
  intros world.
  apply (@CompressFile_seek_fails_leaves_archive example_env (example_writer "lock" Made true)
           0 "r1" world (EIO 5) 0 0 10).
  - reflexivity.
  - vm_compute. reflexivity.
  - reflexivity.
Defined.
